(** * tnnf: packet framing, socket receive loops and the selector

    A shallow embedding of the header-only library [tnnf]
    ([Packet.hpp], [PacketBuffer.hpp], [Address.hpp], [TcpSocket.hpp],
    [UdpSocket.hpp], [Selector.hpp], and the packet loop of
    [examples.cpp]) and the properties of its framing engine and of its
    readiness multiplexer.

    Conventions of the embedding:
    - [char] is [Byte.byte]; [uint16_t] and [size_t] values are [Z] with the
      wrap-around written out ([uint16_wrap], [size_t_wrap], LP64);
    - the raw buffer [char* mBuffer] is [option (list byte)], [None] for
      [nullptr]; an access outside the allocated block is the outcome
      [Fault] (undefined behaviour in C++);
    - loops that the source does not bound carry fuel, and running out of it
      is the outcome [OutOfFuel];
    - the two error callbacks ([gCommonErrorFunction],
      [gSocketErrorFunction]) and the OS calls append to a chronological
      list of [Event]s. *)

From Stdlib Require Import ZArith List Lia Bool.
From Stdlib.Strings Require Import Byte.
From stdpp Require Import base list.
Import ListNotations.
Open Scope Z_scope.

(** ** Machine integers and bytes *)

Definition uint16_wrap (z : Z) : Z := z mod 2 ^ 16.
Definition size_t_wrap (z : Z) : Z := z mod 2 ^ 64.

Definition byte_to_Z (b : byte) : Z := Z.of_N (Byte.to_N b).

Definition byte_of_Z (z : Z) : byte :=
  match Byte.of_N (Z.to_N (z mod 256)) with
  | Some b => b
  | None => x00
  end.

(** [ntohs] applied to the two bytes found in memory at some address:
    the first byte is the most significant one. *)
Definition ntohs (b0 b1 : byte) : Z := 256 * byte_to_Z b0 + byte_to_Z b1.

(** The two bytes [htons v] leaves in memory, in address order. *)
Definition htons (v : Z) : list byte := [byte_of_Z (v / 256); byte_of_Z v].

(** ** Outcomes of running a piece of the program *)

Inductive outcome (A : Type) : Type :=
  | Done (a : A)
  | Fault
  | OutOfFuel.
Arguments Done {A} a.
Arguments Fault {A}.
Arguments OutOfFuel {A}.

#[global] Instance outcome_ret : MRet outcome := fun A a => Done a.
#[global] Instance outcome_bind : MBind outcome := fun A B f m =>
  match m with
  | Done a => f a
  | Fault => Fault
  | OutOfFuel => OutOfFuel
  end.

Definition is_done {A : Type} (o : outcome A) : bool :=
  match o with
  | Done _ => true
  | _ => false
  end.

(** ** Events: error callbacks and OS calls, in the order they happen *)

Definition ERROR_PACKET_TOO_BIG : Z := 200.
Definition ERROR_PACKETBUFFER_TOO_SMALL : Z := 250.
Definition ERROR_SELECTOR_FAIL : Z := 300.
Definition ERROR_SELECTOR_TIMEOUT : Z := 301.
Definition ERROR_SELECTOR_NO_TARGET : Z := 302.
Definition ERROR_SOCKET_BIND : Z := 110.
Definition ERROR_SOCKET_SEND : Z := 116.
Definition ERROR_SOCKET_RECEIVE : Z := 117.
Definition ERROR_SOCKET_HANGUP : Z := 118.

Inductive Event : Type :=
  | EvCommonError (errorCode : Z)           (* gCommonErrorFunction(code, msg) *)
  | EvSocketError (sock : Z) (errorEvent : Z) (* gSocketErrorFunction(sock, code, errno) *)
  | EvRecv (sock : Z) (offset : Z) (len : Z)  (* ::recv / ::recvfrom into mBuffer + offset *)
  | EvBuildPackets (receivedBytes : Z)        (* buffer.buildPackets(receivedBytes) *)
  | EvSelect (nfds : Z).                      (* ::select(nfds, ...) *)

Definition is_error_report (e : Event) : bool :=
  match e with
  | EvCommonError _ | EvSocketError _ _ => true
  | _ => false
  end.

(** ** Packet.hpp *)

Module Packet.

Record t : Type := mk {
  mType : Z;
  mSize : Z;
  mData : list byte
}.

Section Statics.
(** [static uint16_t Packet::maxSize] and [Packet::EMPTY_PACKET_TYPE]. *)
Variable maxSize : Z.
Variable EMPTY_PACKET_TYPE : Z.

(** [Packet()] *)
Definition empty : t :=
  {| mType := EMPTY_PACKET_TYPE; mSize := 2 * 2; mData := [] |}.

(** [Packet(const uint16_t& type, const std::string& data)]; the second
    component lists the calls made to the error callback. *)
Definition Packet (type : Z) (data : list byte) : t * list Event :=
  if type =? EMPTY_PACKET_TYPE then
    (empty, [])
  else if size_t_wrap (maxSize - 2 * 2) <? Z.of_nat (length data) then
    (empty, [EvCommonError ERROR_PACKET_TOO_BIG])
  else
    ({| mType := type;
        mSize := uint16_wrap (Z.of_nat (length data) + 2 * 2);
        mData := data |}, []).
End Statics.

(** A well-formed packet: one the constructor builds, without complaint,
    from its own type and data. *)
Definition valid (maxSize EMPTY_PACKET_TYPE : Z) (p : t) : Prop :=
  0 <= mType p < 65536
  /\ Packet maxSize EMPTY_PACKET_TYPE (mType p) (mData p) = (p, []).

Definition getType (p : t) : Z := mType p.
Definition getSize (p : t) : Z := mSize p.
Definition getData (p : t) : list byte := mData p.

(** The defaults of both statics: [std::numeric_limits<uint16_t>::max()]. *)
Definition default_maxSize : Z := 65535.
Definition default_EMPTY_PACKET_TYPE : Z := 65535.

End Packet.

(** ** PacketBuffer.hpp *)

Module PacketBuffer.

Record t : Type := mk {
  mBuffer : option (list byte);
  mSize : Z;
  mCurrentlyStoredBytes : Z;
  mStoredPackets : list Packet.t
}.

(** Memory accesses into the block [mBuffer] points to. *)
Definition peek (buf : list byte) (i : Z) : outcome byte :=
  if i <? 0 then Fault
  else match buf !! Z.to_nat i with
       | Some b => Done b
       | None => Fault
       end.

Definition poke (buf : list byte) (i : Z) (b : byte) : outcome (list byte) :=
  if (0 <=? i) && (i <? Z.of_nat (length buf))
  then Done (<[Z.to_nat i := b]> buf)
  else Fault.

(** [memset(&mBuffer[off], 0, n)] *)
Definition memset0 (buf : list byte) (off n : Z) : outcome (list byte) :=
  if n <=? 0 then Done buf
  else if (0 <=? off) && (off + n <=? Z.of_nat (length buf))
  then Done (take (Z.to_nat off) buf ++ replicate (Z.to_nat n) x00
               ++ drop (Z.to_nat (off + n)) buf)
  else Fault.

(** What a successful OS read of [bs] into [mBuffer + off] leaves behind. *)
Definition os_write (buf : list byte) (off : Z) (bs : list byte)
  : outcome (list byte) :=
  if (0 <=? off) && (off + Z.of_nat (length bs) <=? Z.of_nat (length buf))
  then Done (take (Z.to_nat off) buf ++ bs
               ++ drop (Z.to_nat off + length bs) buf)
  else Fault.

(** Stored bytes that do not hold a whole packet yet: fewer than two, or
    fewer than their own length field announces. *)
Definition incomplete (stored : list byte) : Prop :=
  match stored with
  | b0 :: b1 :: _ => Z.of_nat (length stored) < ntohs b0 b1
  | _ => True
  end.

(** [for(uint16_t i = 2 * sizeof(uint16_t); i < packetSize; i++) ss << mBuffer[i];]
    run from index [i] for [n] more characters. *)
Fixpoint read_data (buf : list byte) (i : Z) (n : nat) : outcome (list byte) :=
  match n with
  | O => Done []
  | S n' =>
      b ← peek buf i;
      rest ← read_data buf (i + 1) n';
      mret (b :: rest)
  end.

(** [for(uint16_t i = packetSize; i < mCurrentlyStoredBytes; i++)
       mBuffer[i - packetSize] = mBuffer[i];]
    The counter is a [uint16_t], the bound a [size_t]; [i - packetSize] is
    computed in [int]. *)
Fixpoint shift_loop (fuel : nat) (buf : list byte)
    (packetSize stored i : Z) : outcome (list byte) :=
  if i <? stored then
    match fuel with
    | O => OutOfFuel
    | S fuel' =>
        b ← peek buf i;
        buf' ← poke buf (i - packetSize) b;
        shift_loop fuel' buf' packetSize stored (uint16_wrap (i + 1))
    end
  else Done buf.

Section Statics.
Variable maxSize : Z.
Variable EMPTY_PACKET_TYPE : Z.

(** [explicit PacketBuffer(const size_t& size = Packet::maxSize)];
    [fresh] is the indeterminate content of [new char[size]]. The
    constructor calls no error callback: its event list is empty. *)
Definition PacketBuffer (fresh : nat -> byte) (size : Z) : t * list Event :=
  if maxSize <=? size then
    ({| mBuffer := Some (map fresh (seq 0 (Z.to_nat size)));
        mSize := size;
        mCurrentlyStoredBytes := 0;
        mStoredPackets := [] |}, [])
  else
    ({| mBuffer := None;
        mSize := 0;
        mCurrentlyStoredBytes := 0;
        mStoredPackets := [] |}, []).

(** The [while] loop of [buildPackets], on the block [buf]. [n] is the
    fuel handed to every run of the inner shift loop. *)
Fixpoint build_loop (fuel n : nat) (buf : list byte) (stored : Z)
    (q : list Packet.t) (ev : list Event)
  : outcome (list byte * Z * list Packet.t * list Event) :=
  if stored <? 2 then Done (buf, stored, q, ev)
  else
    match fuel with
    | O => OutOfFuel
    | S fuel' =>
        b0 ← peek buf 0;
        b1 ← peek buf 1;
        let packetSize := ntohs b0 b1 in
        if packetSize <=? stored then
          data ← read_data buf (2 * 2) (Z.to_nat (packetSize - 2 * 2));
          t0 ← peek buf 2;
          t1 ← peek buf 3;
          let '(p, e) := Packet.Packet maxSize EMPTY_PACKET_TYPE (ntohs t0 t1) data in
          buf1 ← shift_loop n buf packetSize stored packetSize;
          let stored' := stored - packetSize in
          buf2 ← memset0 buf1 stored' packetSize;
          build_loop fuel' n buf2 stored' (q ++ [p]) (ev ++ e)
        else Done (buf, stored, q, ev)
    end.

(** [void buildPackets(const int& receivedBytes)] *)
Definition buildPackets (fuel : nat) (receivedBytes : Z) (pb : t)
  : outcome (t * list Event) :=
  let stored := size_t_wrap (mCurrentlyStoredBytes pb + receivedBytes) in
  match mBuffer pb with
  | None =>
      (* the 16-bit load through [cursor] when [cursor == nullptr] *)
      if stored <? 2
      then Done ({| mBuffer := None; mSize := mSize pb;
                    mCurrentlyStoredBytes := stored;
                    mStoredPackets := mStoredPackets pb |}, [])
      else Fault
  | Some buf =>
      r ← build_loop fuel fuel buf stored (mStoredPackets pb) [];
      let '(buf', stored', q, ev) := r in
      mret ({| mBuffer := Some buf'; mSize := mSize pb;
               mCurrentlyStoredBytes := stored';
               mStoredPackets := q |}, ev)
  end.

(** One round of a receive loop, seen from the buffer: the OS has put
    [chunk] at [mBuffer + mCurrentlyStoredBytes], then
    [buildPackets(chunk.size())] runs. *)
Definition received (fuel : nat) (chunk : list byte) (pb : t)
  : outcome (t * list Event) :=
  match mBuffer pb with
  | None => Fault
  | Some buf =>
      mem ← os_write buf (mCurrentlyStoredBytes pb) chunk;
      buildPackets fuel (Z.of_nat (length chunk))
        (mk (Some mem) (mSize pb) (mCurrentlyStoredBytes pb) (mStoredPackets pb))
  end.

(** A byte stream arriving in the given chunks, one round per chunk. *)
Fixpoint feed (fuel : nat) (chunks : list (list byte)) (pb : t)
  : outcome (t * list Event) :=
  match chunks with
  | [] => Done (pb, [])
  | c :: cs =>
      r ← received fuel c pb;
      r' ← feed fuel cs (fst r);
      mret (fst r', snd r ++ snd r')
  end.
End Statics.

Definition isPacketsStored (pb : t) : bool :=
  match mStoredPackets pb with [] => false | _ => true end.
(* [getNumOfStoredPackets()] returns a reference to the temporary that
   [mStoredPackets.size()] yields; reading it has no defined value, so the
   method has no counterpart here. *)
Definition getBuffer (pb : t) : option (list byte) := mBuffer pb.
Definition getSize (pb : t) : Z := mSize pb.
Definition getCurrentSize (pb : t) : Z := mCurrentlyStoredBytes pb.

(** [Packet getPacket()]: [front()] then [pop()]; on an empty queue both are
    undefined. *)
Definition getPacket (pb : t) : outcome (Packet.t * t) :=
  match mStoredPackets pb with
  | [] => Fault
  | p :: q => Done (p, {| mBuffer := mBuffer pb; mSize := mSize pb;
                          mCurrentlyStoredBytes := mCurrentlyStoredBytes pb;
                          mStoredPackets := q |})
  end.

(** [for(size_t i = 0; i < mCurrentlyStoredBytes; i++) mBuffer[i] = other.mBuffer[i];]
    of the copy constructor, from index [i] for [n] more bytes; [src] is
    [other.mBuffer], [dst] the new block. *)
Fixpoint copy_loop (n : nat) (src : option (list byte)) (dst : list byte) (i : Z)
  : outcome (list byte) :=
  match n with
  | O => Done dst
  | S n' =>
      b ← match src with
          | Some l => peek l i
          | None => Fault
          end;
      dst' ← poke dst i b;
      copy_loop n' src dst' (i + 1)
  end.

(** [PacketBuffer(const PacketBuffer& other)]; [fresh] is the indeterminate
    content of [new char[mSize]], which is a block of its own, not
    [nullptr], also when [mSize] is 0. *)
Definition copy (fresh : nat -> byte) (other : t) : outcome t :=
  mem ← copy_loop (Z.to_nat (mCurrentlyStoredBytes other)) (mBuffer other)
        (map fresh (seq 0 (Z.to_nat (mSize other)))) 0;
  mret (mk (Some mem) (mSize other) (mCurrentlyStoredBytes other)
          (mStoredPackets other)).

End PacketBuffer.

(** ** Socket.hpp *)

Module Socket.

Record t : Type := mk {
  mSocket : Z;        (* the descriptor behind [std::shared_ptr<int>] *)
  mAddress : Z;       (* the stored address, opaque here *)
  mSendFlags : Z;
  mReceiveFlags : Z
}.

Definition getSocket (s : t) : Z := mSocket s.

(** [bool operator==(const Socket& other)]: descriptors are compared. *)
Definition eqb (a b : t) : bool := mSocket a =? mSocket b.

End Socket.

(** ** Address.hpp *)

Module Address.

Definition AF_INET : Z := 2.
Definition AF_INET6 : Z := 10.

(** The fields of [sockaddr_storage mAddress] the class looks at: the
    family, the port field as it lies in memory ([sin_port] and [sin6_port]
    share their place) and the address field. *)
Record t : Type := mk {
  ss_family : Z;
  sin_port : list byte;
  sin_addr : list byte
}.

(** [std::find(address.begin(), address.end(), ':') != address.end()] *)
Definition has_colon (address : list byte) : bool :=
  existsb (Byte.eqb x3a) address.

Section OS.
(** What [inet_pton(family, text, &field)] leaves in the address field. *)
Variable inet_pton : Z -> list byte -> list byte.

(** [Address(const std::string& address, const uint16_t& port)] *)
Definition Address_port (address : list byte) (port : Z) : t :=
  if has_colon address
  then mk AF_INET6 (htons port) (inet_pton AF_INET6 address)
  else mk AF_INET (htons port) (inet_pton AF_INET address).

(** [Address(const std::string& address)] *)
Definition Address (address : list byte) : t :=
  if has_colon address
  then mk AF_INET6 (htons 0) (inet_pton AF_INET6 address)
  else mk AF_INET (htons 0) (inet_pton AF_INET address).
End OS.

(** [bool isIPv6()] *)
Definition isIPv6 (a : t) : bool :=
  if ss_family a =? AF_INET then false else true.

(** [uint16_t getPort()]: [ntohs] of the port field, in either family. *)
Definition getPort (a : t) : Z :=
  match sin_port a with
  | b0 :: b1 :: _ => ntohs b0 b1
  | _ => 0
  end.

End Address.

(** ** The OS side of a read

    One entry per call of [::recv] / [::recvfrom]: either the call fails
    (returns -1) or the bytes the peer has made available, of which the
    call hands over at most the requested length (0 bytes is what the
    call returns on an orderly shutdown, or when asked for 0 bytes). *)

Inductive os_read : Type :=
  | ReadData (bs : list byte)
  | ReadError.

(** One entry per call of [::send]: the call fails (returns -1) or the
    OS takes up to [n] of the bytes it is offered. *)
Inductive os_send : Type :=
  | SendTakes (n : nat)
  | SendError.

Inductive send_end : Type :=
  | SendDone (rest : list os_send)   (* the loop ran to its end *)
  | SendFailed                       (* [::send] failed, [send] returned *)
  | SendBlocked.                     (* the script ran out inside [::send] *)

Inductive call_end : Type :=
  | Returned      (* the method returned to its caller *)
  | Blocked.      (* the script of OS answers ran out inside a read *)

(** ** TcpSocket.hpp *)

Module TcpSocket.

(** The bytes [send(packet, flags)] hands to [::send], in order, when no
    call fails: [htons(getSize())], [htons(getType())], then the data. *)
Definition wire (p : Packet.t) : list byte :=
  htons (Packet.getSize p) ++ htons (Packet.getType p) ++ Packet.getData p.

(** Each of the three loops of [send(packet, flags)]:
    [while(bytesSent < n) { currentlySent = ::send(sock, data + bytesSent,
    bytesLeft, flags); ... bytesSent += currentlySent; bytesLeft -=
    currentlySent; }]. The first component is what went out. *)
Fixpoint send_loop (fd : Z) (data : list byte) (bytesSent bytesLeft : Z)
    (os : list os_send) : list byte * list Event * send_end :=
  if bytesSent <? Z.of_nat (length data) then
    match os with
    | [] => ([], [], SendBlocked)
    | SendError :: _ => ([], [EvSocketError fd ERROR_SOCKET_SEND], SendFailed)
    | SendTakes n :: os' =>
        let currentlySent := Z.min (Z.of_nat n) bytesLeft in
        let '(out, ev, r) :=
          send_loop fd data (bytesSent + currentlySent)
            (bytesLeft - currentlySent) os' in
        (take (Z.to_nat currentlySent) (drop (Z.to_nat bytesSent) data) ++ out,
         ev, r)
    end
  else ([], [], SendDone os).

(** [void send(const Packet& packet, const int& flags)]; the first two
    loops send the first two bytes in memory of [htons(getSize())] and of
    [htons(getType())]. *)
Definition send (sock : Socket.t) (packet : Packet.t) (os : list os_send)
  : list byte * list Event * send_end :=
  let fd := Socket.getSocket sock in
  match send_loop fd (htons (Packet.getSize packet)) 0 2 os with
  | (out1, ev1, SendDone os1) =>
      match send_loop fd (htons (Packet.getType packet)) 0 2 os1 with
      | (out2, ev2, SendDone os2) =>
          let '(out3, ev3, r) :=
            send_loop fd (Packet.getData packet) 0
              (Z.of_nat (length (Packet.getData packet))) os2 in
          (out1 ++ out2 ++ out3, ev1 ++ ev2 ++ ev3, r)
      | (out2, ev2, r) => (out1 ++ out2, ev1 ++ ev2, r)
      end
  | r => r
  end.

Section Statics.
Variable maxSize : Z.
Variable EMPTY_PACKET_TYPE : Z.

(** [void receive(PacketBuffer& buffer, const int& flags)]. The loop
    condition, spelled [!buffer.isPacketStored()] in the three receive
    methods, is read as the buffer's [isPacketsStored()]. The events of the
    call come first, in order; the fuel is that of each [buildPackets]. *)
Fixpoint receive (fuel : nat) (sock : Socket.t) (os : list os_read)
    (buffer : PacketBuffer.t)
  : list Event * outcome (call_end * PacketBuffer.t) :=
  let offset := PacketBuffer.getCurrentSize buffer in
  let len := PacketBuffer.getSize buffer / 2 in
  let fd := Socket.getSocket sock in
  match os with
  | [] => ([EvRecv fd offset len], Done (Blocked, buffer))
  | ReadError :: _ =>
      ([EvRecv fd offset len; EvSocketError fd ERROR_SOCKET_RECEIVE],
       Done (Returned, buffer))
  | ReadData bs :: os' =>
      let got := take (Z.to_nat len) bs in
      let currentlyReceived := Z.of_nat (length got) in
      if currentlyReceived =? 0 then
        ([EvRecv fd offset len; EvSocketError fd ERROR_SOCKET_HANGUP],
         Done (Returned, buffer))
      else
        let ev := [EvRecv fd offset len; EvBuildPackets currentlyReceived] in
        match PacketBuffer.received maxSize EMPTY_PACKET_TYPE fuel got buffer with
        | Done (buffer', e) =>
            if PacketBuffer.isPacketsStored buffer'
            then (ev ++ e, Done (Returned, buffer'))
            else let '(ev', r) := receive fuel sock os' buffer' in
                 (ev ++ e ++ ev', r)
        | Fault => (ev, Fault)
        | OutOfFuel => (ev, OutOfFuel)
        end
  end.
End Statics.

End TcpSocket.

(** ** UdpSocket.hpp *)

Module UdpSocket.

Section Statics.
Variable maxSize : Z.
Variable EMPTY_PACKET_TYPE : Z.

(** [void receive(PacketBuffer& buffer, Address& address, const int& flags)] *)
Fixpoint receive_from (fuel : nat) (sock : Socket.t) (os : list os_read)
    (buffer : PacketBuffer.t)
  : list Event * outcome (call_end * PacketBuffer.t) :=
  let offset := PacketBuffer.getCurrentSize buffer in
  let len := PacketBuffer.getSize buffer in
  let fd := Socket.getSocket sock in
  match os with
  | [] => ([EvRecv fd offset len], Done (Blocked, buffer))
  | ReadError :: _ =>
      ([EvRecv fd offset len; EvSocketError fd ERROR_SOCKET_RECEIVE],
       Done (Returned, buffer))
  | ReadData bs :: os' =>
      let got := take (Z.to_nat len) bs in
      let currentlyReceived := Z.of_nat (length got) in
      if currentlyReceived =? 0 then
        ([EvRecv fd offset len; EvSocketError fd ERROR_SOCKET_HANGUP],
         Done (Returned, buffer))
      else
        let ev := [EvRecv fd offset len; EvBuildPackets currentlyReceived] in
        match PacketBuffer.received maxSize EMPTY_PACKET_TYPE fuel got buffer with
        | Done (buffer', e) =>
            if PacketBuffer.isPacketsStored buffer'
            then (ev ++ e, Done (Returned, buffer'))
            else let '(ev', r) := receive_from fuel sock os' buffer' in
                 (ev ++ e ++ ev', r)
        | Fault => (ev, Fault)
        | OutOfFuel => (ev, OutOfFuel)
        end
  end.

(** [void receive(PacketBuffer& buffer, const int& flags)]: the two error
    branches report and fall through to [buildPackets]. *)
Fixpoint receive (fuel : nat) (sock : Socket.t) (os : list os_read)
    (buffer : PacketBuffer.t)
  : list Event * outcome (call_end * PacketBuffer.t) :=
  let offset := PacketBuffer.getCurrentSize buffer in
  let len := PacketBuffer.getSize buffer in
  let fd := Socket.getSocket sock in
  match os with
  | [] => ([EvRecv fd offset len], Done (Blocked, buffer))
  | r :: os' =>
      let got := match r with
                 | ReadData bs => take (Z.to_nat len) bs
                 | ReadError => []
                 end in
      let currentlyReceived := match r with
                               | ReadData _ => Z.of_nat (length got)
                               | ReadError => -1
                               end in
      let report :=
        if currentlyReceived <=? 0 then
          if currentlyReceived =? 0
          then [EvSocketError fd ERROR_SOCKET_HANGUP]
          else [EvSocketError fd ERROR_SOCKET_RECEIVE]
        else [] in
      let ev := [EvRecv fd offset len] ++ report
                  ++ [EvBuildPackets currentlyReceived] in
      match
        if currentlyReceived <=? 0
        then (* nothing was written *)
             PacketBuffer.buildPackets maxSize EMPTY_PACKET_TYPE fuel
               currentlyReceived buffer
        else PacketBuffer.received maxSize EMPTY_PACKET_TYPE fuel got buffer
      with
      | Done (buffer', e) =>
          if PacketBuffer.isPacketsStored buffer'
          then (ev ++ e, Done (Returned, buffer'))
          else let '(ev', r) := receive fuel sock os' buffer' in
               (ev ++ e ++ ev', r)
      | Fault => (ev, Fault)
      | OutOfFuel => (ev, OutOfFuel)
      end
  end.
End Statics.

(** [void bind()], on the stored address [address]. [os_bind] is what
    [::bind] returns when it is called; the first component tells whether
    it was called. *)
Definition bind (sock : Socket.t) (address : Address.t) (os_bind : Z)
  : bool * list Event :=
  let fd := Socket.getSocket sock in
  if Address.getPort address =? 0 then
    (false, [EvSocketError fd ERROR_SOCKET_BIND])
  else if os_bind =? -1 then
    (true, [EvSocketError fd ERROR_SOCKET_BIND])
  else (true, []).

(** Each of the three loops of [send(packet, address, flags)]: as in
    [TcpSocket::send], with [::sendto]; every call that does not fail puts
    one datagram on the wire, made of the bytes it took. *)
Fixpoint sendto_loop (fd : Z) (data : list byte) (bytesSent bytesLeft : Z)
    (os : list os_send) : list (list byte) * list Event * send_end :=
  if bytesSent <? Z.of_nat (length data) then
    match os with
    | [] => ([], [], SendBlocked)
    | SendError :: _ => ([], [EvSocketError fd ERROR_SOCKET_SEND], SendFailed)
    | SendTakes n :: os' =>
        let currentlySent := Z.min (Z.of_nat n) bytesLeft in
        let '(out, ev, r) :=
          sendto_loop fd data (bytesSent + currentlySent)
            (bytesLeft - currentlySent) os' in
        (take (Z.to_nat currentlySent) (drop (Z.to_nat bytesSent) data) :: out,
         ev, r)
    end
  else ([], [], SendDone os).

(** [void send(const Packet& packet, Address& address, const int& flags)];
    the first component lists the datagrams sent, in order. *)
Definition send (sock : Socket.t) (packet : Packet.t) (os : list os_send)
  : list (list byte) * list Event * send_end :=
  let fd := Socket.getSocket sock in
  match sendto_loop fd (htons (Packet.getSize packet)) 0 2 os with
  | (out1, ev1, SendDone os1) =>
      match sendto_loop fd (htons (Packet.getType packet)) 0 2 os1 with
      | (out2, ev2, SendDone os2) =>
          let '(out3, ev3, r) :=
            sendto_loop fd (Packet.getData packet) 0
              (Z.of_nat (length (Packet.getData packet))) os2 in
          (out1 ++ out2 ++ out3, ev1 ++ ev2 ++ ev3, r)
      | (out2, ev2, r) => (out1 ++ out2, ev1 ++ ev2, r)
      end
  | r => r
  end.

End UdpSocket.

(** ** Selector.hpp *)

Module Selector.

Definition fd_set : Type := Z -> bool.
Definition FD_ZERO : fd_set := fun _ => false.
Definition FD_SET (fd : Z) (s : fd_set) : fd_set :=
  fun x => if x =? fd then true else s x.
Definition FD_CLR (fd : Z) (s : fd_set) : fd_set :=
  fun x => if x =? fd then false else s x.
Definition FD_ISSET (fd : Z) (s : fd_set) : bool := s fd.

(** The caller's [std::vector<Socket*>] objects, by address; two of the
    three pointers handed to the selector may be the same address. *)
Definition vectors : Type := nat -> list Socket.t.
Definition vec_clear (a : nat) (vs : vectors) : vectors :=
  fun x => if Nat.eqb x a then [] else vs x.
Definition vec_push_back (a : nat) (i : Socket.t) (vs : vectors) : vectors :=
  fun x => if Nat.eqb x a then vs x ++ [i] else vs x.

Record t : Type := mk {
  mSockets : list Socket.t;
  mWritable : option nat;
  mReadable : option nat;
  mFaulty : option nat;
  mFdSockets : fd_set;
  mFdWritable : fd_set;
  mFdReadable : fd_set;
  mFdFaulty : fd_set;
  mFdWritablePointer : bool;    (* [true] for [&mFdWritable], [false] for [nullptr] *)
  mFdReadablePointer : bool;
  mFdFaultyPointer : bool;
  mTimeout : Z * Z;
  mSocketsMax : Z
}.

(** [array != nullptr] *)
Definition non_null (array : option nat) : bool :=
  match array with Some _ => true | None => false end.

(** [void setWritable(std::vector<Socket*>* array)] *)
Definition setWritable (array : option nat) (s : t) : t :=
  mk (mSockets s) array (mReadable s) (mFaulty s)
     (mFdSockets s) (mFdWritable s) (mFdReadable s) (mFdFaulty s)
     (non_null array)
     (mFdReadablePointer s) (mFdFaultyPointer s) (mTimeout s) (mSocketsMax s).

(** [void setReadable(std::vector<Socket*>* array)] *)
Definition setReadable (array : option nat) (s : t) : t :=
  mk (mSockets s) (mWritable s) array (mFaulty s)
     (mFdSockets s) (mFdWritable s) (mFdReadable s) (mFdFaulty s)
     (mFdWritablePointer s)
     (non_null array)
     (mFdFaultyPointer s) (mTimeout s) (mSocketsMax s).

(** [void setFaulty(std::vector<Socket*>* array)] *)
Definition setFaulty (array : option nat) (s : t) : t :=
  mk (mSockets s) (mWritable s) (mReadable s) array
     (mFdSockets s) (mFdWritable s) (mFdReadable s) (mFdFaulty s)
     (mFdWritablePointer s) (mFdReadablePointer s)
     (non_null array)
     (mTimeout s) (mSocketsMax s).

(** [Selector(readable, writable, faulty)] *)
Definition Selector (readable writable faulty : option nat) : t :=
  setFaulty faulty (setReadable readable (setWritable writable
    (mk [] None None None FD_ZERO FD_ZERO FD_ZERO FD_ZERO
        false false false (0, 0) 0))).

(** [a] is one of the output collections the selector was given. *)
Definition enabled (s : t) (a : nat) : Prop :=
  mReadable s = Some a \/ mWritable s = Some a \/ mFaulty s = Some a.

(** The constructor and the three setters keep each [fd_set] pointer null
    exactly when the matching collection pointer is. *)
Definition consistent (s : t) : Prop :=
  mFdWritablePointer s = non_null (mWritable s)
  /\ mFdReadablePointer s = non_null (mReadable s)
  /\ mFdFaultyPointer s = non_null (mFaulty s).

(** [void clearTemp()] *)
Definition clearTemp (s : t) (vs : vectors) : vectors :=
  let vs1 := match mWritable s with Some a => vec_clear a vs | None => vs end in
  let vs2 := match mReadable s with Some a => vec_clear a vs1 | None => vs1 end in
  match mFaulty s with Some a => vec_clear a vs2 | None => vs2 end.

(** What [::select] answers: its return value, the three sets as it
    leaves them (a set passed as [nullptr] is not touched) and the
    [timeval] as it leaves it (on Linux, the time not slept). *)
Record select_answer : Type := mkAnswer {
  ans_ret : Z;
  ans_readable : fd_set;
  ans_writable : fd_set;
  ans_faulty : fd_set;
  ans_timeout : Z * Z
}.

(** [mArray->clear(); for(auto& i : mSockets) if(FD_ISSET(...)) mArray->push_back(i);] *)
Definition refill (array : option nat) (set : fd_set) (socks : list Socket.t)
    (vs : vectors) : outcome vectors :=
  match array with
  | None => Fault
  | Some a =>
      Done (fold_left
              (fun v i => if FD_ISSET (Socket.getSocket i) set
                          then vec_push_back a i v else v)
              socks (vec_clear a vs))
  end.

Section OS.
(** [::select(nfds, readfds, writefds, exceptfds, timeout)] *)
Variable select :
  Z -> option fd_set -> option fd_set -> option fd_set -> Z * Z -> select_answer.

(** [int update()] *)
Definition update (s : t) (vs : vectors)
  : outcome (Z * t * vectors) * list Event :=
  if mFdReadablePointer s || mFdWritablePointer s || mFdFaultyPointer s then
    let nfds := mSocketsMax s + 1 in
    let a := select nfds
               (if mFdReadablePointer s then Some (mFdSockets s) else None)
               (if mFdWritablePointer s then Some (mFdSockets s) else None)
               (if mFdFaultyPointer s then Some (mFdSockets s) else None)
               (mTimeout s) in
    let s' :=
      mk (mSockets s) (mWritable s) (mReadable s) (mFaulty s) (mFdSockets s)
         (if mFdWritablePointer s then ans_writable a else mFdSockets s)
         (if mFdReadablePointer s then ans_readable a else mFdSockets s)
         (if mFdFaultyPointer s then ans_faulty a else mFdSockets s)
         (mFdWritablePointer s) (mFdReadablePointer s) (mFdFaultyPointer s)
         (ans_timeout a) (mSocketsMax s) in
    let selectError := ans_ret a in
    if selectError <=? 0 then
      (Done (selectError, s', clearTemp s' vs), [EvSelect nfds])
    else
      (vs1 ← (if mFdWritablePointer s'
              then refill (mWritable s') (mFdWritable s') (mSockets s') vs
              else Done vs);
       vs2 ← (if mFdReadablePointer s'
              then refill (mReadable s') (mFdReadable s') (mSockets s') vs1
              else Done vs1);
       vs3 ← (if mFdFaultyPointer s'
              then refill (mFaulty s') (mFdFaulty s') (mSockets s') vs2
              else Done vs2);
       mret (selectError, s', vs3), [EvSelect nfds])
  else
    (Done (-2, s, vs), []).
End OS.

(** [template<typename SocketType> void add(SocketType& sock)] *)
Definition add (sock : Socket.t) (s : t) : t :=
  mk (mSockets s ++ [sock]) (mWritable s) (mReadable s) (mFaulty s)
     (FD_SET (Socket.getSocket sock) (mFdSockets s))
     (mFdWritable s) (mFdReadable s) (mFdFaulty s)
     (mFdWritablePointer s) (mFdReadablePointer s) (mFdFaultyPointer s)
     (mTimeout s)
     (if mSocketsMax s <? Socket.getSocket sock
      then Socket.getSocket sock else mSocketsMax s).

(** The first loop of [remove]: erase the first tracked socket equal to
    [sock], zeroing [mSocketsMax] when that socket holds it. *)
Fixpoint erase_first (sock : Socket.t) (l : list Socket.t) (socketsMax : Z)
  : list Socket.t * Z :=
  match l with
  | [] => ([], socketsMax)
  | i :: l' =>
      if Socket.eqb i sock then
        (l', if Socket.getSocket i =? socketsMax then 0 else socketsMax)
      else
        let '(l'', m) := erase_first sock l' socketsMax in (i :: l'', m)
  end.

(** [for(auto& i : mSockets) if(i->getSocket() > mSocketsMax) mSocketsMax = i->getSocket();] *)
Definition rescan (l : list Socket.t) (socketsMax : Z) : Z :=
  fold_left (fun m i => if m <? Socket.getSocket i then Socket.getSocket i else m)
            l socketsMax.

(** [void remove(Socket& sock)] *)
Definition remove (sock : Socket.t) (s : t) : t :=
  let '(l, m) := erase_first sock (mSockets s) (mSocketsMax s) in
  mk l (mWritable s) (mReadable s) (mFaulty s)
     (FD_CLR (Socket.getSocket sock) (mFdSockets s))
     (mFdWritable s) (mFdReadable s) (mFdFaulty s)
     (mFdWritablePointer s) (mFdReadablePointer s) (mFdFaultyPointer s)
     (mTimeout s)
     (if m =? 0 then rescan l m else m).

(** A step of a caller that only adds and removes. *)
Inductive op : Type :=
  | Add (sock : Socket.t)
  | Remove (sock : Socket.t).

Definition op_socket (o : op) : Socket.t :=
  match o with Add s | Remove s => s end.

(** Descriptors the OS hands out are not negative. *)
Definition adds_descriptor (o : op) : Prop :=
  match o with
  | Add sock => 0 <= Socket.getSocket sock
  | Remove _ => True
  end.

Definition step (s : t) (o : op) : t :=
  match o with
  | Add sock => add sock s
  | Remove sock => remove sock s
  end.

Definition run (ops : list op) (s : t) : t := fold_left step ops s.

(** The maximum descriptor among the tracked sockets, 0 when there is none. *)
Definition max_descriptor (l : list Socket.t) : Z :=
  fold_right Z.max 0 (map Socket.getSocket l).

(** [void removeAll()]; the second component is the caller's vectors after
    [clearTemp()]. *)
Definition removeAll (s : t) (vs : vectors) : t * vectors :=
  (mk [] (mWritable s) (mReadable s) (mFaulty s)
      FD_ZERO FD_ZERO FD_ZERO FD_ZERO
      (mFdWritablePointer s) (mFdReadablePointer s) (mFdFaultyPointer s)
      (mTimeout s) (mSocketsMax s),
   clearTemp s vs).

(** [std::vector<Socket*> getAll()] *)
Definition getAll (s : t) : list Socket.t :=
  fold_left (fun temp i => temp ++ [i]) (mSockets s) [].

(** [void setTimeout(const int& sec, const int& usec)] *)
Definition setTimeout (sec usec : Z) (s : t) : t :=
  mk (mSockets s) (mWritable s) (mReadable s) (mFaulty s)
     (mFdSockets s) (mFdWritable s) (mFdReadable s) (mFdFaulty s)
     (mFdWritablePointer s) (mFdReadablePointer s) (mFdFaultyPointer s)
     (sec, usec) (mSocketsMax s).

(** The call [update] makes to [::select], and its answer. *)
Definition query
    (select : Z -> option fd_set -> option fd_set -> option fd_set -> Z * Z
              -> select_answer) (s : t) : select_answer :=
  select (mSocketsMax s + 1)
    (if mFdReadablePointer s then Some (mFdSockets s) else None)
    (if mFdWritablePointer s then Some (mFdSockets s) else None)
    (if mFdFaultyPointer s then Some (mFdSockets s) else None)
    (mTimeout s).

(** The sockets of [socks] whose descriptor is in [set], in their order. *)
Definition flagged (set : fd_set) (socks : list Socket.t) : list Socket.t :=
  List.filter (fun i => FD_ISSET (Socket.getSocket i) set) socks.

(** The descriptors of the tracked sockets. *)
Definition descriptors (s : t) : list Z := map Socket.getSocket (mSockets s).

(** The specification's side of [add] and [remove], written from its words
    and not from the code, on the descriptors alone: the endpoints tracked
    after a sequence of operations, in insertion order. An added endpoint
    is tracked; a removal releases the tracked copy with the matching
    descriptor (the first one, when several have it). *)
Fixpoint spec_release (fd : Z) (tracked : list Z) : list Z :=
  match tracked with
  | [] => []
  | x :: rest => if x =? fd then rest else x :: spec_release fd rest
  end.

Definition spec_step (tracked : list Z) (o : op) : list Z :=
  match o with
  | Add sock => tracked ++ [Socket.getSocket sock]
  | Remove sock => spec_release (Socket.getSocket sock) tracked
  end.

Definition spec_tracked (ops : list op) : list Z := fold_left spec_step ops [].

(** The specification's [highestDescriptor]: the maximum descriptor among
    the tracked endpoints, or 0 if there is none. *)
Definition spec_highest (tracked : list Z) : Z :=
  match tracked with
  | [] => 0
  | x :: rest => fold_right Z.max x rest
  end.

(** No [Add] of a descriptor that is tracked at that moment. *)
Fixpoint fresh_adds (ops : list op) (s : t) : Prop :=
  match ops with
  | [] => True
  | Add sock :: ops' =>
      ~ In (Socket.getSocket sock) (descriptors s)
      /\ fresh_adds ops' (add sock s)
  | Remove sock :: ops' => fresh_adds ops' (remove sock s)
  end.

(** What [add] and [remove] keep true of [mSocketsMax]. *)
Definition tracks_maximum (s : t) : Prop :=
  mSocketsMax s = max_descriptor (mSockets s)
  /\ Forall (fun i => 0 <= Socket.getSocket i) (mSockets s).

End Selector.

(** ** examples.cpp *)

Module Examples.

(** The loop of [server()] and [selector()] after a receive:
    [while(buffer.isPacketStored()) { receivedPacket = buffer.getPacket(); ... }],
    with the packets it takes, in the order it takes them. *)
Fixpoint take_packets (fuel : nat) (buffer : PacketBuffer.t)
  : outcome (list Packet.t * PacketBuffer.t) :=
  match fuel with
  | O => OutOfFuel
  | S fuel' =>
      if PacketBuffer.isPacketsStored buffer then
        r ← PacketBuffer.getPacket buffer;
        rs ← take_packets fuel' (snd r);
        mret (fst r :: fst rs, snd rs)
      else mret ([], buffer)
  end.

End Examples.

(** * Properties *)

(** ** Bytes and 16-bit fields *)

Lemma byte_to_Z_range (b : byte) : 0 <= byte_to_Z b < 256.
Proof.
  unfold byte_to_Z. pose proof (Byte.to_N_bounded b). lia.
Qed.

Lemma byte_to_of_Z (z : Z) : byte_to_Z (byte_of_Z z) = z mod 256.
Proof.
  unfold byte_to_Z, byte_of_Z.
  pose proof (Z.mod_pos_bound z 256 ltac:(lia)) as Hm.
  destruct (Byte.of_N (Z.to_N (z mod 256))) as [b|] eqn:E.
  - apply Byte.to_of_N in E. rewrite E. lia.
  - apply Byte.of_N_None_iff in E. lia.
Qed.

Lemma ntohs_range (b0 b1 : byte) : 0 <= ntohs b0 b1 < 65536.
Proof.
  unfold ntohs.
  pose proof (byte_to_Z_range b0). pose proof (byte_to_Z_range b1). lia.
Qed.

Lemma ntohs_htons (v : Z) :
  0 <= v < 65536 -> ntohs (byte_of_Z (v / 256)) (byte_of_Z v) = v.
Proof.
  intros Hv. unfold ntohs. rewrite !byte_to_of_Z.
  rewrite (Z.mod_small (v / 256)) by (split; [apply Z.div_pos; lia | apply Z.div_lt_upper_bound; lia]).
  pose proof (Z.div_mod v 256 ltac:(lia)). lia.
Qed.

Lemma uint16_wrap_small (z : Z) : 0 <= z < 65536 -> uint16_wrap z = z.
Proof. intros H. unfold uint16_wrap. apply Z.mod_small. lia. Qed.

Lemma size_t_wrap_small (z : Z) : 0 <= z < 2 ^ 64 -> size_t_wrap z = z.
Proof. intros H. unfold size_t_wrap. apply Z.mod_small. lia. Qed.

(** ** Packet construction *)

Lemma Packet_accepts maxSize EMPTY type (data : list byte) :
  4 <= maxSize <= 65535 -> type <> EMPTY ->
  Z.of_nat (length data) <= maxSize - 4 ->
  Packet.Packet maxSize EMPTY type data
  = (Packet.mk type (Z.of_nat (length data) + 4) data, []).
Proof.
  intros Hm Ht Hl. unfold Packet.Packet.
  destruct (Z.eqb_spec type EMPTY) as [|_]; [contradiction|].
  change (2 * 2) with 4.
  rewrite size_t_wrap_small by lia.
  destruct (Z.ltb_spec (maxSize - 4) (Z.of_nat (length data))); [lia|].
  rewrite uint16_wrap_small by lia. reflexivity.
Qed.

Lemma valid_mk maxSize EMPTY type (data : list byte) :
  4 <= maxSize <= 65535 -> 0 <= type < 65536 -> type <> EMPTY ->
  Z.of_nat (length data) <= maxSize - 4 ->
  Packet.valid maxSize EMPTY (Packet.mk type (Z.of_nat (length data) + 4) data).
Proof.
  intros Hm Hr Ht Hl. split; [exact Hr |].
  cbn [Packet.mType Packet.mData]. apply Packet_accepts; assumption.
Qed.

(** C5, as the code has it. With [maxSize] among the [uint16_t] values
    that leave room for a packet at all (a header alone takes 4 bytes), a
    payload longer than [maxSize - 4] (in particular of length
    [maxSize - 4 + 1]) and a type other than [EMPTY_PACKET_TYPE] give the
    canonical empty packet (type [EMPTY_PACKET_TYPE], size 4, no data) and
    exactly one call of the error callback, with [ERROR_PACKET_TOO_BIG]; a
    payload of length exactly [maxSize - 4] is kept and nothing is
    reported. *)
Theorem Packet_oversize_rejected maxSize EMPTY type (data : list byte) :
  4 <= maxSize <= 65535 -> type <> EMPTY ->
  (maxSize - 4 < Z.of_nat (length data) ->
     Packet.Packet maxSize EMPTY type data
     = (Packet.mk EMPTY 4 [], [EvCommonError ERROR_PACKET_TOO_BIG]))
  /\ (Z.of_nat (length data) = maxSize - 4 + 1 ->
     Packet.Packet maxSize EMPTY type data
     = (Packet.mk EMPTY 4 [], [EvCommonError ERROR_PACKET_TOO_BIG]))
  /\ (Z.of_nat (length data) = maxSize - 4 ->
     Packet.Packet maxSize EMPTY type data
     = (Packet.mk type maxSize data, [])).
Proof.
  intros Hm Ht.
  assert (Hbig : maxSize - 4 < Z.of_nat (length data) ->
     Packet.Packet maxSize EMPTY type data
     = (Packet.mk EMPTY 4 [], [EvCommonError ERROR_PACKET_TOO_BIG])).
  { intros Hl. unfold Packet.Packet.
    destruct (Z.eqb_spec type EMPTY) as [|_]; [contradiction|].
    change (2 * 2) with 4.
    rewrite size_t_wrap_small by lia.
    destruct (Z.ltb_spec (maxSize - 4) (Z.of_nat (length data))); [|lia].
    reflexivity. }
  split; [exact Hbig|]. split.
  - intros Hl. apply Hbig. lia.
  - intros Hl. rewrite Packet_accepts by lia. f_equal. f_equal. lia.
Qed.

Lemma Packet_oversize_rejected_witness :
  Packet.Packet 16 65535 7 (replicate 13 x41)
    = (Packet.mk 65535 4 [], [EvCommonError ERROR_PACKET_TOO_BIG])
  /\ Packet.Packet 16 65535 7 (replicate 12 x41)
    = (Packet.mk 7 16 (replicate 12 x41), []).
Proof.
  destruct (Packet_oversize_rejected 16 65535 7 (replicate 13 x41))
    as [_ [H1 _]]; [lia | lia |].
  destruct (Packet_oversize_rejected 16 65535 7 (replicate 12 x41))
    as [_ [_ H2]]; [lia | lia |].
  split; [apply H1 | apply H2]; reflexivity.
Defined.

(** C5, as stated, fails when [maxSize] is below the 4 header bytes: the
    bound [maxSize - 2 * sizeof(uint16_t)] is computed in [size_t]. With
    [maxSize = 3], a payload of length [maxSize - 4 + 1 = 0] and type 7 is
    kept, as a packet of size 4, and nothing is reported. *)
Lemma Packet_oversize_kept_below_header :
  let maxSize := 3 in
  let EMPTY := Packet.default_EMPTY_PACKET_TYPE in
  let data : list byte := [] in
  7 <> EMPTY
  /\ Z.of_nat (length data) = maxSize - 4 + 1
  /\ maxSize - 4 < Z.of_nat (length data)
  /\ Packet.Packet maxSize EMPTY 7 data = (Packet.mk 7 4 [], [])
  /\ Packet.Packet maxSize EMPTY 7 data
     <> (Packet.mk EMPTY 4 [], [EvCommonError ERROR_PACKET_TOO_BIG]).
Proof.
  intros maxSize EMPTY data.
  split; [discriminate |]. split; [reflexivity |]. split; [reflexivity |].
  assert (E : Packet.Packet maxSize EMPTY 7 data = (Packet.mk 7 4 [], []))
    by (vm_compute; reflexivity).
  split; [exact E |]. rewrite E. discriminate.
Qed.

(** ** PacketBuffer construction *)

(** C6, as the code has it. Below [Packet::maxSize] the constructor leaves
    [mBuffer == nullptr] and [getSize() == 0]; from [Packet::maxSize] on it
    allocates exactly [size] bytes with none stored. In both cases it
    reports nothing: the null buffer is the only signal. *)
Theorem PacketBuffer_ctor_contract maxSize (fresh : nat -> byte) (size : Z) :
  (size < maxSize ->
     PacketBuffer.PacketBuffer maxSize fresh size
     = (PacketBuffer.mk None 0 0 [], []))
  /\ (maxSize <= size ->
     exists mem,
       PacketBuffer.PacketBuffer maxSize fresh size
       = (PacketBuffer.mk (Some mem) size 0 [], [])
       /\ length mem = Z.to_nat size).
Proof.
  unfold PacketBuffer.PacketBuffer. split; intros H.
  - destruct (Z.leb_spec maxSize size); [lia | reflexivity].
  - destruct (Z.leb_spec maxSize size); [| lia].
    eexists. split; [reflexivity |].
    rewrite length_map, length_seq. reflexivity.
Qed.

Lemma PacketBuffer_ctor_contract_witness :
  PacketBuffer.PacketBuffer 8 (fun _ => x00) 7
    = (PacketBuffer.mk None 0 0 [], [])
  /\ exists mem,
       PacketBuffer.PacketBuffer 8 (fun _ => x00) 16
       = (PacketBuffer.mk (Some mem) 16 0 [], [])
       /\ length mem = Z.to_nat 16.
Proof.
  split.
  - apply (PacketBuffer_ctor_contract 8 (fun _ => x00) 7). lia.
  - apply (PacketBuffer_ctor_contract 8 (fun _ => x00) 16). lia.
Defined.

(** C6, as stated, fails: a default-configured library asked for a
    100-byte buffer reports no error at all. *)
Lemma PacketBuffer_ctor_reports_nothing :
  ~ exists e,
      In e (snd (PacketBuffer.PacketBuffer Packet.default_maxSize (fun _ => x00) 100))
      /\ is_error_report e = true.
Proof.
  intros [e [Hin _]]. exact Hin.
Qed.

(** ** Memory accesses *)

Lemma peek_in_range (buf : list byte) (i : Z) :
  0 <= i < Z.of_nat (length buf) ->
  exists b, PacketBuffer.peek buf i = Done b /\ buf !! Z.to_nat i = Some b.
Proof.
  intros Hi. unfold PacketBuffer.peek.
  destruct (Z.ltb_spec i 0); [lia |].
  destruct (buf !! Z.to_nat i) as [b|] eqn:E.
  - eauto.
  - apply lookup_ge_None in E. lia.
Qed.

Lemma poke_in_range (buf : list byte) (i : Z) (b : byte) :
  0 <= i < Z.of_nat (length buf) ->
  PacketBuffer.poke buf i b = Done (<[Z.to_nat i := b]> buf).
Proof.
  intros Hi. unfold PacketBuffer.poke.
  destruct (Z.leb_spec 0 i); [| lia].
  destruct (Z.ltb_spec i (Z.of_nat (length buf))); [| lia].
  reflexivity.
Qed.

Lemma poke_negative (buf : list byte) (i : Z) (b : byte) :
  i < 0 -> PacketBuffer.poke buf i b = Fault.
Proof.
  intros Hi. unfold PacketBuffer.poke.
  destruct (Z.leb_spec 0 i); [lia | reflexivity].
Qed.

(** ** The extraction loop below its thresholds *)

Lemma build_loop_short maxSize EMPTY fuel n buf stored q ev :
  stored < 2 ->
  PacketBuffer.build_loop maxSize EMPTY fuel n buf stored q ev
  = Done (buf, stored, q, ev).
Proof.
  intros H. destruct fuel; simpl;
    destruct (Z.ltb_spec stored 2); (lia || reflexivity).
Qed.

Lemma build_loop_incomplete maxSize EMPTY fuel n b0 b1 rest stored q ev :
  2 <= stored < ntohs b0 b1 ->
  PacketBuffer.build_loop maxSize EMPTY (S fuel) n (b0 :: b1 :: rest) stored q ev
  = Done (b0 :: b1 :: rest, stored, q, ev).
Proof.
  intros H. simpl.
  destruct (Z.ltb_spec stored 2); [lia |].
  destruct (Z.leb_spec (ntohs b0 b1) stored); [lia | reflexivity].
Qed.

(** C4, as the code has it. The loop runs while at least
    [sizeof(uint16_t) = 2] bytes are stored: with fewer than 2 it stops at
    once; with 2 or 3 stored bytes it reads the length field, and when that
    field announces at least 4 bytes no packet is built and buffer, count
    and queue are as [buildPackets] found them. *)
Theorem buildPackets_below_header maxSize EMPTY fuel n (pb : PacketBuffer.t) :
  let stored := size_t_wrap (PacketBuffer.mCurrentlyStoredBytes pb + n) in
  (stored < 2 ->
     PacketBuffer.buildPackets maxSize EMPTY fuel n pb
     = Done (PacketBuffer.mk (PacketBuffer.mBuffer pb) (PacketBuffer.mSize pb)
               stored (PacketBuffer.mStoredPackets pb), []))
  /\ (forall b0 b1 rest,
        2 <= stored <= 3 ->
        PacketBuffer.mBuffer pb = Some (b0 :: b1 :: rest) ->
        4 <= ntohs b0 b1 ->
        PacketBuffer.buildPackets maxSize EMPTY (S fuel) n pb
        = Done (PacketBuffer.mk (PacketBuffer.mBuffer pb) (PacketBuffer.mSize pb)
                  stored (PacketBuffer.mStoredPackets pb), [])).
Proof.
  intros stored. split.
  - intros H. unfold PacketBuffer.buildPackets. fold stored.
    destruct (PacketBuffer.mBuffer pb) as [buf|].
    + rewrite build_loop_short by exact H. reflexivity.
    + destruct (Z.ltb_spec stored 2); [reflexivity | lia].
  - intros b0 b1 rest Hs Hb Hl. unfold PacketBuffer.buildPackets. fold stored.
    rewrite Hb. rewrite build_loop_incomplete by lia. reflexivity.
Qed.

Lemma buildPackets_below_header_witness :
  PacketBuffer.buildPackets 65535 65535 1 1
    (PacketBuffer.mk (Some [x00; x08; x00; x00; x00; x00; x00; x00]) 8 0 [])
  = Done (PacketBuffer.mk (Some [x00; x08; x00; x00; x00; x00; x00; x00]) 8 1 [], [])
  /\ PacketBuffer.buildPackets 65535 65535 1 3
    (PacketBuffer.mk (Some [x00; x08; x00; x00; x00; x00; x00; x00]) 8 0 [])
  = Done (PacketBuffer.mk (Some [x00; x08; x00; x00; x00; x00; x00; x00]) 8 3 [], []).
Proof.
  split.
  - apply (buildPackets_below_header 65535 65535 1 1
             (PacketBuffer.mk (Some [x00; x08; x00; x00; x00; x00; x00; x00]) 8 0 [])).
    vm_compute. reflexivity.
  - apply (buildPackets_below_header 65535 65535 0 3
             (PacketBuffer.mk (Some [x00; x08; x00; x00; x00; x00; x00; x00]) 8 0 [])
             ) with (b0 := x00) (b1 := x08) (rest := [x00; x00; x00; x00; x00; x00]).
    + vm_compute. split; discriminate.
    + reflexivity.
    + vm_compute. discriminate.
Defined.

(** C4, as stated, fails: two stored bytes [00 02] announce a 2-byte
    packet, so with exactly 2 stored bytes a packet is built (its type read
    from the two bytes behind the stored ones) and the stored bytes are
    consumed. *)
Lemma buildPackets_two_bytes_build_a_packet :
  match
    PacketBuffer.buildPackets Packet.default_maxSize Packet.default_EMPTY_PACKET_TYPE 1 2
      (PacketBuffer.mk (Some (x00 :: x02 :: replicate (Z.to_nat 65533) x00)) 65535 0 [])
  with
  | Done (pb', ev) =>
      PacketBuffer.mStoredPackets pb' = [Packet.mk 0 4 []]
      /\ PacketBuffer.mCurrentlyStoredBytes pb' = 0
  | _ => False
  end.
Proof.
  vm_compute. split; reflexivity.
Qed.

(** ** A length field of zero *)

Lemma uint16_wrap_range (z : Z) : 0 <= uint16_wrap z < 65536.
Proof. unfold uint16_wrap. apply Z.mod_pos_bound. lia. Qed.

(** With [packetSize = 0] every pass of the shift loop copies a byte onto
    itself: the loop either hands the block back untouched or is still
    running when the fuel is gone. *)
Lemma shift_loop_zero (n : nat) (buf : list byte) (stored i : Z) :
  0 <= i -> stored <= Z.of_nat (length buf) ->
  PacketBuffer.shift_loop n buf 0 stored i = Done buf
  \/ PacketBuffer.shift_loop n buf 0 stored i = OutOfFuel.
Proof.
  revert i. induction n as [|n IH]; intros i Hi Hs; simpl.
  - destruct (i <? stored); auto.
  - destruct (Z.ltb_spec i stored); [| auto].
    destruct (peek_in_range buf i) as [b [Hp Hl]]; [lia |].
    rewrite Hp. simpl. rewrite Z.sub_0_r.
    rewrite poke_in_range by lia. simpl.
    rewrite list_insert_id by exact Hl.
    apply IH; [apply uint16_wrap_range | exact Hs].
Qed.

Lemma build_loop_zero_length maxSize EMPTY (fuel n : nat) b2 b3 rest stored q ev :
  2 <= stored <= Z.of_nat (length (x00 :: x00 :: b2 :: b3 :: rest)) ->
  PacketBuffer.build_loop maxSize EMPTY fuel n
    (x00 :: x00 :: b2 :: b3 :: rest) stored q ev = OutOfFuel.
Proof.
  intros Hs. revert q ev. induction fuel as [|fuel IH]; intros q ev.
  - simpl. destruct (Z.ltb_spec stored 2); [lia | reflexivity].
  - cbn [PacketBuffer.build_loop].
    destruct (Z.ltb_spec stored 2); [lia |].
    change (PacketBuffer.peek (x00 :: x00 :: b2 :: b3 :: rest) 0) with (Done x00).
    change (PacketBuffer.peek (x00 :: x00 :: b2 :: b3 :: rest) 1) with (Done x00).
    change (PacketBuffer.peek (x00 :: x00 :: b2 :: b3 :: rest) 2) with (Done b2).
    change (PacketBuffer.peek (x00 :: x00 :: b2 :: b3 :: rest) 3) with (Done b3).
    cbn [mbind outcome_bind]. change (ntohs x00 x00) with 0.
    destruct (Z.leb_spec 0 stored); [| lia].
    change (Z.to_nat (0 - 2 * 2)) with 0%nat.
    cbn [PacketBuffer.read_data mbind outcome_bind].
    destruct (Packet.Packet maxSize EMPTY (ntohs b2 b3) []) as [p e].
    destruct (shift_loop_zero n (x00 :: x00 :: b2 :: b3 :: rest) stored 0)
      as [E | E]; [lia | lia | |]; rewrite E; cbn [mbind outcome_bind].
    + rewrite Z.sub_0_r. unfold PacketBuffer.memset0.
      change (0 <=? 0) with true. cbn [mbind outcome_bind]. apply IH.
    + reflexivity.
Qed.

(** C10 at its failing input. A default buffer whose first two bytes, just
    read from the peer, are [00 00]: the announced length is 0, each pass
    queues one more empty packet and removes nothing, and no amount of fuel
    lets [buildPackets] come back. *)
Theorem buildPackets_zero_length_never_returns (fuel : nat) :
  PacketBuffer.buildPackets Packet.default_maxSize Packet.default_EMPTY_PACKET_TYPE
    fuel 2
    (PacketBuffer.mk
       (Some (x00 :: x00 :: x00 :: x00 :: replicate (Z.to_nat 65531) x00))
       65535 0 [])
  = OutOfFuel.
Proof.
  unfold PacketBuffer.buildPackets.
  cbn [PacketBuffer.mBuffer PacketBuffer.mCurrentlyStoredBytes].
  change (size_t_wrap (0 + 2)) with 2.
  rewrite build_loop_zero_length; [reflexivity |].
  cbn [length]. rewrite length_replicate. lia.
Qed.

(** ** One pass of the extraction loop *)

Lemma peek_lookup (buf : list byte) (i : Z) (b : byte) :
  0 <= i -> buf !! Z.to_nat i = Some b -> PacketBuffer.peek buf i = Done b.
Proof.
  intros Hi Hl. unfold PacketBuffer.peek.
  destruct (Z.ltb_spec i 0); [lia |]. rewrite Hl. reflexivity.
Qed.

Lemma read_data_spec (n : nat) (buf : list byte) (i : Z) :
  0 <= i -> i + Z.of_nat n <= Z.of_nat (length buf) ->
  PacketBuffer.read_data buf i n = Done (take n (drop (Z.to_nat i) buf)).
Proof.
  revert i. induction n as [|n IH]; intros i Hi Hn.
  - simpl. rewrite take_0. reflexivity.
  - cbn [PacketBuffer.read_data].
    destruct (peek_in_range buf i) as [b [Hp Hl]]; [lia |].
    rewrite Hp. cbn [mbind outcome_bind].
    rewrite IH by lia. cbn [mbind outcome_bind mret outcome_ret].
    rewrite (drop_S _ _ _ Hl). cbn [take].
    replace (Z.to_nat (i + 1)) with (S (Z.to_nat i)) by lia. reflexivity.
Qed.

(** The shift loop while the counter cannot wrap: bytes
    [[i, stored)] move down by [packetSize], the rest stays. *)
Lemma shift_loop_spec (n : nat) (buf : list byte) (packetSize stored i : Z) :
  0 <= packetSize <= i -> i <= stored -> stored <= 65535 ->
  stored <= Z.of_nat (length buf) ->
  (Z.to_nat (stored - i) <= n)%nat ->
  exists buf',
    PacketBuffer.shift_loop n buf packetSize stored i = Done buf'
    /\ length buf' = length buf
    /\ forall k : nat,
         buf' !! k =
         if decide (i - packetSize <= Z.of_nat k < stored - packetSize)
         then buf !! (k + Z.to_nat packetSize)%nat
         else buf !! k.
Proof.
  revert buf i. induction n as [|n IH]; intros buf i Hp Hi Hs Hl Hn.
  - assert (i = stored) as -> by lia. simpl.
    destruct (Z.ltb_spec stored stored); [lia |].
    exists buf. split; [reflexivity |]. split; [reflexivity |].
    intros k. destruct (decide _); [lia | reflexivity].
  - cbn [PacketBuffer.shift_loop].
    destruct (Z.ltb_spec i stored) as [Hlt | Hge].
    + destruct (peek_in_range buf i) as [b [Hpk Hlk]]; [lia |].
      rewrite Hpk. cbn [mbind outcome_bind].
      rewrite poke_in_range by lia. cbn [mbind outcome_bind].
      rewrite uint16_wrap_small by lia.
      destruct (IH (<[Z.to_nat (i - packetSize) := b]> buf) (i + 1))
        as [buf' [E [Hlen Hk]]]; try lia.
      { rewrite length_insert. lia. }
      exists buf'. split; [exact E |]. split.
      { rewrite Hlen. apply length_insert. }
      intros k. rewrite Hk.
      destruct (decide (i + 1 - packetSize <= Z.of_nat k < stored - packetSize)).
      * destruct (decide _); [| lia].
        apply list_lookup_insert_ne. lia.
      * destruct (decide (i - packetSize <= Z.of_nat k < stored - packetSize)).
        -- assert (k = Z.to_nat (i - packetSize)) as -> by lia.
           rewrite list_lookup_insert_eq by lia.
           rewrite <- Hlk. f_equal. lia.
        -- apply list_lookup_insert_ne. lia.
    + assert (i = stored) as -> by lia.
      exists buf. split; [reflexivity |]. split; [reflexivity |].
      intros k. destruct (decide _); [lia | reflexivity].
Qed.

Lemma valid_size maxSize EMPTY (m : Packet.t) :
  4 <= maxSize <= 65535 -> Packet.valid maxSize EMPTY m ->
  Packet.mSize m = Z.of_nat (length (Packet.mData m)) + 4
  /\ Packet.mSize m <= maxSize.
Proof.
  intros Hm [Ht Hv]. unfold Packet.Packet in Hv.
  change (2 * 2) with 4 in Hv. rewrite size_t_wrap_small in Hv by lia.
  destruct (Packet.mType m =? EMPTY).
  - injection Hv as <-. simpl. lia.
  - destruct (Z.ltb_spec (maxSize - 4) (Z.of_nat (length (Packet.mData m)))).
    + discriminate Hv.
    + injection Hv as Hv. apply (f_equal Packet.mSize) in Hv.
      cbn [Packet.mSize] in Hv.
      rewrite uint16_wrap_small in Hv by lia. lia.
Qed.

Lemma wire_length maxSize EMPTY (m : Packet.t) :
  4 <= maxSize <= 65535 -> Packet.valid maxSize EMPTY m ->
  Z.of_nat (length (TcpSocket.wire m)) = Packet.mSize m.
Proof.
  intros Hm Hv. destruct (valid_size _ _ _ Hm Hv) as [Hs _].
  unfold TcpSocket.wire. rewrite !length_app. cbn [htons length].
  unfold Packet.getData. lia.
Qed.

Lemma build_loop_step maxSize EMPTY (fuel n : nat) (buf : list byte) stored q ev
    (m : Packet.t) (W : list byte) :
  4 <= maxSize <= 65535 ->
  Packet.valid maxSize EMPTY m ->
  take (Z.to_nat stored) buf = TcpSocket.wire m ++ W ->
  0 <= stored <= 65535 -> stored <= Z.of_nat (length buf) ->
  (length W <= n)%nat ->
  exists buf2,
    length buf2 = length buf
    /\ take (Z.to_nat (stored - Packet.mSize m)) buf2 = W
    /\ stored - Packet.mSize m = Z.of_nat (length W)
    /\ PacketBuffer.build_loop maxSize EMPTY (S fuel) n buf stored q ev
       = PacketBuffer.build_loop maxSize EMPTY fuel n buf2
           (stored - Packet.mSize m) (q ++ [m]) ev.
Proof.
  intros Hm Hv Htake Hs Hl Hn.
  destruct (valid_size _ _ _ Hm Hv) as [Hsz Hmax].
  pose proof (wire_length _ _ _ Hm Hv) as Hwl.
  destruct Hv as [Hty Hv].
  assert (Hlen : stored = Packet.mSize m + Z.of_nat (length W)).
  { apply (f_equal length) in Htake.
    rewrite length_take, length_app in Htake. lia. }
  set (ps := Packet.mSize m) in *.
  assert (Hlk : forall j x, (TcpSocket.wire m ++ W) !! j = Some x -> buf !! j = Some x).
  { intros j x Hj. rewrite <- Htake in Hj.
    apply lookup_take_Some in Hj. tauto. }
  assert (Hw : TcpSocket.wire m
               = byte_of_Z (ps / 256) :: byte_of_Z ps
                 :: byte_of_Z (Packet.mType m / 256) :: byte_of_Z (Packet.mType m)
                 :: Packet.mData m) by reflexivity.
  cbn [PacketBuffer.build_loop].
  destruct (Z.ltb_spec stored 2); [lia |].
  rewrite (peek_lookup buf 0 (byte_of_Z (ps / 256))); [| lia | apply Hlk; rewrite Hw; reflexivity].
  rewrite (peek_lookup buf 1 (byte_of_Z ps)); [| lia | apply Hlk; rewrite Hw; reflexivity].
  rewrite (peek_lookup buf 2 (byte_of_Z (Packet.mType m / 256))); [| lia | apply Hlk; rewrite Hw; reflexivity].
  rewrite (peek_lookup buf 3 (byte_of_Z (Packet.mType m))); [| lia | apply Hlk; rewrite Hw; reflexivity].
  cbn [mbind outcome_bind].
  rewrite !ntohs_htons by lia.
  destruct (Z.leb_spec ps stored); [| lia].
  change (2 * 2) with 4.
  rewrite read_data_spec by lia. cbn [mbind outcome_bind].
  assert (Hdata : take (Z.to_nat (ps - 4)) (drop (Z.to_nat 4) buf) = Packet.mData m).
  { rewrite take_drop_commute.
    replace (Z.to_nat 4 + Z.to_nat (ps - 4))%nat with (Z.to_nat ps) by lia.
    replace (take (Z.to_nat ps) buf)
      with (take (Z.to_nat ps) (take (Z.to_nat stored) buf))
      by (rewrite take_take; f_equal; lia).
    rewrite Htake, take_app_length' by lia.
    rewrite Hw. reflexivity. }
  rewrite Hdata, Hv.
  destruct (shift_loop_spec n buf ps stored ps) as [buf1 [E [Hlen1 Hk1]]]; try lia.
  rewrite E. cbn [mbind outcome_bind].
  assert (Hbuf1 : take (Z.to_nat (stored - ps)) buf1 = W).
  { apply list_eq. intros k.
    destruct (decide (k < Z.to_nat (stored - ps))%nat) as [Hk | Hk].
    - rewrite lookup_take_lt by exact Hk. rewrite Hk1.
      destruct (decide _); [| lia].
      replace (W !! k) with ((TcpSocket.wire m ++ W) !! (k + Z.to_nat ps)%nat).
      + rewrite <- Htake. symmetry. apply lookup_take_lt. lia.
      + rewrite lookup_app_r by lia. f_equal. lia.
    - rewrite lookup_take_ge by lia. symmetry. apply lookup_ge_None. lia. }
  unfold PacketBuffer.memset0.
  destruct (Z.leb_spec ps 0); [lia |].
  destruct (Z.leb_spec 0 (stored - ps)); [| lia].
  destruct (Z.leb_spec (stored - ps + ps) (Z.of_nat (length buf1))); [| lia].
  cbn [andb mbind outcome_bind].
  eexists. split; [| split; [| split; [| rewrite app_nil_r; reflexivity]]].
  - rewrite !length_app, length_take, length_replicate, length_drop. lia.
  - rewrite take_app_length' by (rewrite length_take; lia). exact Hbuf1.
  - lia.
Qed.

(** ** Draining a buffer of at most 65535 stored bytes *)

Lemma build_loop_incomplete_take maxSize EMPTY (fuel n : nat) (buf : list byte)
    stored q ev (P : list byte) :
  PacketBuffer.incomplete P ->
  take (Z.to_nat stored) buf = P -> 0 <= stored <= Z.of_nat (length buf) ->
  PacketBuffer.build_loop maxSize EMPTY (S fuel) n buf stored q ev
  = Done (buf, stored, q, ev).
Proof.
  intros Hinc Htake Hs.
  assert (Hlen : Z.of_nat (length P) = stored).
  { rewrite <- Htake, length_take. lia. }
  destruct (Z.lt_ge_cases stored 2) as [Hlt | Hge].
  - apply build_loop_short. exact Hlt.
  - destruct buf as [|x [|y buf']]; cbn [length] in Hs; try lia.
    replace (Z.to_nat stored) with (S (S (Z.to_nat (stored - 2)))) in Htake by lia.
    cbn [take] in Htake. subst P. cbn [PacketBuffer.incomplete] in Hinc.
    apply build_loop_incomplete. lia.
Qed.

Lemma build_loop_drain maxSize EMPTY (ms : list Packet.t) :
  4 <= maxSize <= 65535 ->
  Forall (Packet.valid maxSize EMPTY) ms ->
  forall (fuel n : nat) (buf : list byte) stored q ev (P : list byte),
    PacketBuffer.incomplete P ->
    take (Z.to_nat stored) buf = concat (map TcpSocket.wire ms) ++ P ->
    0 <= stored <= 65535 -> stored <= Z.of_nat (length buf) ->
    (length ms < fuel)%nat -> (Z.to_nat stored <= n)%nat ->
    exists buf',
      PacketBuffer.build_loop maxSize EMPTY fuel n buf stored q ev
      = Done (buf', Z.of_nat (length P), q ++ ms, ev)
      /\ length buf' = length buf
      /\ take (length P) buf' = P.
Proof.
  intros Hm Hv. induction Hv as [|m ms Hvm Hvms IH];
    intros fuel n buf stored q ev P Hinc Htake Hs Hl Hf Hn.
  - cbn [map concat app] in Htake.
    destruct fuel as [|fuel]; [cbn [length] in Hf; lia |].
    assert (Hlen : Z.of_nat (length P) = stored).
    { rewrite <- Htake, length_take. lia. }
    exists buf. rewrite app_nil_r.
    rewrite (build_loop_incomplete_take _ _ _ _ _ _ _ _ P Hinc Htake) by lia.
    rewrite Hlen. split; [reflexivity |]. split; [reflexivity |].
    rewrite <- Htake at 2. f_equal. lia.
  - cbn [map concat] in Htake. rewrite <- app_assoc in Htake.
    destruct fuel as [|fuel]; [cbn [length] in Hf; lia |].
    cbn [length] in Hf.
    destruct (build_loop_step maxSize EMPTY fuel n buf stored q ev m
                (concat (map TcpSocket.wire ms) ++ P))
      as [buf2 [Hlen2 [Htake2 [Hst2 E]]]]; try assumption.
    { apply (f_equal length) in Htake.
      rewrite length_take, length_app in Htake. lia. }
    pose proof (valid_size _ _ _ Hm Hvm) as [Hsz _].
    destruct (IH fuel n buf2 (stored - Packet.mSize m) (q ++ [m]) ev P)
      as [buf' [E' [Hlen' Htake']]]; try assumption; try lia.
    exists buf'. rewrite E, E', <- app_assoc. cbn [app].
    split; [reflexivity |]. split; [congruence | exact Htake'].
Qed.

Lemma buildPackets_drain maxSize EMPTY (ms : list Packet.t) (P : list byte)
    (buf : list byte) (size stored n : Z) (q : list Packet.t) (fuel : nat) :
  4 <= maxSize <= 65535 ->
  Forall (Packet.valid maxSize EMPTY) ms ->
  PacketBuffer.incomplete P ->
  0 <= stored -> 0 <= n -> stored + n <= 65535 ->
  stored + n <= Z.of_nat (length buf) ->
  take (Z.to_nat (stored + n)) buf = concat (map TcpSocket.wire ms) ++ P ->
  (Z.to_nat (stored + n) <= fuel)%nat -> (length ms < fuel)%nat ->
  exists mem,
    PacketBuffer.buildPackets maxSize EMPTY fuel n
      (PacketBuffer.mk (Some buf) size stored q)
    = Done (PacketBuffer.mk (Some mem) size (Z.of_nat (length P)) (q ++ ms), [])
    /\ length mem = length buf
    /\ take (length P) mem = P.
Proof.
  intros Hm Hv Hinc Hs Hn Hle Hl Htake Hf Hf'.
  unfold PacketBuffer.buildPackets.
  cbn [PacketBuffer.mBuffer PacketBuffer.mCurrentlyStoredBytes
       PacketBuffer.mStoredPackets PacketBuffer.mSize].
  rewrite size_t_wrap_small by lia.
  destruct (build_loop_drain maxSize EMPTY ms Hm Hv fuel fuel buf
              (stored + n) q [] P)
    as [mem [E [Hlen Ht]]]; try assumption; try lia.
  exists mem. rewrite E. cbn [mbind outcome_bind mret outcome_ret].
  split; [reflexivity |]. split; assumption.
Qed.

(** X3. Batching within the reach of the 16-bit counter: any number of
    well-formed packets serialized in a row, followed by the beginning of
    another one, 65535 bytes at most in all, are queued in order by a
    single [buildPackets] call, and the unfinished tail stays stored at
    offset 0. *)
Lemma buildPackets_batch maxSize EMPTY (ms : list Packet.t) (P tail : list byte)
    (size : Z) (q : list Packet.t) (fuel : nat) :
  4 <= maxSize <= 65535 ->
  Forall (Packet.valid maxSize EMPTY) ms ->
  PacketBuffer.incomplete P ->
  let stream := concat (map TcpSocket.wire ms) ++ P in
  Z.of_nat (length stream) <= 65535 ->
  (length stream <= fuel)%nat -> (length ms < fuel)%nat ->
  exists mem,
    PacketBuffer.buildPackets maxSize EMPTY fuel (Z.of_nat (length stream))
      (PacketBuffer.mk (Some (stream ++ tail)) size 0 q)
    = Done (PacketBuffer.mk (Some mem) size (Z.of_nat (length P)) (q ++ ms), [])
    /\ length mem = length (stream ++ tail)
    /\ take (length P) mem = P.
Proof.
  intros Hm Hv Hinc stream Hlen Hf Hf'.
  apply buildPackets_drain; try assumption; try lia.
  - rewrite length_app. lia.
  - rewrite Z.add_0_l, Nat2Z.id. apply take_app_length.
Qed.

(** ** More than 65535 stored bytes *)

(** The counter of the shift loop is a [uint16_t]. Once more than 65535
    bytes are stored it can never reach the bound: after index 65535 it is
    back at 0, and the copy then targets [mBuffer[0 - packetSize]]. *)
Lemma shift_loop_wraps (n : nat) (buf : list byte) (packetSize stored i : Z) :
  0 < packetSize <= i -> i <= 65535 ->
  65535 < stored <= Z.of_nat (length buf) ->
  is_done (PacketBuffer.shift_loop n buf packetSize stored i) = false.
Proof.
  revert buf i. induction n as [|n IH]; intros buf i Hp Hi Hs; simpl.
  - destruct (Z.ltb_spec i stored); [reflexivity | lia].
  - destruct (Z.ltb_spec i stored); [| lia].
    destruct (peek_in_range buf i) as [b [Hb _]]; [lia |].
    rewrite Hb. cbn [mbind outcome_bind].
    rewrite poke_in_range by lia. cbn [mbind outcome_bind].
    destruct (Z.eq_dec i 65535) as [-> | Hne].
    + change (uint16_wrap (65535 + 1)) with 0.
      destruct n as [|n']; simpl.
      * destruct (Z.ltb_spec 0 stored); [reflexivity | lia].
      * destruct (Z.ltb_spec 0 stored); [| lia].
        destruct (peek_in_range (<[Z.to_nat (65535 - packetSize) := b]> buf) 0)
          as [b' [Hb' _]]; [rewrite length_insert; lia |].
        rewrite Hb'. cbn [mbind outcome_bind].
        rewrite poke_negative by lia. reflexivity.
    + rewrite uint16_wrap_small by lia.
      apply IH; [lia | lia | rewrite length_insert; lia].
Qed.

Lemma build_loop_wraps maxSize EMPTY (fuel n : nat) b0 b1 b2 b3 rest stored q ev :
  0 < ntohs b0 b1 ->
  65535 < stored <= Z.of_nat (length (b0 :: b1 :: b2 :: b3 :: rest)) ->
  is_done (PacketBuffer.build_loop maxSize EMPTY fuel n
             (b0 :: b1 :: b2 :: b3 :: rest) stored q ev) = false.
Proof.
  intros Hp Hs. pose proof (ntohs_range b0 b1) as Hr.
  destruct fuel as [|fuel]; cbn [PacketBuffer.build_loop].
  - destruct (Z.ltb_spec stored 2); [lia | reflexivity].
  - destruct (Z.ltb_spec stored 2); [lia |].
    change (PacketBuffer.peek (b0 :: b1 :: b2 :: b3 :: rest) 0) with (Done b0).
    change (PacketBuffer.peek (b0 :: b1 :: b2 :: b3 :: rest) 1) with (Done b1).
    change (PacketBuffer.peek (b0 :: b1 :: b2 :: b3 :: rest) 2) with (Done b2).
    change (PacketBuffer.peek (b0 :: b1 :: b2 :: b3 :: rest) 3) with (Done b3).
    cbn [mbind outcome_bind].
    destruct (Z.leb_spec (ntohs b0 b1) stored); [| lia].
    destruct (PacketBuffer.read_data _ _ _) as [data | |];
      cbn [mbind outcome_bind]; [| reflexivity | reflexivity].
    destruct (Packet.Packet maxSize EMPTY (ntohs b2 b3) data) as [p e].
    pose proof (shift_loop_wraps n (b0 :: b1 :: b2 :: b3 :: rest)
                  (ntohs b0 b1) stored (ntohs b0 b1)) as Hw.
    destruct (PacketBuffer.shift_loop _ _ _ _ _) as [buf1 | |];
      cbn [mbind outcome_bind]; [| reflexivity | reflexivity].
    discriminate Hw; lia.
Qed.

Lemma shift_loop_wraps_fault (n : nat) (buf : list byte) (packetSize stored i : Z) :
  0 < packetSize <= i -> i <= 65535 ->
  65535 < stored <= Z.of_nat (length buf) ->
  65537 - i <= Z.of_nat n ->
  PacketBuffer.shift_loop n buf packetSize stored i = Fault.
Proof.
  revert buf i. induction n as [|n IH]; intros buf i Hp Hi Hs Hn; [lia |].
  cbn [PacketBuffer.shift_loop].
  destruct (Z.ltb_spec i stored); [| lia].
  destruct (peek_in_range buf i) as [b [Hb _]]; [lia |].
  rewrite Hb. cbn [mbind outcome_bind].
  rewrite poke_in_range by lia. cbn [mbind outcome_bind].
  destruct (Z.eq_dec i 65535) as [-> | Hne].
  - change (uint16_wrap (65535 + 1)) with 0.
    destruct n as [|n']; [lia |]. cbn [PacketBuffer.shift_loop].
    destruct (Z.ltb_spec 0 stored); [| lia].
    destruct (peek_in_range (<[Z.to_nat (65535 - packetSize) := b]> buf) 0)
      as [b' [Hb' _]]; [rewrite length_insert; lia |].
    rewrite Hb'. cbn [mbind outcome_bind].
    rewrite poke_negative by lia. reflexivity.
  - rewrite uint16_wrap_small by lia.
    apply IH; [lia | lia | rewrite length_insert; lia | lia].
Qed.

Lemma build_loop_wraps_fault maxSize EMPTY (fuel n : nat) b0 b1 b2 b3 rest stored q ev :
  0 < ntohs b0 b1 ->
  65535 < stored <= Z.of_nat (length (b0 :: b1 :: b2 :: b3 :: rest)) ->
  65537 - ntohs b0 b1 <= Z.of_nat n ->
  PacketBuffer.build_loop maxSize EMPTY (S fuel) n
    (b0 :: b1 :: b2 :: b3 :: rest) stored q ev = Fault.
Proof.
  intros Hp Hs Hn. pose proof (ntohs_range b0 b1) as Hr.
  cbn [PacketBuffer.build_loop].
  destruct (Z.ltb_spec stored 2); [lia |].
  change (PacketBuffer.peek (b0 :: b1 :: b2 :: b3 :: rest) 0) with (Done b0).
  change (PacketBuffer.peek (b0 :: b1 :: b2 :: b3 :: rest) 1) with (Done b1).
  change (PacketBuffer.peek (b0 :: b1 :: b2 :: b3 :: rest) 2) with (Done b2).
  change (PacketBuffer.peek (b0 :: b1 :: b2 :: b3 :: rest) 3) with (Done b3).
  cbn [mbind outcome_bind].
  destruct (Z.leb_spec (ntohs b0 b1) stored); [| lia].
  change (2 * 2) with 4.
  rewrite read_data_spec by lia. cbn [mbind outcome_bind].
  destruct (Packet.Packet maxSize EMPTY (ntohs b2 b3) _) as [p e].
  rewrite shift_loop_wraps_fault by lia. reflexivity.
Qed.

(** C2 at its failing input. A buffer of the recommended capacity
    [2 * 65535] holds three well-formed serialized packets in a row, the
    first one of full size 65535, 65543 bytes in all. The single
    [buildPackets] call never comes back with a queue, whatever the fuel:
    behind the first packet the shift loop's counter wraps from 65535 to 0
    and the next copy, to [mBuffer[0 - 65535]], leaves the block. *)
Theorem buildPackets_three_packets_wrap :
  let m1 := Packet.mk 1 65535 (replicate (Z.to_nat 65531) x41) in
  let m2 := Packet.mk 2 4 [] in
  let m3 := Packet.mk 3 4 [] in
  let buffer :=
    PacketBuffer.mk
      (Some (TcpSocket.wire m1 ++ TcpSocket.wire m2 ++ TcpSocket.wire m3
               ++ replicate (Z.to_nat 65527) x00))
      131070 0 [] in
  Forall (Packet.valid Packet.default_maxSize Packet.default_EMPTY_PACKET_TYPE)
    [m1; m2; m3]
  /\ (forall fuel : nat,
        is_done
          (PacketBuffer.buildPackets Packet.default_maxSize
             Packet.default_EMPTY_PACKET_TYPE fuel 65543 buffer)
        = false)
  /\ (forall fuel : nat,
        PacketBuffer.buildPackets Packet.default_maxSize
          Packet.default_EMPTY_PACKET_TYPE (S (S fuel)) 65543 buffer
        = Fault).
Proof.
  intros m1 m2 m3 buffer.
  assert (Hlen : 65535 < 65543
                 <= Z.of_nat (length (xff :: xff :: x00 :: x01
                      :: replicate (Z.to_nat 65531) x41 ++ TcpSocket.wire m2
                      ++ TcpSocket.wire m3 ++ replicate (Z.to_nat 65527) x00))).
  { cbn [length]. rewrite !length_app, !length_replicate.
    change (length (TcpSocket.wire m2)) with 4%nat.
    change (length (TcpSocket.wire m3)) with 4%nat. lia. }
  assert (Hps : ntohs xff xff = 65535) by (vm_compute; reflexivity).
  split; [| split].
  - unfold Packet.default_maxSize, Packet.default_EMPTY_PACKET_TYPE.
    assert (E1 : m1 = Packet.mk 1
                        (Z.of_nat (length (replicate (Z.to_nat 65531) x41)) + 4)
                        (replicate (Z.to_nat 65531) x41)).
    { unfold m1. rewrite length_replicate.
      rewrite Z2Nat.id by (apply Z.leb_le; reflexivity). reflexivity. }
    rewrite E1.
    constructor; [| constructor; [| constructor; [| constructor]]].
    + apply valid_mk; [lia | lia | lia |].
      rewrite length_replicate.
      rewrite Z2Nat.id by (apply Z.leb_le; reflexivity). lia.
    + apply (valid_mk 65535 65535 2 []); cbn [length]; lia.
    + apply (valid_mk 65535 65535 3 []); cbn [length]; lia.
  - intros fuel. unfold buffer.
    change (TcpSocket.wire m1)
      with (xff :: xff :: x00 :: x01 :: replicate (Z.to_nat 65531) x41).
    unfold PacketBuffer.buildPackets.
    cbn [PacketBuffer.mBuffer PacketBuffer.mCurrentlyStoredBytes app].
    change (size_t_wrap (0 + 65543)) with 65543.
    pose proof (build_loop_wraps Packet.default_maxSize
                  Packet.default_EMPTY_PACKET_TYPE
                  fuel fuel xff xff x00 x01
                  (replicate (Z.to_nat 65531) x41 ++ TcpSocket.wire m2
                     ++ TcpSocket.wire m3 ++ replicate (Z.to_nat 65527) x00)
                  65543 [] [] ltac:(lia) Hlen) as Hw.
    destruct (PacketBuffer.build_loop _ _ _ _ _ _ _ _) as [r | |];
      cbn [mbind outcome_bind]; [discriminate Hw | reflexivity | reflexivity].
  - intros fuel. unfold buffer.
    change (TcpSocket.wire m1)
      with (xff :: xff :: x00 :: x01 :: replicate (Z.to_nat 65531) x41).
    unfold PacketBuffer.buildPackets.
    cbn [PacketBuffer.mBuffer PacketBuffer.mCurrentlyStoredBytes app].
    change (size_t_wrap (0 + 65543)) with 65543.
    rewrite build_loop_wraps_fault; [reflexivity | lia | exact Hlen | lia].
Qed.

(** ** One packet arriving in pieces *)

Lemma wire_prefix_incomplete maxSize EMPTY (m : Packet.t) (P s : list byte) :
  4 <= maxSize <= 65535 -> Packet.valid maxSize EMPTY m ->
  P ++ s = TcpSocket.wire m -> (length P < length (TcpSocket.wire m))%nat ->
  PacketBuffer.incomplete P.
Proof.
  intros Hm Hv HP Hlt.
  pose proof (wire_length _ _ _ Hm Hv) as Hwl.
  destruct (valid_size _ _ _ Hm Hv) as [Hsz Hmax].
  destruct P as [|b0 [|b1 P']]; cbn [PacketBuffer.incomplete]; try exact I.
  unfold TcpSocket.wire in HP. cbn [htons app] in HP.
  injection HP as -> -> _.
  unfold Packet.getSize. rewrite ntohs_htons by lia.
  cbn [length] in Hlt |- *. lia.
Qed.

Lemma os_write_append (buf P c : list byte) :
  take (length P) buf = P ->
  (length P + length c <= length buf)%nat ->
  exists buf1,
    PacketBuffer.os_write buf (Z.of_nat (length P)) c = Done buf1
    /\ length buf1 = length buf
    /\ take (length P + length c) buf1 = P ++ c.
Proof.
  intros HP Hl. unfold PacketBuffer.os_write.
  destruct (Z.leb_spec 0 (Z.of_nat (length P))); [| lia].
  destruct (Z.leb_spec (Z.of_nat (length P) + Z.of_nat (length c))
              (Z.of_nat (length buf))); [| lia].
  cbn [andb]. rewrite Nat2Z.id, HP.
  eexists. split; [reflexivity |]. split.
  - rewrite !length_app, length_drop. lia.
  - rewrite app_assoc. apply take_app_length'. rewrite length_app. reflexivity.
Qed.

Lemma feed_idle maxSize EMPTY (fuel : nat) (cs : list (list byte))
    (buf : list byte) size q :
  concat cs = [] ->
  PacketBuffer.feed maxSize EMPTY fuel cs (PacketBuffer.mk (Some buf) size 0 q)
  = Done (PacketBuffer.mk (Some buf) size 0 q, []).
Proof.
  induction cs as [|c cs IH]; intros Hc; [reflexivity |].
  cbn [concat] in Hc. apply app_eq_nil in Hc as [-> Hc].
  cbn [PacketBuffer.feed]. unfold PacketBuffer.received, PacketBuffer.os_write.
  cbn [PacketBuffer.mBuffer PacketBuffer.mCurrentlyStoredBytes
       PacketBuffer.mSize PacketBuffer.mStoredPackets length].
  change (Z.of_nat 0) with 0. rewrite Z.add_0_l.
  destruct (Z.leb_spec 0 (Z.of_nat (length buf))); [| lia].
  change (0 <=? 0) with true. cbn [andb mbind outcome_bind].
  change (Z.to_nat 0) with 0%nat. cbn [app Nat.add].
  rewrite take_0, drop_0. cbn [app].
  unfold PacketBuffer.buildPackets.
  cbn [PacketBuffer.mBuffer PacketBuffer.mCurrentlyStoredBytes
       PacketBuffer.mSize PacketBuffer.mStoredPackets].
  change (size_t_wrap (0 + 0)) with 0.
  rewrite build_loop_short by lia.
  cbn [mbind outcome_bind mret outcome_ret fst snd].
  rewrite IH by exact Hc. reflexivity.
Qed.

Lemma feed_prefix maxSize EMPTY (m : Packet.t) (fuel : nat) size q :
  4 <= maxSize <= 65535 -> Packet.valid maxSize EMPTY m ->
  (length (TcpSocket.wire m) < fuel)%nat ->
  forall (chunks : list (list byte)) (P buf : list byte),
    P ++ concat chunks = TcpSocket.wire m ->
    (length P < length (TcpSocket.wire m))%nat ->
    take (length P) buf = P ->
    (length (TcpSocket.wire m) <= length buf)%nat ->
    exists mem,
      PacketBuffer.feed maxSize EMPTY fuel chunks
        (PacketBuffer.mk (Some buf) size (Z.of_nat (length P)) q)
      = Done (PacketBuffer.mk (Some mem) size 0 (q ++ [m]), []).
Proof.
  intros Hm Hv Hf.
  pose proof (wire_length _ _ _ Hm Hv) as Hwl.
  destruct (valid_size _ _ _ Hm Hv) as [Hsz Hmax].
  induction chunks as [|c cs IH]; intros P buf HP Hlt Htake Hcap.
  - cbn [concat] in HP. rewrite app_nil_r in HP. subst P. lia.
  - cbn [concat] in HP.
    assert (Hlen : (length P + length c + length (concat cs)
                    = length (TcpSocket.wire m))%nat).
    { rewrite <- HP, !length_app. lia. }
    destruct (os_write_append buf P c Htake) as [buf1 [Ew [Hl1 Ht1]]]; [lia |].
    cbn [PacketBuffer.feed]. unfold PacketBuffer.received.
    cbn [PacketBuffer.mBuffer PacketBuffer.mCurrentlyStoredBytes
         PacketBuffer.mSize PacketBuffer.mStoredPackets].
    rewrite Ew. cbn [mbind outcome_bind].
    destruct (decide (length (concat cs) = 0)%nat) as [Hz | Hnz].
    + (* the packet is complete *)
      apply length_zero_iff_nil in Hz.
      rewrite Hz, app_nil_r in HP.
      destruct (buildPackets_drain maxSize EMPTY [m] [] buf1 size
                  (Z.of_nat (length P)) (Z.of_nat (length c)) q fuel)
        as [mem [E _]]; try assumption; try lia.
      * constructor; [exact Hv | constructor].
      * exact I.
      * cbn [map concat]. rewrite !app_nil_r, <- HP.
        rewrite <- Ht1. f_equal. lia.
      * cbn [length]. lia.
      * rewrite E. cbn [mbind outcome_bind fst snd length].
        change (Z.of_nat 0) with 0.
        rewrite feed_idle by exact Hz.
        exists mem. reflexivity.
    + (* still a proper prefix *)
      assert (Hinc : PacketBuffer.incomplete (P ++ c)).
      { apply (wire_prefix_incomplete maxSize EMPTY m (P ++ c) (concat cs));
          [assumption | assumption | rewrite <- app_assoc; exact HP |].
        rewrite length_app. lia. }
      destruct (buildPackets_drain maxSize EMPTY [] (P ++ c) buf1 size
                  (Z.of_nat (length P)) (Z.of_nat (length c)) q fuel)
        as [mem [E [Hlm Htm]]]; try assumption; try lia.
      * constructor.
      * cbn [map concat app]. rewrite <- Ht1. f_equal. lia.
      * cbn [length]. lia.
      * rewrite E. cbn [mbind outcome_bind fst snd].
        rewrite app_nil_r.
        destruct (IH (P ++ c) mem) as [mem' E'].
        -- rewrite <- app_assoc. exact HP.
        -- rewrite length_app. lia.
        -- exact Htm.
        -- lia.
        -- exists mem'. rewrite E'. reflexivity.
Qed.

(** C1. A packet built from a type other than [EMPTY_PACKET_TYPE] and at
    most [maxSize - 4] bytes of data, serialized as [send] does (length,
    type, data) and delivered to a freshly constructed buffer in any
    chunking at all, empty chunks included: every round succeeds, nothing
    is reported, exactly one packet is pending at the end, and [getPacket]
    hands back a packet with the type, size and data of the original. *)
Theorem framing_round_trip maxSize EMPTY (kind : Z) (payload : list byte)
    (fresh : nat -> byte) (size : Z) (chunks : list (list byte)) (fuel : nat) :
  maxSize <= 65535 ->
  0 <= kind < 65536 -> kind <> EMPTY ->
  Z.of_nat (length payload) <= maxSize - 4 ->
  maxSize <= size ->
  let m := fst (Packet.Packet maxSize EMPTY kind payload) in
  concat chunks = TcpSocket.wire m ->
  65535 < Z.of_nat fuel ->
  exists pb' pb'',
    PacketBuffer.feed maxSize EMPTY fuel chunks
      (fst (PacketBuffer.PacketBuffer maxSize fresh size))
    = Done (pb', [])
    /\ PacketBuffer.mStoredPackets pb' = [m]
    /\ PacketBuffer.getPacket pb' = Done (m, pb'')
    /\ PacketBuffer.isPacketsStored pb'' = false
    /\ Packet.getType m = kind
    /\ Packet.getSize m = Z.of_nat (length payload) + 4
    /\ Packet.getData m = payload.
Proof.
  intros Hmax Hk Hne Hlen Hsize m Hchunks Hfuel.
  assert (Hm : 4 <= maxSize <= 65535) by lia.
  assert (Em : m = Packet.mk kind (Z.of_nat (length payload) + 4) payload).
  { unfold m. rewrite Packet_accepts by assumption. reflexivity. }
  assert (Hv : Packet.valid maxSize EMPTY m).
  { rewrite Em. split; [exact Hk |]. cbn [Packet.mType Packet.mData].
    apply Packet_accepts; assumption. }
  pose proof (wire_length _ _ _ Hm Hv) as Hwl.
  assert (Hms : Packet.mSize m = Z.of_nat (length payload) + 4)
    by (rewrite Em; reflexivity).
  unfold PacketBuffer.PacketBuffer.
  destruct (Z.leb_spec maxSize size); [| lia]. cbn [fst].
  destruct (feed_prefix maxSize EMPTY m fuel size [] Hm Hv ltac:(lia)
              chunks [] (map fresh (seq 0 (Z.to_nat size))))
    as [mem E].
  - exact Hchunks.
  - cbn [length]. lia.
  - reflexivity.
  - rewrite length_map, length_seq. lia.
  - cbn [length] in E. change (Z.of_nat 0) with 0 in E. cbn [app] in E.
    exists (PacketBuffer.mk (Some mem) size 0 [m]),
           (PacketBuffer.mk (Some mem) size 0 []).
    split; [exact E |]. split; [reflexivity |]. split; [reflexivity |].
    split; [reflexivity |]. rewrite Em. repeat split.
Qed.

Lemma framing_round_trip_witness :
  exists pb' pb'',
    PacketBuffer.feed 16 65535 (Z.to_nat 65536) [[x00]; [x07; x00]; []; [x09; x41; x42]; [x43]]
      (fst (PacketBuffer.PacketBuffer 16 (fun _ => xff) 32))
    = Done (pb', [])
    /\ PacketBuffer.mStoredPackets pb' = [Packet.mk 9 7 [x41; x42; x43]]
    /\ PacketBuffer.getPacket pb' = Done (Packet.mk 9 7 [x41; x42; x43], pb'')
    /\ PacketBuffer.isPacketsStored pb'' = false
    /\ Packet.getType (Packet.mk 9 7 [x41; x42; x43]) = 9
    /\ Packet.getSize (Packet.mk 9 7 [x41; x42; x43]) = 7
    /\ Packet.getData (Packet.mk 9 7 [x41; x42; x43]) = [x41; x42; x43].
Proof.
  apply (framing_round_trip 16 65535 9 [x41; x42; x43] (fun _ => xff) 32
           [[x00]; [x07; x00]; []; [x09; x41; x42]; [x43]] (Z.to_nat 65536)).
  - lia.
  - lia.
  - lia.
  - simpl. lia.
  - lia.
  - reflexivity.
  - lia.
Defined.

(** ** What a returning [buildPackets] leaves stored *)

Lemma Packet_events maxSize EMPTY type data :
  forall x, In x (snd (Packet.Packet maxSize EMPTY type data)) ->
            x = EvCommonError ERROR_PACKET_TOO_BIG.
Proof.
  intros x. unfold Packet.Packet.
  destruct (type =? EMPTY); [intros [] |].
  destruct (_ <? _); cbn [snd In]; intros H; [| destruct H].
  destruct H as [<- | []]. reflexivity.
Qed.

Lemma build_loop_done maxSize EMPTY (fuel n : nat) :
  forall buf stored q ev buf' stored' q' ev',
    stored < 65535 \/ 2 <= stored ->
    PacketBuffer.build_loop maxSize EMPTY fuel n buf stored q ev
    = Done (buf', stored', q', ev') ->
    stored' < 65535
    /\ forall x, In x ev' -> In x ev \/ x = EvCommonError ERROR_PACKET_TOO_BIG.
Proof.
  induction fuel as [|fuel IH]; intros buf stored q ev buf' stored' q' ev' Hs E;
    cbn [PacketBuffer.build_loop] in E.
  - destruct (Z.ltb_spec stored 2); [| discriminate E].
    injection E as <- <- <- <-. split; [lia | auto].
  - destruct (Z.ltb_spec stored 2).
    { injection E as <- <- <- <-. split; [lia | auto]. }
    destruct (PacketBuffer.peek buf 0) as [b0 | |]; try discriminate E.
    destruct (PacketBuffer.peek buf 1) as [b1 | |]; try discriminate E.
    cbn [mbind outcome_bind] in E.
    pose proof (ntohs_range b0 b1) as Hr.
    destruct (Z.leb_spec (ntohs b0 b1) stored).
    + destruct (PacketBuffer.read_data _ _ _) as [data | |]; try discriminate E.
      cbn [mbind outcome_bind] in E.
      destruct (PacketBuffer.peek buf 2) as [t0 | |]; try discriminate E.
      destruct (PacketBuffer.peek buf 3) as [t1 | |]; try discriminate E.
      cbn [mbind outcome_bind] in E.
      pose proof (Packet_events maxSize EMPTY (ntohs t0 t1) data) as Hpe.
      destruct (Packet.Packet maxSize EMPTY (ntohs t0 t1) data) as [p e].
      destruct (PacketBuffer.shift_loop _ _ _ _ _) as [buf1 | |]; try discriminate E.
      cbn [mbind outcome_bind] in E.
      destruct (PacketBuffer.memset0 _ _ _) as [buf2 | |]; try discriminate E.
      cbn [mbind outcome_bind] in E.
      destruct (Z.lt_ge_cases (stored - ntohs b0 b1) 2) as [Hlt | Hge].
      * rewrite build_loop_short in E by exact Hlt.
        injection E as <- <- <- <-. split; [lia |].
        intros x Hx. apply in_app_or in Hx as [Hx | Hx]; [auto |].
        right. apply Hpe. exact Hx.
      * apply IH in E; [| lia]. destruct E as [Hb He]. split; [exact Hb |].
        intros x Hx. apply He in Hx as [Hx | Hx]; [| auto].
        apply in_app_or in Hx as [Hx | Hx]; [auto |].
        right. apply Hpe. exact Hx.
    + injection E as <- <- <- <-. split; [lia | auto].
Qed.

Lemma buildPackets_done maxSize EMPTY (fuel : nat) (n : Z) (pb pb' : PacketBuffer.t)
    (e : list Event) :
  PacketBuffer.buildPackets maxSize EMPTY fuel n pb = Done (pb', e) ->
  PacketBuffer.mSize pb' = PacketBuffer.mSize pb
  /\ PacketBuffer.mCurrentlyStoredBytes pb' < 65535
  /\ forall x, In x e -> x = EvCommonError ERROR_PACKET_TOO_BIG.
Proof.
  unfold PacketBuffer.buildPackets. intros E.
  set (stored := size_t_wrap (PacketBuffer.mCurrentlyStoredBytes pb + n)) in *.
  destruct (PacketBuffer.mBuffer pb) as [buf |].
  - destruct (PacketBuffer.build_loop _ _ _ _ _ _ _ _)
      as [[[[buf' stored'] q'] ev'] | |] eqn:El; try discriminate E.
    cbn [mbind outcome_bind mret outcome_ret] in E. injection E as <- <-.
    apply build_loop_done in El; [| lia].
    destruct El as [Hb He]. cbn [PacketBuffer.mSize PacketBuffer.mCurrentlyStoredBytes].
    split; [reflexivity |]. split; [exact Hb |].
    intros x Hx. apply He in Hx as [[] | Hx]. exact Hx.
  - destruct (Z.ltb_spec stored 2); [| discriminate E].
    injection E as <- <-. cbn [PacketBuffer.mSize PacketBuffer.mCurrentlyStoredBytes].
    split; [reflexivity |]. split; [lia | intros x []].
Qed.

Lemma received_done maxSize EMPTY (fuel : nat) (chunk : list byte)
    (pb pb' : PacketBuffer.t) (e : list Event) :
  PacketBuffer.received maxSize EMPTY fuel chunk pb = Done (pb', e) ->
  PacketBuffer.mSize pb' = PacketBuffer.mSize pb
  /\ PacketBuffer.mCurrentlyStoredBytes pb' < 65535
  /\ forall x, In x e -> x = EvCommonError ERROR_PACKET_TOO_BIG.
Proof.
  unfold PacketBuffer.received. intros E.
  destruct (PacketBuffer.mBuffer pb) as [buf |]; [| discriminate E].
  destruct (PacketBuffer.os_write _ _ _) as [mem | |]; try discriminate E.
  cbn [mbind outcome_bind] in E. apply buildPackets_done in E. exact E.
Qed.

(** ** TcpSocket::receive *)

(** X22. Every [::recv] of a stream receive asks for [getSize() / 2] bytes
    at the offset [getCurrentSize()], whatever is stored already. The
    request stays inside the buffer on every read of the call when the
    buffer has the recommended capacity, twice the largest packet
    ([2 * 65535]), and the call starts with at most 65535 stored bytes. *)
Theorem tcp_receive_reads_within_capacity maxSize EMPTY (fuel : nat)
    (sock : Socket.t) (os : list os_read) (buffer : PacketBuffer.t) :
  131070 <= PacketBuffer.getSize buffer ->
  PacketBuffer.getCurrentSize buffer <= 65535 ->
  let ev := fst (TcpSocket.receive maxSize EMPTY fuel sock os buffer) in
  (exists rest,
      ev = EvRecv (Socket.getSocket sock) (PacketBuffer.getCurrentSize buffer)
             (PacketBuffer.getSize buffer / 2) :: rest)
  /\ forall fd off len,
       In (EvRecv fd off len) ev ->
       len = PacketBuffer.getSize buffer / 2
       /\ off + len <= PacketBuffer.getSize buffer.
Proof.
  unfold PacketBuffer.getSize, PacketBuffer.getCurrentSize.
  revert buffer. induction os as [|r os IH]; intros buffer HC Hs;
    cbn [TcpSocket.receive];
    unfold PacketBuffer.getSize, PacketBuffer.getCurrentSize.
  all: set (C := PacketBuffer.mSize buffer) in *.
  all: set (st := PacketBuffer.mCurrentlyStoredBytes buffer) in *.
  all: assert (Hhalf : st + C / 2 <= C)
         by (pose proof (Z.div_mod C 2 ltac:(lia));
             pose proof (Z.mod_pos_bound C 2 ltac:(lia)); lia).
  - cbn [fst]. split; [eexists; reflexivity |].
    intros fd off len [H | []]. injection H as _ <- <-. auto.
  - destruct r as [bs |].
    + destruct (_ =? 0).
      * cbn [fst]. split; [eexists; reflexivity |].
        intros fd off len [H | [H | []]]; [| discriminate H].
        injection H as _ <- <-. auto.
      * destruct (PacketBuffer.received _ _ _ _ _) as [[buffer' e] | |] eqn:E.
        -- apply received_done in E as [Hsz [Hst He]].
           specialize (IH buffer' ltac:(lia) ltac:(lia)).
           destruct (PacketBuffer.isPacketsStored buffer').
           ++ cbn [fst app]. split; [eexists; reflexivity |].
              intros fd off len [H | [H | H]]; [| discriminate H |].
              ** injection H as _ <- <-. auto.
              ** apply He in H. discriminate H.
           ++ destruct (TcpSocket.receive _ _ _ _ _ _) as [ev' r'].
              cbn [fst app] in IH |- *. destruct IH as [_ IH].
              split; [eexists; reflexivity |].
              intros fd off len [H | [H | H]]; [| discriminate H |].
              ** injection H as _ <- <-. auto.
              ** apply in_app_or in H as [H | H].
                 --- apply He in H. discriminate H.
                 --- apply IH in H. subst C. rewrite <- Hsz. exact H.
        -- cbn [fst]. split; [eexists; reflexivity |].
           intros fd off len [H | [H | []]]; [| discriminate H].
           injection H as _ <- <-. auto.
        -- cbn [fst]. split; [eexists; reflexivity |].
           intros fd off len [H | [H | []]]; [| discriminate H].
           injection H as _ <- <-. auto.
    + cbn [fst]. split; [eexists; reflexivity |].
      intros fd off len [H | [H | []]]; [| discriminate H].
      injection H as _ <- <-. auto.
Qed.

Lemma tcp_receive_reads_within_capacity_witness :
  let buffer :=
    PacketBuffer.mk (Some (replicate (Z.to_nat 131070) x00)) 131070 0 [] in
  let ev := fst (TcpSocket.receive 65535 65535 1 (Socket.mk 3 0 0 0)
                   [ReadData [x00; x08; x00]; ReadError] buffer) in
  (exists rest,
      ev = EvRecv (Socket.getSocket (Socket.mk 3 0 0 0))
             (PacketBuffer.getCurrentSize buffer)
             (PacketBuffer.getSize buffer / 2) :: rest)
  /\ forall fd off len,
       In (EvRecv fd off len) ev ->
       len = PacketBuffer.getSize buffer / 2
       /\ off + len <= PacketBuffer.getSize buffer.
Proof.
  apply (tcp_receive_reads_within_capacity 65535 65535 1 (Socket.mk 3 0 0 0)
           [ReadData [x00; x08; x00]; ReadError]
           (PacketBuffer.mk (Some (replicate (Z.to_nat 131070) x00)) 131070 0 [])).
  - unfold PacketBuffer.getSize. simpl. lia.
  - unfold PacketBuffer.getCurrentSize. simpl. lia.
Defined.

(** On a buffer of the default capacity 65535 the request itself can
    reach past the end. A packet announcing 65535 bytes arrives as 32767
    bytes and then 2 bytes; the third [::recv] of the call asks for 32767
    bytes at offset 32769, one byte past the end of the buffer. *)
Lemma tcp_receive_read_past_capacity :
  let buffer :=
    fst (PacketBuffer.PacketBuffer Packet.default_maxSize (fun _ => x00) 65535) in
  let ev :=
    fst (TcpSocket.receive Packet.default_maxSize Packet.default_EMPTY_PACKET_TYPE 1
           (Socket.mk 3 0 0 0)
           [ReadData (xff :: xff :: x00 :: x01 :: replicate (Z.to_nat 32763) x41);
            ReadData [x41; x41]]
           buffer) in
  ~ (forall fd off len,
       In (EvRecv fd off len) ev -> off + len <= PacketBuffer.getSize buffer).
Proof.
  intros buffer ev H.
  assert (Hin : In (EvRecv 3 32769 32767) ev).
  { subst ev buffer. vm_compute. tauto. }
  apply H in Hin. subst buffer. vm_compute in Hin. apply Hin. reflexivity.
Qed.

(** C3 at its failing input. A buffer of the default capacity 65535, as
    [PacketBuffer buffer;] constructs it, receives a stream that starts
    with a packet of full size 65535 followed by an empty packet. No read
    hands over more than the [getSize() / 2 = 32767] bytes it asked for:
    the first two bring 32767 bytes each, and the third, again asking for
    32767 bytes but now at offset 65534, brings the last byte of the first
    packet and the 4 bytes of the second. They land at offsets 65534 to
    65538 of a block of 65535 bytes: the call writes past the end of the
    buffer and does not return. *)
Theorem tcp_receive_overruns_default_buffer :
  let m1 := Packet.mk 1 65535 (replicate (Z.to_nat 65531) x41) in
  let m2 := Packet.mk 2 4 [] in
  let stream := TcpSocket.wire m1 ++ TcpSocket.wire m2 in
  let buffer :=
    fst (PacketBuffer.PacketBuffer Packet.default_maxSize (fun _ => x00)
           Packet.default_maxSize) in
  let os :=
    [ReadData (take (Z.to_nat 32767) stream);
     ReadData (take (Z.to_nat 32767) (drop (Z.to_nat 32767) stream));
     ReadData (drop (Z.to_nat 65534) stream)] in
  Forall (Packet.valid Packet.default_maxSize Packet.default_EMPTY_PACKET_TYPE)
    [m1; m2]
  /\ PacketBuffer.getSize buffer = 65535
  /\ PacketBuffer.getSize buffer / 2 = 32767
  /\ (forall fuel : nat,
        TcpSocket.receive Packet.default_maxSize Packet.default_EMPTY_PACKET_TYPE
          (S fuel) (Socket.mk 3 0 0 0) os buffer
        = ([EvRecv 3 0 32767; EvBuildPackets 32767;
            EvRecv 3 32767 32767; EvBuildPackets 32767;
            EvRecv 3 65534 32767; EvBuildPackets 5],
           Fault))
  /\ (forall fuel : nat,
        is_done
          (snd (TcpSocket.receive Packet.default_maxSize
                  Packet.default_EMPTY_PACKET_TYPE fuel (Socket.mk 3 0 0 0) os
                  buffer))
        = false).
Proof.
  intros m1 m2 stream buffer os.
  assert (Hrun : forall fuel : nat,
             TcpSocket.receive Packet.default_maxSize
               Packet.default_EMPTY_PACKET_TYPE (S fuel) (Socket.mk 3 0 0 0) os
               buffer
             = ([EvRecv 3 0 32767; EvBuildPackets 32767;
                 EvRecv 3 32767 32767; EvBuildPackets 32767;
                 EvRecv 3 65534 32767; EvBuildPackets 5],
                Fault)).
  { intros fuel. subst os buffer stream m1 m2. vm_compute. reflexivity. }
  split; [| split; [| split; [| split]]].
  - unfold Packet.default_maxSize, Packet.default_EMPTY_PACKET_TYPE.
    assert (E1 : m1 = Packet.mk 1
                        (Z.of_nat (length (replicate (Z.to_nat 65531) x41)) + 4)
                        (replicate (Z.to_nat 65531) x41)).
    { unfold m1. rewrite length_replicate.
      rewrite Z2Nat.id by (apply Z.leb_le; reflexivity). reflexivity. }
    rewrite E1.
    constructor; [| constructor; [| constructor]].
    + apply valid_mk; [lia | lia | lia |].
      rewrite length_replicate.
      rewrite Z2Nat.id by (apply Z.leb_le; reflexivity). lia.
    + apply (valid_mk 65535 65535 2 []); cbn [length]; lia.
  - reflexivity.
  - reflexivity.
  - exact Hrun.
  - intros [|fuel]; [| rewrite Hrun; reflexivity].
    subst os buffer stream m1 m2. vm_compute. reflexivity.
Qed.

(** A failed [::recv] ends a stream receive on the spot, and so does a
    failed [::recvfrom] of the datagram receive that takes an address. *)
Lemma tcp_receive_failure_aborts maxSize EMPTY fuel sock os buffer :
  TcpSocket.receive maxSize EMPTY fuel sock (ReadError :: os) buffer
  = ([EvRecv (Socket.getSocket sock) (PacketBuffer.getCurrentSize buffer)
        (PacketBuffer.getSize buffer / 2);
      EvSocketError (Socket.getSocket sock) ERROR_SOCKET_RECEIVE],
     Done (Returned, buffer)).
Proof. reflexivity. Qed.

Lemma udp_receive_from_failure_aborts maxSize EMPTY fuel sock os buffer :
  UdpSocket.receive_from maxSize EMPTY fuel sock (ReadError :: os) buffer
  = ([EvRecv (Socket.getSocket sock) (PacketBuffer.getCurrentSize buffer)
        (PacketBuffer.getSize buffer);
      EvSocketError (Socket.getSocket sock) ERROR_SOCKET_RECEIVE],
     Done (Returned, buffer)).
Proof. reflexivity. Qed.

(** C7 at its failing input: the datagram receive without an address. The
    buffer of a bound socket holds the first 3 bytes of a packet when
    [::recvfrom] fails. The failure is reported, and then the call carries
    on: [buildPackets(-1)] takes one stored byte away and a second
    [::recvfrom] is issued, at offset 2. *)
Theorem udp_receive_failure_falls_through :
  let buffer :=
    PacketBuffer.mk (Some (x00 :: x08 :: x00 :: replicate (Z.to_nat 65532) x00))
      65535 3 [] in
  let r := UdpSocket.receive Packet.default_maxSize Packet.default_EMPTY_PACKET_TYPE 1
             (Socket.mk 3 0 0 0) [ReadError] buffer in
  fst r = [EvRecv 3 3 65535;
           EvSocketError 3 ERROR_SOCKET_RECEIVE;
           EvBuildPackets (-1);
           EvRecv 3 2 65535]
  /\ match snd r with
     | Done (Blocked, buffer') => PacketBuffer.getCurrentSize buffer' = 2
     | _ => False
     end.
Proof.
  vm_compute. split; reflexivity.
Qed.

(** ** TcpSocket::send *)

Lemma send_loop_done (fd : Z) (data : list byte) (os : list os_send) :
  forall bytesSent out ev rest,
    0 <= bytesSent <= Z.of_nat (length data) ->
    TcpSocket.send_loop fd data bytesSent (Z.of_nat (length data) - bytesSent) os
    = (out, ev, SendDone rest) ->
    out = drop (Z.to_nat bytesSent) data /\ ev = [].
Proof.
  induction os as [|o os IH]; intros bytesSent out ev rest Hb E;
    cbn [TcpSocket.send_loop] in E;
    destruct (Z.ltb_spec bytesSent (Z.of_nat (length data))) as [Hlt | Hge].
  - discriminate E.
  - injection E as <- <- _. split; [| reflexivity].
    symmetry. apply drop_ge. lia.
  - destruct o as [n |]; [| discriminate E].
    set (c := Z.min (Z.of_nat n) (Z.of_nat (length data) - bytesSent)) in *.
    replace (Z.of_nat (length data) - bytesSent - c)
      with (Z.of_nat (length data) - (bytesSent + c)) in E by lia.
    destruct (TcpSocket.send_loop fd data (bytesSent + c) _ os)
      as [[out' ev'] r'] eqn:E'.
    injection E as <- <- ->.
    apply IH in E' as [-> ->]; [| lia]. split; [| reflexivity].
    replace (Z.to_nat (bytesSent + c)) with (Z.to_nat bytesSent + Z.to_nat c)%nat by lia.
    rewrite <- drop_drop. apply take_drop.
  - injection E as <- <- _. split; [| reflexivity].
    symmetry. apply drop_ge. lia.
Qed.

(** When [send] runs to its end, what went out on the stream is the length,
    the type and the data, whatever the sizes of the partial writes, and
    nothing was reported. *)
Lemma send_transmits_wire (sock : Socket.t) (packet : Packet.t)
    (os rest : list os_send) (out : list byte) (ev : list Event) :
  TcpSocket.send sock packet os = (out, ev, SendDone rest) ->
  out = TcpSocket.wire packet /\ ev = [].
Proof.
  unfold TcpSocket.send. intros E.
  destruct (TcpSocket.send_loop _ (htons (Packet.getSize packet)) 0 2 os)
    as [[out1 ev1] [os1 | |]] eqn:E1; try discriminate E.
  destruct (TcpSocket.send_loop _ (htons (Packet.getType packet)) 0 2 os1)
    as [[out2 ev2] [os2 | |]] eqn:E2; try discriminate E.
  destruct (TcpSocket.send_loop _ (Packet.getData packet) 0 _ os2)
    as [[out3 ev3] r3] eqn:E3.
  injection E as <- <- ->.
  change 2 with (Z.of_nat (length (htons (Packet.getSize packet))) - 0) in E1.
  change 2 with (Z.of_nat (length (htons (Packet.getType packet))) - 0) in E2.
  apply send_loop_done in E1 as [-> ->]; [| cbn [htons length]; lia].
  apply send_loop_done in E2 as [-> ->]; [| cbn [htons length]; lia].
  rewrite <- (Z.sub_0_r (Z.of_nat (length (Packet.getData packet)))) in E3.
  apply send_loop_done in E3 as [-> ->]; [| lia].
  split; reflexivity.
Qed.

Example send_in_pieces :
  TcpSocket.send (Socket.mk 3 0 0 0) (Packet.mk 9 7 [x41; x42; x43])
    [SendTakes 1; SendTakes 0; SendTakes 5; SendTakes 2; SendTakes 2; SendTakes 9]
  = ([x00; x07; x00; x09; x41; x42; x43], [], SendDone []).
Proof. reflexivity. Qed.

(** ** Selector: the cached highest descriptor *)

Lemma max_descriptor_nonneg (l : list Socket.t) : 0 <= Selector.max_descriptor l.
Proof.
  unfold Selector.max_descriptor. induction l as [|i l IH]; cbn [map fold_right]; lia.
Qed.

Lemma max_descriptor_app (l1 l2 : list Socket.t) :
  Selector.max_descriptor (l1 ++ l2)
  = Z.max (Selector.max_descriptor l1) (Selector.max_descriptor l2).
Proof.
  pose proof (max_descriptor_nonneg l2) as H2. unfold Selector.max_descriptor in *.
  induction l1 as [|i l1 IH]; cbn [app map fold_right]; lia.
Qed.

Lemma max_descriptor_cons (i : Socket.t) (l : list Socket.t) :
  Selector.max_descriptor (i :: l)
  = Z.max (Socket.getSocket i) (Selector.max_descriptor l).
Proof. reflexivity. Qed.

Lemma rescan_spec (l : list Socket.t) (m : Z) :
  0 <= m -> Selector.rescan l m = Z.max m (Selector.max_descriptor l).
Proof.
  unfold Selector.rescan. revert m.
  induction l as [|i l IH]; intros m Hm; cbn [fold_left].
  - unfold Selector.max_descriptor. cbn [map fold_right]. lia.
  - rewrite max_descriptor_cons.
    destruct (Z.ltb_spec m (Socket.getSocket i)); rewrite IH by lia; lia.
Qed.

Lemma erase_first_spec (sock : Socket.t) (l : list Socket.t) (socketsMax : Z) :
  Selector.erase_first sock l socketsMax = (l, socketsMax)
  \/ exists l1 i l2,
       l = l1 ++ i :: l2
       /\ Selector.erase_first sock l socketsMax
          = (l1 ++ l2, if Socket.getSocket i =? socketsMax then 0 else socketsMax).
Proof.
  induction l as [|i l IH]; cbn [Selector.erase_first]; [left; reflexivity |].
  destruct (Socket.eqb i sock).
  - right. exists [], i, l. split; reflexivity.
  - destruct IH as [-> | [l1 [j [l2 [-> ->]]]]].
    + left. reflexivity.
    + right. exists (i :: l1), j, l2. split; reflexivity.
Qed.

Lemma add_tracks_maximum (sock : Socket.t) (s : Selector.t) :
  0 <= Socket.getSocket sock -> Selector.tracks_maximum s ->
  Selector.tracks_maximum (Selector.add sock s).
Proof.
  intros Hs [Hm Hp]. unfold Selector.tracks_maximum, Selector.add.
  cbn [Selector.mSocketsMax Selector.mSockets]. split.
  - rewrite max_descriptor_app, max_descriptor_cons, Hm.
    pose proof (max_descriptor_nonneg (Selector.mSockets s)).
    change (Selector.max_descriptor []) with 0.
    destruct (Z.ltb_spec (Selector.max_descriptor (Selector.mSockets s))
                (Socket.getSocket sock)); lia.
  - apply Forall_app. split; [exact Hp |]. constructor; [exact Hs | constructor].
Qed.

Lemma remove_tracks_maximum (sock : Socket.t) (s : Selector.t) :
  Selector.tracks_maximum s -> Selector.tracks_maximum (Selector.remove sock s).
Proof.
  intros [Hm Hp]. unfold Selector.tracks_maximum, Selector.remove.
  pose proof (max_descriptor_nonneg (Selector.mSockets s)) as Hn.
  destruct (erase_first_spec sock (Selector.mSockets s) (Selector.mSocketsMax s))
    as [E | [l1 [i [l2 [El E]]]]]; rewrite E;
    cbn [Selector.mSocketsMax Selector.mSockets].
  - split; [| exact Hp].
    destruct (Z.eqb_spec (Selector.mSocketsMax s) 0) as [Hz | Hz]; [| exact Hm].
    rewrite rescan_spec by lia. lia.
  - rewrite El in Hm, Hp. rewrite max_descriptor_app, max_descriptor_cons in Hm.
    apply Forall_app in Hp as [Hp1 Hp2].
    pose proof (Forall_inv Hp2) as Hi. cbn beta in Hi.
    apply Forall_inv_tail in Hp2.
    pose proof (max_descriptor_nonneg l1). pose proof (max_descriptor_nonneg l2).
    split; [| apply Forall_app; split; assumption].
    rewrite max_descriptor_app.
    destruct (Z.eqb_spec (Socket.getSocket i) (Selector.mSocketsMax s)) as [Hmx | Hmx].
    + change (0 =? 0) with true. cbn iota.
      rewrite rescan_spec, max_descriptor_app by lia. lia.
    + destruct (Z.eqb_spec (Selector.mSocketsMax s) 0) as [Hz | Hz]; lia.
Qed.

Lemma run_tracks_maximum (ops : list Selector.op) (s : Selector.t) :
  Forall Selector.adds_descriptor ops -> Selector.tracks_maximum s ->
  Selector.tracks_maximum (Selector.run ops s).
Proof.
  unfold Selector.run. revert s.
  induction ops as [|o ops IH]; intros s Hops Hs; cbn [fold_left]; [exact Hs |].
  apply IH; [exact (Forall_inv_tail Hops) |].
  pose proof (Forall_inv Hops) as Ho.
  destruct o as [sock | sock]; cbn [Selector.step Selector.adds_descriptor] in *.
  - apply add_tracks_maximum; assumption.
  - apply remove_tracks_maximum; assumption.
Qed.

(** The tracked descriptors follow the operations as the specification
    describes them. *)
Lemma descriptors_add (sock : Socket.t) (s : Selector.t) :
  Selector.descriptors (Selector.add sock s)
  = Selector.descriptors s ++ [Socket.getSocket sock].
Proof.
  unfold Selector.descriptors, Selector.add. cbn [Selector.mSockets].
  rewrite map_app. reflexivity.
Qed.

Lemma descriptors_erase_first (sock : Socket.t) (l : list Socket.t) (m : Z) :
  map Socket.getSocket (fst (Selector.erase_first sock l m))
  = Selector.spec_release (Socket.getSocket sock) (map Socket.getSocket l).
Proof.
  induction l as [|i l IH]; cbn [Selector.erase_first map Selector.spec_release];
    [reflexivity |].
  unfold Socket.eqb, Socket.getSocket in *.
  destruct (Socket.mSocket i =? Socket.mSocket sock); [reflexivity |].
  destruct (Selector.erase_first sock l m) as [l' m'].
  cbn [fst map] in *. f_equal. exact IH.
Qed.

Lemma descriptors_remove (sock : Socket.t) (s : Selector.t) :
  Selector.descriptors (Selector.remove sock s)
  = Selector.spec_release (Socket.getSocket sock) (Selector.descriptors s).
Proof.
  unfold Selector.descriptors, Selector.remove.
  rewrite <- (descriptors_erase_first sock (Selector.mSockets s)
                (Selector.mSocketsMax s)).
  destruct (Selector.erase_first _ _ _) as [l m]. reflexivity.
Qed.

Lemma descriptors_run (ops : list Selector.op) :
  forall s : Selector.t,
    Selector.descriptors (Selector.run ops s)
    = fold_left Selector.spec_step ops (Selector.descriptors s).
Proof.
  unfold Selector.run.
  induction ops as [|o ops IH]; intros s; cbn [fold_left]; [reflexivity |].
  rewrite IH. f_equal.
  destruct o as [sock | sock]; cbn [Selector.step Selector.spec_step].
  - apply descriptors_add.
  - apply descriptors_remove.
Qed.

Lemma fold_max_floor (x : Z) (l : list Z) :
  0 <= x -> fold_right Z.max x l = Z.max x (fold_right Z.max 0 l).
Proof.
  intros Hx. induction l as [|y l IH]; cbn [fold_right]; lia.
Qed.

Lemma spec_highest_floor (l : list Z) :
  Forall (fun x => 0 <= x) l ->
  Selector.spec_highest l = fold_right Z.max 0 l.
Proof.
  intros H. destruct H as [|x l Hx Hl]; cbn [Selector.spec_highest fold_right];
    [reflexivity |].
  apply fold_max_floor. exact Hx.
Qed.

Lemma spec_highest_tracked (l : list Z) :
  l <> [] ->
  In (Selector.spec_highest l) l
  /\ Forall (fun x => x <= Selector.spec_highest l) l.
Proof.
  destruct l as [|x l]; [contradiction |]. intros _.
  cbn [Selector.spec_highest]. revert x.
  induction l as [|y l IH]; intros x; cbn [fold_right].
  - split; [left; reflexivity | constructor; [lia | constructor]].
  - destruct (IH x) as [Hin Hle]. apply Forall_cons_1 in Hle as [Hx Hl].
    split.
    + destruct (Z.max_spec y (fold_right Z.max x l)) as [[_ ->] | [_ ->]].
      * destruct Hin as [<- | Hin]; [left; reflexivity | right; right; exact Hin].
      * right. left. reflexivity.
    + constructor; [lia |]. constructor; [lia |].
      eapply List.Forall_impl; [| exact Hl]. cbn. intros z Hz. lia.
Qed.

Lemma spec_release_sub (fd x : Z) (l : list Z) :
  In x (Selector.spec_release fd l) -> In x l.
Proof.
  induction l as [|y l IH]; cbn [Selector.spec_release]; [intros [] |].
  destruct (y =? fd); [intros H; right; exact H |].
  intros [<- | H]; [left; reflexivity | right; apply IH; exact H].
Qed.

Lemma run_spec (readable writable faulty : option nat) (ops : list Selector.op) :
  Forall Selector.adds_descriptor ops ->
  let s := Selector.run ops (Selector.Selector readable writable faulty) in
  Selector.descriptors s = Selector.spec_tracked ops
  /\ Selector.mSocketsMax s = Selector.spec_highest (Selector.spec_tracked ops)
  /\ Selector.mSocketsMax s = Selector.max_descriptor (Selector.mSockets s).
Proof.
  intros Hops s.
  assert (Hd : Selector.descriptors s = Selector.spec_tracked ops).
  { unfold s. rewrite descriptors_run. reflexivity. }
  destruct (run_tracks_maximum ops (Selector.Selector readable writable faulty)
              Hops) as [Hm Hp]; [split; [reflexivity | constructor] |].
  fold s in Hm, Hp.
  split; [exact Hd |]. split; [| exact Hm].
  rewrite <- Hd, Hm. unfold Selector.descriptors, Selector.max_descriptor.
  symmetry. apply spec_highest_floor.
  apply List.Forall_forall. intros x Hx. apply in_map_iff in Hx as [i [<- Hi]].
  rewrite List.Forall_forall in Hp. apply Hp. exact Hi.
Qed.

(** C9. Start from a new selector and add and remove sockets in any
    order, the added descriptors being the non-negative numbers the OS
    hands out. The tracked descriptors are then the ones the specification
    says are tracked after these operations, in insertion order, and the
    cached [mSocketsMax] is the largest of them, 0 when none is tracked.
    In particular, when the socket holding the cached maximum is removed
    and a socket with a smaller descriptor is added, the tracked
    descriptors are the remaining ones followed by the new one, the cached
    value is their maximum and the descriptor of a tracked socket, and it
    is below the removed value unless another tracked socket still has
    that descriptor. *)
Theorem selector_max_is_maximum (readable writable faulty : option nat)
    (ops : list Selector.op) :
  Forall Selector.adds_descriptor ops ->
  let s := Selector.run ops (Selector.Selector readable writable faulty) in
  Selector.descriptors s = Selector.spec_tracked ops
  /\ Selector.mSocketsMax s = Selector.spec_highest (Selector.spec_tracked ops)
  /\ Selector.mSocketsMax s = Selector.max_descriptor (Selector.mSockets s)
  /\ forall hi lo : Socket.t,
       Socket.getSocket hi = Selector.mSocketsMax s ->
       0 <= Socket.getSocket lo < Socket.getSocket hi ->
       let remaining :=
         Selector.spec_release (Socket.getSocket hi) (Selector.spec_tracked ops) in
       let s' := Selector.add lo (Selector.remove hi s) in
       Selector.descriptors s' = remaining ++ [Socket.getSocket lo]
       /\ Selector.mSocketsMax s'
          = Selector.spec_highest (remaining ++ [Socket.getSocket lo])
       /\ In (Selector.mSocketsMax s') (Selector.descriptors s')
       /\ (~ In (Socket.getSocket hi) remaining ->
           Selector.mSocketsMax s' < Socket.getSocket hi).
Proof.
  intros Hops s.
  destruct (run_spec readable writable faulty ops Hops) as [Hd [Hh Hm]].
  fold s in Hd, Hh, Hm.
  split; [exact Hd |]. split; [exact Hh |]. split; [exact Hm |].
  intros hi lo Hhi Hlo remaining s'.
  assert (Hops' : Forall Selector.adds_descriptor
                    (ops ++ [Selector.Remove hi; Selector.Add lo])).
  { apply Forall_app. split; [exact Hops |].
    constructor; [exact I |]. constructor; [| constructor].
    cbn [Selector.adds_descriptor]. lia. }
  destruct (run_spec readable writable faulty _ Hops') as [Hd' [Hh' _]].
  unfold Selector.run in Hd', Hh'. rewrite fold_left_app in Hd', Hh'.
  cbn [fold_left Selector.step] in Hd', Hh'.
  unfold Selector.spec_tracked in Hd', Hh'. rewrite fold_left_app in Hd', Hh'.
  cbn [fold_left Selector.spec_step] in Hd', Hh'.
  fold (Selector.run ops (Selector.Selector readable writable faulty)) in Hd', Hh'.
  fold s in Hd', Hh'. fold (Selector.spec_tracked ops) in Hd', Hh'.
  fold remaining in Hd', Hh'. fold s' in Hd', Hh'.
  assert (Hne : remaining ++ [Socket.getSocket lo] <> []).
  { intros E. apply app_eq_nil in E as [_ E]. discriminate E. }
  destruct (spec_highest_tracked _ Hne) as [Hin Hle].
  split; [exact Hd' |]. split; [exact Hh' |].
  split; [rewrite Hd', Hh'; exact Hin |].
  intros Hnot. rewrite Hh'.
  assert (Hall : Forall (fun x => x <= Socket.getSocket hi)
                   (Selector.spec_tracked ops)).
  { rewrite Hhi, Hh.
    destruct (Selector.spec_tracked ops) as [|x l] eqn:El; [constructor |].
    apply spec_highest_tracked. discriminate. }
  apply in_app_or in Hin as [Hin | [<- | []]]; [| lia].
  assert (Hx : Selector.spec_highest (remaining ++ [Socket.getSocket lo])
               <= Socket.getSocket hi).
  { rewrite List.Forall_forall in Hall. apply Hall.
    apply (spec_release_sub (Socket.getSocket hi)). exact Hin. }
  destruct (Z.eq_dec (Selector.spec_highest (remaining ++ [Socket.getSocket lo]))
              (Socket.getSocket hi)) as [E | E]; [| lia].
  rewrite E in Hin. contradiction.
Qed.

Lemma selector_max_is_maximum_witness :
  let ops := [Selector.Add (Socket.mk 3 0 0 0); Selector.Add (Socket.mk 7 0 0 0)] in
  let hi := Socket.mk 7 0 0 0 in
  let lo := Socket.mk 5 0 0 0 in
  let s := Selector.run ops (Selector.Selector (Some 0%nat) None None) in
  let s' := Selector.add lo (Selector.remove hi s) in
  (Selector.descriptors s = [3; 7] /\ Selector.mSocketsMax s = 7)
  /\ (Selector.descriptors s' = [3; 5]
      /\ Selector.mSocketsMax s' = 5
      /\ In (Selector.mSocketsMax s') (Selector.descriptors s')
      /\ Selector.mSocketsMax s' < 7).
Proof.
  intros ops hi lo s s'.
  destruct (selector_max_is_maximum (Some 0%nat) None None ops)
    as [Hd [Hh [_ Hs]]].
  - repeat constructor; simpl; lia.
  - split; [split; [exact Hd | exact Hh] |].
    destruct (Hs hi lo) as [Hd' [Hh' [Hin Hlt]]].
    + reflexivity.
    + simpl. lia.
    + split; [exact Hd' |]. split; [exact Hh' |]. split; [exact Hin |].
      apply Hlt. simpl. intros [H | []]. discriminate H.
Defined.

(** The scenario of the stale maximum, run: 7 is removed while it is the
    maximum, 5 is added, and 5 is what stays cached. *)
Example selector_max_not_stale :
  Selector.mSocketsMax
    (Selector.run
       [Selector.Add (Socket.mk 3 0 0 0); Selector.Add (Socket.mk 7 0 0 0);
        Selector.Remove (Socket.mk 7 0 0 0); Selector.Add (Socket.mk 5 0 0 0)]
       (Selector.Selector (Some 0%nat) None None))
  = 5.
Proof. reflexivity. Qed.

(** ** Selector::update *)

Lemma consistent_Selector (readable writable faulty : option nat) :
  Selector.consistent (Selector.Selector readable writable faulty).
Proof. repeat split. Qed.

Lemma consistent_add (sock : Socket.t) (s : Selector.t) :
  Selector.consistent s -> Selector.consistent (Selector.add sock s).
Proof. intros H. exact H. Qed.

Lemma consistent_remove (sock : Socket.t) (s : Selector.t) :
  Selector.consistent s -> Selector.consistent (Selector.remove sock s).
Proof.
  intros H. unfold Selector.remove.
  destruct (Selector.erase_first _ _ _). exact H.
Qed.

Lemma consistent_setters (array : option nat) (s : Selector.t) :
  Selector.consistent s ->
  Selector.consistent (Selector.setWritable array s)
  /\ Selector.consistent (Selector.setReadable array s)
  /\ Selector.consistent (Selector.setFaulty array s).
Proof.
  intros [Hw [Hr Hf]]. repeat split; assumption.
Qed.

Lemma vec_clear_empty (a b : nat) (vs : Selector.vectors) :
  a = b \/ vs a = [] -> Selector.vec_clear b vs a = [].
Proof.
  unfold Selector.vec_clear. intros [-> | H].
  - rewrite Nat.eqb_refl. reflexivity.
  - destruct (Nat.eqb a b); [reflexivity | exact H].
Qed.

Lemma clearTemp_clears (s : Selector.t) (vs : Selector.vectors) (a : nat) :
  Selector.enabled s a -> Selector.clearTemp s vs a = [].
Proof.
  unfold Selector.enabled, Selector.clearTemp. intros H.
  destruct (Selector.mWritable s) as [w|], (Selector.mReadable s) as [r|],
    (Selector.mFaulty s) as [f|];
    destruct H as [H | [H | H]]; try discriminate H; injection H as ->;
    repeat (apply vec_clear_empty; (left; reflexivity) || right);
    try (apply vec_clear_empty; left; reflexivity).
Qed.

Lemma enabled_pointer (s : Selector.t) :
  Selector.consistent s -> (exists a, Selector.enabled s a) ->
  Selector.mFdReadablePointer s || Selector.mFdWritablePointer s
    || Selector.mFdFaultyPointer s = true.
Proof.
  intros [Hw [Hr Hf]] [a [H | [H | H]]]; rewrite Hw, Hr, Hf, H;
    cbn [Selector.non_null]; rewrite ?orb_true_r; reflexivity.
Qed.

(** C8, as the code has it. With no output collection at all, [update]
    returns -2 without calling [::select] and without calling an error
    callback: the return value is the only signal, and it is one that
    [::select], which answers -1 at the lowest, never produces. With at
    least one collection, when [::select] answers 0 (timeout) or -1
    (error), [update] has called it once, passes the answer on, and every
    collection the selector was given is empty. *)
Theorem update_contract
    (select : Z -> option Selector.fd_set -> option Selector.fd_set ->
              option Selector.fd_set -> Z * Z -> Selector.select_answer)
    (s : Selector.t) (vs : Selector.vectors) :
  Selector.consistent s ->
  (Selector.mReadable s = None -> Selector.mWritable s = None ->
   Selector.mFaulty s = None ->
     Selector.update select s vs = (Done (-2, s, vs), []))
  /\ ((exists a, Selector.enabled s a) ->
      (forall n r w f t, -1 <= Selector.ans_ret (select n r w f t)) ->
      forall ret s' vs' ev,
        Selector.update select s vs = (Done (ret, s', vs'), ev) ->
        ret <> -2 /\ ev = [EvSelect (Selector.mSocketsMax s + 1)])
  /\ ((exists a, Selector.enabled s a) ->
      (forall n r w f t, Selector.ans_ret (select n r w f t) <= 0) ->
      exists ret s' vs',
        Selector.update select s vs
        = (Done (ret, s', vs'), [EvSelect (Selector.mSocketsMax s + 1)])
        /\ ret <= 0
        /\ forall a, Selector.enabled s a -> vs' a = []).
Proof.
  intros Hc. split; [| split].
  - intros Hr Hw Hf. destruct Hc as [Hcw [Hcr Hcf]].
    unfold Selector.update. rewrite Hcw, Hcr, Hcf, Hr, Hw, Hf. reflexivity.
  - intros He Hos ret s' vs' ev. unfold Selector.update.
    rewrite (enabled_pointer s Hc He).
    match goal with |- context [Selector.ans_ret ?a] =>
      pose proof (Hos _ _ _ _ _ : -1 <= Selector.ans_ret a) as Ha;
      generalize dependent a end.
    intros a Ha. destruct (Z.leb_spec (Selector.ans_ret a) 0).
    + intros E. inversion E; subst. split; [lia | reflexivity].
    + intros E. apply pair_equal_spec in E as [E <-]. split; [| reflexivity].
      unfold Selector.refill in E.
      cbn [Selector.mWritable Selector.mReadable Selector.mFaulty
           Selector.mFdWritablePointer Selector.mFdReadablePointer
           Selector.mFdFaultyPointer] in E.
      destruct (Selector.mFdWritablePointer s), (Selector.mFdReadablePointer s),
        (Selector.mFdFaultyPointer s), (Selector.mWritable s),
        (Selector.mReadable s), (Selector.mFaulty s);
        cbn [mbind outcome_bind mret outcome_ret] in E;
        try discriminate E; inversion E; lia.
  - intros He Hos. unfold Selector.update.
    rewrite (enabled_pointer s Hc He).
    match goal with |- context [Selector.ans_ret ?a] =>
      pose proof (Hos _ _ _ _ _ : Selector.ans_ret a <= 0) as Ha;
      generalize dependent a end.
    intros a Ha. destruct (Z.leb_spec (Selector.ans_ret a) 0); [| lia].
    eexists _, _, _. split; [reflexivity |]. split; [exact Ha |].
    intros x Hx. apply clearTemp_clears. exact Hx.
Qed.

Lemma update_contract_witness :
  let select := fun (_ : Z) (_ _ _ : option Selector.fd_set) (_ : Z * Z) =>
                  Selector.mkAnswer 0 Selector.FD_ZERO Selector.FD_ZERO
                    Selector.FD_ZERO (0, 0) in
  Selector.update select (Selector.Selector None None None) (fun _ => [])
    = (Done (-2, Selector.Selector None None None, fun _ => []), [])
  /\ exists ret s' vs',
       Selector.update select
         (Selector.add (Socket.mk 3 0 0 0) (Selector.Selector (Some 0%nat) None None))
         (fun _ => [Socket.mk 9 0 0 0])
       = (Done (ret, s', vs'), [EvSelect 4])
       /\ ret <= 0
       /\ forall a,
            Selector.enabled
              (Selector.add (Socket.mk 3 0 0 0)
                 (Selector.Selector (Some 0%nat) None None)) a ->
            vs' a = [].
Proof.
  intros select. split.
  - apply (update_contract select (Selector.Selector None None None) (fun _ => [])).
    + repeat split.
    + reflexivity.
    + reflexivity.
    + reflexivity.
  - apply (update_contract select
             (Selector.add (Socket.mk 3 0 0 0)
                (Selector.Selector (Some 0%nat) None None))
             (fun _ => [Socket.mk 9 0 0 0])).
    + repeat split.
    + exists 0%nat. left. reflexivity.
    + intros. simpl. lia.
Defined.

(** C8, as stated, fails: the misconfigured [update] calls no error
    callback, so nothing is reported. *)
Lemma update_misconfigured_reports_nothing :
  let select := fun (_ : Z) (_ _ _ : option Selector.fd_set) (_ : Z * Z) =>
                  Selector.mkAnswer 0 Selector.FD_ZERO Selector.FD_ZERO
                    Selector.FD_ZERO (0, 0) in
  ~ exists e,
      In e (snd (Selector.update select (Selector.Selector None None None)
                   (fun _ => [])))
      /\ is_error_report e = true.
Proof.
  intros select [e [Hin _]]. exact Hin.
Qed.

(** * Further properties of the code *)

(** ** Packet: what the constructor can return *)

(** X1. Whatever type and data it is given, the constructor returns a packet
    that it would build again, silently, from that packet's own type and
    data; its size is the data length plus the 4 header bytes and stays
    within [maxSize]; a packet of type [EMPTY_PACKET_TYPE] carries no data;
    and the only thing it ever reports is one [ERROR_PACKET_TOO_BIG],
    together with the empty packet. *)
Theorem Packet_ctor_invariant maxSize EMPTY type (data : list byte) :
  4 <= maxSize <= 65535 -> 0 <= type < 65536 -> 0 <= EMPTY < 65536 ->
  let p := fst (Packet.Packet maxSize EMPTY type data) in
  let ev := snd (Packet.Packet maxSize EMPTY type data) in
  Packet.valid maxSize EMPTY p
  /\ Packet.getSize p = Z.of_nat (length (Packet.getData p)) + 4
  /\ Packet.getSize p <= maxSize
  /\ (Packet.getType p = EMPTY -> Packet.getData p = [])
  /\ (ev = []
      \/ ev = [EvCommonError ERROR_PACKET_TOO_BIG] /\ p = Packet.mk EMPTY 4 []).
Proof.
  intros Hm Ht He p ev.
  assert (Hempty : Packet.valid maxSize EMPTY (Packet.mk EMPTY 4 [])).
  { split; [exact He |]. unfold Packet.Packet. cbn [Packet.mType Packet.mData].
    rewrite Z.eqb_refl. reflexivity. }
  unfold p, ev, Packet.Packet, Packet.getSize, Packet.getData, Packet.getType.
  destruct (Z.eqb_spec type EMPTY) as [-> | Hne].
  - cbn [fst snd Packet.empty Packet.mSize Packet.mData Packet.mType length].
    split; [exact Hempty |]. split; [reflexivity |]. split; [lia |].
    split; [reflexivity |]. left. reflexivity.
  - change (2 * 2) with 4. rewrite size_t_wrap_small by lia.
    destruct (Z.ltb_spec (maxSize - 4) (Z.of_nat (length data))) as [Hbig | Hok].
    + cbn [fst snd Packet.empty Packet.mSize Packet.mData Packet.mType length].
      split; [exact Hempty |]. split; [reflexivity |]. split; [lia |].
      split; [reflexivity |]. right. split; reflexivity.
    + cbn [fst snd Packet.mSize Packet.mData Packet.mType].
      rewrite uint16_wrap_small by lia.
      split; [apply valid_mk; assumption |]. split; [reflexivity |].
      split; [lia |]. split; [intros E; contradiction |]. left. reflexivity.
Qed.

Lemma Packet_ctor_invariant_witness :
  let p := fst (Packet.Packet 16 65535 7 (replicate 13 x41)) in
  let ev := snd (Packet.Packet 16 65535 7 (replicate 13 x41)) in
  Packet.valid 16 65535 p
  /\ Packet.getSize p = Z.of_nat (length (Packet.getData p)) + 4
  /\ Packet.getSize p <= 16
  /\ (Packet.getType p = 65535 -> Packet.getData p = [])
  /\ (ev = []
      \/ ev = [EvCommonError ERROR_PACKET_TOO_BIG] /\ p = Packet.mk 65535 4 []).
Proof.
  apply (Packet_ctor_invariant 16 65535 7 (replicate 13 x41)); lia.
Defined.

(** ** TcpSocket::send: what reaches the stream *)

Lemma send_loop_prefix (fd : Z) (data : list byte) (os : list os_send) :
  forall bytesSent out ev r,
    0 <= bytesSent <= Z.of_nat (length data) ->
    TcpSocket.send_loop fd data bytesSent (Z.of_nat (length data) - bytesSent) os
    = (out, ev, r) ->
    exists rest,
      drop (Z.to_nat bytesSent) data = out ++ rest
      /\ match r with
         | SendDone _ => rest = [] /\ ev = []
         | SendFailed => rest <> [] /\ ev = [EvSocketError fd ERROR_SOCKET_SEND]
         | SendBlocked => rest <> [] /\ ev = []
         end.
Proof.
  assert (Hne : forall b, 0 <= b < Z.of_nat (length data) ->
                          drop (Z.to_nat b) data <> []).
  { intros b Hb E. apply (f_equal length) in E.
    rewrite length_drop in E. cbn [length] in E. lia. }
  induction os as [|o os IH]; intros bytesSent out ev r Hb E;
    cbn [TcpSocket.send_loop] in E;
    destruct (Z.ltb_spec bytesSent (Z.of_nat (length data))) as [Hlt | Hge].
  - injection E as <- <- <-. eexists. split; [reflexivity |].
    split; [apply Hne; lia | reflexivity].
  - injection E as <- <- <-. exists []. split; [| split; reflexivity].
    rewrite drop_ge by lia. reflexivity.
  - destruct o as [n |].
    + set (c := Z.min (Z.of_nat n) (Z.of_nat (length data) - bytesSent)) in *.
      replace (Z.of_nat (length data) - bytesSent - c)
        with (Z.of_nat (length data) - (bytesSent + c)) in E by lia.
      destruct (TcpSocket.send_loop fd data (bytesSent + c) _ os)
        as [[out' ev'] r'] eqn:E'.
      injection E as <- <- <-.
      apply IH in E' as [rest [Hd Hr]]; [| lia].
      exists rest. split; [| exact Hr].
      rewrite <- app_assoc, <- Hd.
      replace (Z.to_nat (bytesSent + c))
        with (Z.to_nat bytesSent + Z.to_nat c)%nat by lia.
      rewrite <- drop_drop. symmetry. apply take_drop.
    + injection E as <- <- <-. eexists. split; [reflexivity |].
      split; [apply Hne; lia | reflexivity].
  - injection E as <- <- <-. exists []. split; [| split; reflexivity].
    rewrite drop_ge by lia. reflexivity.
Qed.

(** X2. However the OS splits the writes and wherever it fails, what [send]
    has put on the stream is a prefix of the serialized packet (length,
    type, data). It is the whole of it exactly when [send] runs to its end,
    and then nothing is reported; when a [::send] fails, the rest is never
    sent and exactly one [ERROR_SOCKET_SEND] is reported. *)
Theorem send_emits_prefix_of_wire (sock : Socket.t) (packet : Packet.t)
    (os : list os_send) :
  let '(out, ev, r) := TcpSocket.send sock packet os in
  exists rest,
    TcpSocket.wire packet = out ++ rest
    /\ match r with
       | SendDone _ => rest = [] /\ ev = []
       | SendFailed =>
           rest <> []
           /\ ev = [EvSocketError (Socket.getSocket sock) ERROR_SOCKET_SEND]
       | SendBlocked => rest <> [] /\ ev = []
       end.
Proof.
  unfold TcpSocket.send, TcpSocket.wire.
  set (fd := Socket.getSocket sock).
  set (h1 := htons (Packet.getSize packet)).
  set (h2 := htons (Packet.getType packet)).
  set (d := Packet.getData packet).
  assert (Hnil : forall (a b : list byte), a <> [] -> a ++ b <> []).
  { intros a b Ha E. apply app_eq_nil in E as [E _]. contradiction. }
  destruct (TcpSocket.send_loop fd h1 0 2 os) as [[out1 ev1] r1] eqn:E1.
  change 2 with (Z.of_nat (length h1) - 0) in E1.
  apply send_loop_prefix in E1 as [rest1 [H1 R1]]; [| cbn [length]; lia].
  change (Z.to_nat 0) with 0%nat in H1. rewrite drop_0 in H1.
  destruct r1 as [os1 | |].
  - destruct R1 as [-> ->]. rewrite app_nil_r in H1. subst out1.
    destruct (TcpSocket.send_loop fd h2 0 2 os1) as [[out2 ev2] r2] eqn:E2.
    change 2 with (Z.of_nat (length h2) - 0) in E2.
    apply send_loop_prefix in E2 as [rest2 [H2 R2]]; [| cbn [length]; lia].
    change (Z.to_nat 0) with 0%nat in H2. rewrite drop_0 in H2.
    destruct r2 as [os2 | |].
    + destruct R2 as [-> ->]. rewrite app_nil_r in H2. subst out2.
      destruct (TcpSocket.send_loop fd d 0 _ os2) as [[out3 ev3] r3] eqn:E3.
      rewrite <- (Z.sub_0_r (Z.of_nat (length d))) in E3.
      apply send_loop_prefix in E3 as [rest3 [H3 R3]]; [| lia].
      change (Z.to_nat 0) with 0%nat in H3. rewrite drop_0 in H3.
      exists rest3. split; [rewrite H3, <- !app_assoc; reflexivity |].
      cbn [app]. exact R3.
    + destruct R2 as [Hr ->]. exists (rest2 ++ d).
      split; [rewrite H2, <- !app_assoc; reflexivity |].
      split; [apply Hnil; exact Hr | reflexivity].
    + destruct R2 as [Hr ->]. exists (rest2 ++ d).
      split; [rewrite H2, <- !app_assoc; reflexivity |].
      split; [apply Hnil; exact Hr | reflexivity].
  - destruct R1 as [Hr ->]. exists (rest1 ++ h2 ++ d).
    split; [rewrite H1, <- !app_assoc; reflexivity |].
    split; [apply Hnil; exact Hr | reflexivity].
  - destruct R1 as [Hr ->]. exists (rest1 ++ h2 ++ d).
    split; [rewrite H1, <- !app_assoc; reflexivity |].
    split; [apply Hnil; exact Hr | reflexivity].
Qed.

(** ** buildPackets: what a returning call leaves behind *)

Lemma peek_Done (buf : list byte) (i : Z) (b : byte) :
  PacketBuffer.peek buf i = Done b -> 0 <= i /\ buf !! Z.to_nat i = Some b.
Proof.
  unfold PacketBuffer.peek. destruct (Z.ltb_spec i 0); [discriminate |].
  destruct (buf !! Z.to_nat i) as [b' |]; [| discriminate].
  intros E. injection E as ->. split; [lia | reflexivity].
Qed.

Lemma shift_loop_length (n : nat) (packetSize stored : Z) :
  forall (buf : list byte) i buf',
    PacketBuffer.shift_loop n buf packetSize stored i = Done buf' ->
    length buf' = length buf.
Proof.
  induction n as [|n IH]; intros buf i buf' E; cbn [PacketBuffer.shift_loop] in E;
    destruct (i <? stored); try discriminate E; try (injection E as <-; reflexivity).
  destruct (PacketBuffer.peek buf i) as [b | |]; try discriminate E.
  cbn [mbind outcome_bind] in E. unfold PacketBuffer.poke in E.
  destruct (_ && _); [| discriminate E]. cbn [mbind outcome_bind] in E.
  apply IH in E. rewrite E. apply length_insert.
Qed.

Lemma memset0_length (buf buf' : list byte) (off n : Z) :
  PacketBuffer.memset0 buf off n = Done buf' -> length buf' = length buf.
Proof.
  unfold PacketBuffer.memset0. destruct (Z.leb_spec n 0).
  - intros E. injection E as <-. reflexivity.
  - destruct (Z.leb_spec 0 off); [| discriminate].
    destruct (Z.leb_spec (off + n) (Z.of_nat (length buf))); [| discriminate].
    cbn [andb]. intros E. injection E as <-.
    rewrite !length_app, length_take, length_replicate, length_drop. lia.
Qed.

Lemma incomplete_short (l : list byte) :
  (length l < 2)%nat -> PacketBuffer.incomplete l.
Proof.
  destruct l as [|a [|b l]]; cbn [length PacketBuffer.incomplete]; intros H;
    try exact I. lia.
Qed.

Lemma Packet_ctor_valid maxSize EMPTY type (data : list byte) :
  4 <= maxSize <= 65535 -> 0 <= type < 65536 -> 0 <= EMPTY < 65536 ->
  Packet.valid maxSize EMPTY (fst (Packet.Packet maxSize EMPTY type data)).
Proof.
  intros Hm Ht He.
  assert (Hempty : Packet.valid maxSize EMPTY (Packet.mk EMPTY 4 [])).
  { split; [exact He |]. unfold Packet.Packet. cbn [Packet.mType Packet.mData].
    rewrite Z.eqb_refl. reflexivity. }
  unfold Packet.Packet. destruct (Z.eqb_spec type EMPTY) as [-> | Hne];
    [exact Hempty |].
  change (2 * 2) with 4. rewrite size_t_wrap_small by lia.
  destruct (Z.ltb_spec (maxSize - 4) (Z.of_nat (length data))); [exact Hempty |].
  cbn [fst]. rewrite uint16_wrap_small by lia. apply valid_mk; assumption.
Qed.

Lemma build_loop_post maxSize EMPTY (fuel n : nat) :
  4 <= maxSize <= 65535 -> 0 <= EMPTY < 65536 ->
  forall buf stored q ev buf' stored' q' ev',
    0 <= stored ->
    PacketBuffer.build_loop maxSize EMPTY fuel n buf stored q ev
    = Done (buf', stored', q', ev') ->
    length buf' = length buf
    /\ 0 <= stored' <= stored
    /\ PacketBuffer.incomplete (take (Z.to_nat stored') buf')
    /\ exists new e,
         q' = q ++ new /\ ev' = ev ++ e
         /\ Forall (Packet.valid maxSize EMPTY) new
         /\ (length e <= length new)%nat.
Proof.
  intros Hm He.
  assert (Hstop : forall (buf : list byte) stored q ev,
             0 <= stored ->
             PacketBuffer.incomplete (take (Z.to_nat stored) buf) ->
             length buf = length buf
             /\ 0 <= stored <= stored
             /\ PacketBuffer.incomplete (take (Z.to_nat stored) buf)
             /\ exists (new : list Packet.t) (e : list Event),
                  q = q ++ new /\ ev = ev ++ e
                  /\ Forall (Packet.valid maxSize EMPTY) new
                  /\ (length e <= length new)%nat).
  { intros buf stored q ev Hs Hi. split; [reflexivity |]. split; [lia |].
    split; [exact Hi |]. exists [], []. rewrite !app_nil_r.
    repeat split; try reflexivity. constructor. }
  induction fuel as [|fuel IH]; intros buf stored q ev buf' stored' q' ev' Hs E;
    cbn [PacketBuffer.build_loop] in E.
  - destruct (Z.ltb_spec stored 2); [| discriminate E].
    injection E as <- <- <- <-. apply Hstop; [exact Hs |].
    apply incomplete_short. rewrite length_take. lia.
  - destruct (Z.ltb_spec stored 2).
    { injection E as <- <- <- <-. apply Hstop; [exact Hs |].
      apply incomplete_short. rewrite length_take. lia. }
    destruct (PacketBuffer.peek buf 0) as [b0 | |] eqn:P0; try discriminate E.
    destruct (PacketBuffer.peek buf 1) as [b1 | |] eqn:P1; try discriminate E.
    cbn [mbind outcome_bind] in E.
    pose proof (ntohs_range b0 b1) as Hr.
    destruct (Z.leb_spec (ntohs b0 b1) stored).
    + destruct (PacketBuffer.read_data _ _ _) as [data | |]; try discriminate E.
      cbn [mbind outcome_bind] in E.
      destruct (PacketBuffer.peek buf 2) as [t0 | |]; try discriminate E.
      destruct (PacketBuffer.peek buf 3) as [t1 | |]; try discriminate E.
      cbn [mbind outcome_bind] in E.
      pose proof (Packet_ctor_valid maxSize EMPTY (ntohs t0 t1) data Hm
                    (ntohs_range t0 t1) He) as Hpv.
      pose proof (Packet_events maxSize EMPTY (ntohs t0 t1) data) as Hpe.
      assert (Hpl : (length (snd (Packet.Packet maxSize EMPTY (ntohs t0 t1) data))
                     <= 1)%nat).
      { unfold Packet.Packet. destruct (_ =? _); [cbn; lia |].
        destruct (_ <? _); cbn; lia. }
      destruct (Packet.Packet maxSize EMPTY (ntohs t0 t1) data) as [p e0].
      cbn [fst snd] in Hpv, Hpl.
      destruct (PacketBuffer.shift_loop _ _ _ _ _) as [buf1 | |] eqn:Es;
        try discriminate E.
      cbn [mbind outcome_bind] in E.
      destruct (PacketBuffer.memset0 _ _ _) as [buf2 | |] eqn:Em;
        try discriminate E.
      cbn [mbind outcome_bind] in E.
      apply shift_loop_length in Es. apply memset0_length in Em.
      apply IH in E; [| lia].
      destruct E as [Hl [Hst [Hi [new [e [-> [-> [Hv Hle]]]]]]]].
      split; [congruence |]. split; [lia |]. split; [exact Hi |].
      exists (p :: new), (e0 ++ e). rewrite <- !app_assoc. cbn [app].
      split; [reflexivity |]. split; [reflexivity |].
      split; [constructor; assumption |].
      rewrite length_app; cbn [length]; lia.
    + injection E as <- <- <- <-. apply Hstop; [exact Hs |].
      apply peek_Done in P0 as [_ P0]. apply peek_Done in P1 as [_ P1].
      destruct buf as [|x [|y buf]]; try discriminate P0; try discriminate P1.
      cbn in P0, P1. injection P0 as ->. injection P1 as ->.
      replace (Z.to_nat stored) with (S (S (Z.to_nat (stored - 2)))) by lia.
      cbn [take PacketBuffer.incomplete length].
      rewrite length_take. lia.
Qed.

(** X4. When [buildPackets] returns, no whole packet is left in the buffer:
    fewer than 2 bytes are stored, or fewer than the length field at offset
    0 announces. The block keeps its size, the capacity is unchanged, and
    the stored count is at most what was stored plus what was received. *)
Theorem buildPackets_leaves_incomplete maxSize EMPTY (fuel : nat) (n : Z)
    (pb : PacketBuffer.t) (buf : list byte) :
  4 <= maxSize <= 65535 -> 0 <= EMPTY < 65536 ->
  PacketBuffer.getBuffer pb = Some buf ->
  match PacketBuffer.buildPackets maxSize EMPTY fuel n pb with
  | Done (pb', e) =>
      exists buf',
        PacketBuffer.getBuffer pb' = Some buf'
        /\ length buf' = length buf
        /\ PacketBuffer.getSize pb' = PacketBuffer.getSize pb
        /\ 0 <= PacketBuffer.getCurrentSize pb'
             <= size_t_wrap (PacketBuffer.getCurrentSize pb + n)
        /\ PacketBuffer.incomplete
             (take (Z.to_nat (PacketBuffer.getCurrentSize pb')) buf')
  | _ => True
  end.
Proof.
  unfold PacketBuffer.getBuffer, PacketBuffer.getSize, PacketBuffer.getCurrentSize.
  intros Hm He Hb. unfold PacketBuffer.buildPackets. rewrite Hb.
  destruct (PacketBuffer.build_loop _ _ _ _ _ _ _ _)
    as [[[[buf' stored'] q'] ev'] | |] eqn:El;
    cbn [mbind outcome_bind mret outcome_ret]; try exact I.
  apply build_loop_post in El; try assumption.
  - destruct El as [Hl [Hs [Hi _]]]. exists buf'.
    cbn [PacketBuffer.mBuffer PacketBuffer.mSize PacketBuffer.mCurrentlyStoredBytes].
    repeat split; try assumption; lia.
  - unfold size_t_wrap. apply Z.mod_pos_bound. lia.
Qed.

Lemma buildPackets_leaves_incomplete_witness :
  match
    PacketBuffer.buildPackets 16 65535 16 9
      (PacketBuffer.mk
         (Some [x00; x05; x00; x07; x41; x00; x06; x00; x08; x00; x00; x00])
         12 0 [])
  with
  | Done (pb', e) =>
      exists buf',
        PacketBuffer.getBuffer pb' = Some buf'
        /\ length buf'
           = length [x00; x05; x00; x07; x41; x00; x06; x00; x08; x00; x00; x00]
        /\ PacketBuffer.getSize pb'
           = PacketBuffer.getSize
               (PacketBuffer.mk
                  (Some [x00; x05; x00; x07; x41; x00; x06; x00; x08; x00; x00; x00])
                  12 0 [])
        /\ 0 <= PacketBuffer.getCurrentSize pb'
             <= size_t_wrap
                  (PacketBuffer.getCurrentSize
                     (PacketBuffer.mk
                        (Some [x00; x05; x00; x07; x41; x00; x06; x00; x08; x00; x00; x00])
                        12 0 []) + 9)
        /\ PacketBuffer.incomplete
             (take (Z.to_nat (PacketBuffer.getCurrentSize pb')) buf')
  | _ => True
  end.
Proof.
  apply (buildPackets_leaves_incomplete 16 65535 16 9
           (PacketBuffer.mk
              (Some [x00; x05; x00; x07; x41; x00; x06; x00; x08; x00; x00; x00])
              12 0 [])
           [x00; x05; x00; x07; x41; x00; x06; x00; x08; x00; x00; x00]).
  - lia.
  - lia.
  - reflexivity.
Defined.

Lemma build_loop_appends maxSize EMPTY (fuel n : nat) :
  forall buf stored q ev buf' stored' q' ev',
    PacketBuffer.build_loop maxSize EMPTY fuel n buf stored q ev
    = Done (buf', stored', q', ev') ->
    exists new e,
      q' = q ++ new /\ ev' = ev ++ e
      /\ (length e <= length new)%nat
      /\ Forall (fun p => exists type data,
                   0 <= type < 65536
                   /\ p = fst (Packet.Packet maxSize EMPTY type data)) new.
Proof.
  assert (Hstop : forall (q : list Packet.t) (ev : list Event),
             exists (new : list Packet.t) (e : list Event),
               q = q ++ new /\ ev = ev ++ e
               /\ (length e <= length new)%nat
               /\ Forall (fun p => exists type data,
                            0 <= type < 65536
                            /\ p = fst (Packet.Packet maxSize EMPTY type data))
                         new).
  { intros q ev. exists [], []. rewrite !app_nil_r.
    split; [reflexivity |]. split; [reflexivity |].
    split; [reflexivity | constructor]. }
  induction fuel as [|fuel IH]; intros buf stored q ev buf' stored' q' ev' E;
    cbn [PacketBuffer.build_loop] in E.
  - destruct (Z.ltb_spec stored 2); [| discriminate E].
    injection E as <- <- <- <-. apply Hstop.
  - destruct (Z.ltb_spec stored 2).
    { injection E as <- <- <- <-. apply Hstop. }
    destruct (PacketBuffer.peek buf 0) as [b0 | |]; try discriminate E.
    destruct (PacketBuffer.peek buf 1) as [b1 | |]; try discriminate E.
    cbn [mbind outcome_bind] in E.
    destruct (Z.leb_spec (ntohs b0 b1) stored).
    + destruct (PacketBuffer.read_data _ _ _) as [data | |]; try discriminate E.
      cbn [mbind outcome_bind] in E.
      destruct (PacketBuffer.peek buf 2) as [t0 | |]; try discriminate E.
      destruct (PacketBuffer.peek buf 3) as [t1 | |]; try discriminate E.
      cbn [mbind outcome_bind] in E.
      assert (Hpl : (length (snd (Packet.Packet maxSize EMPTY (ntohs t0 t1) data))
                     <= 1)%nat).
      { unfold Packet.Packet. destruct (_ =? _); [cbn; lia |].
        destruct (_ <? _); cbn; lia. }
      assert (Hpc : exists type data',
                 0 <= type < 65536
                 /\ fst (Packet.Packet maxSize EMPTY (ntohs t0 t1) data)
                    = fst (Packet.Packet maxSize EMPTY type data')).
      { exists (ntohs t0 t1), data. split; [apply ntohs_range | reflexivity]. }
      destruct (Packet.Packet maxSize EMPTY (ntohs t0 t1) data) as [p e0].
      cbn [fst snd] in Hpc, Hpl.
      destruct (PacketBuffer.shift_loop _ _ _ _ _) as [buf1 | |];
        try discriminate E.
      cbn [mbind outcome_bind] in E.
      destruct (PacketBuffer.memset0 _ _ _) as [buf2 | |]; try discriminate E.
      cbn [mbind outcome_bind] in E.
      apply IH in E. destruct E as [new [e [-> [-> [Hle Hc]]]]].
      exists (p :: new), (e0 ++ e). rewrite <- !app_assoc. cbn [app].
      split; [reflexivity |]. split; [reflexivity |].
      split; [rewrite length_app; cbn [length]; lia |].
      constructor; assumption.
    + injection E as <- <- <- <-. apply Hstop.
Qed.

(** X5. [buildPackets] never drops or reorders what is pending: whatever
    [Packet::maxSize] is, the queue it leaves is the queue it found
    followed by the packets it built, each of them a packet the [Packet]
    constructor returned for a 16-bit type, and it reports at most one
    [ERROR_PACKET_TOO_BIG] per packet built and nothing else. When
    [Packet::maxSize] is at least the 4 header bytes (and both statics are
    16-bit values) every packet it built is well formed. *)
Theorem buildPackets_appends maxSize EMPTY (fuel : nat) (n : Z)
    (pb : PacketBuffer.t) :
  match PacketBuffer.buildPackets maxSize EMPTY fuel n pb with
  | Done (pb', e) =>
      exists new,
        PacketBuffer.mStoredPackets pb' = PacketBuffer.mStoredPackets pb ++ new
        /\ (length e <= length new)%nat
        /\ Forall (fun x => x = EvCommonError ERROR_PACKET_TOO_BIG) e
        /\ Forall (fun p => exists type data,
                     0 <= type < 65536
                     /\ p = fst (Packet.Packet maxSize EMPTY type data)) new
        /\ (4 <= maxSize <= 65535 -> 0 <= EMPTY < 65536 ->
            Forall (Packet.valid maxSize EMPTY) new)
  | _ => True
  end.
Proof.
  destruct (PacketBuffer.buildPackets maxSize EMPTY fuel n pb)
    as [[pb' e] | |] eqn:E; try exact I.
  pose proof (buildPackets_done _ _ _ _ _ _ _ E) as [_ [_ Hev]].
  unfold PacketBuffer.buildPackets in E.
  destruct (PacketBuffer.mBuffer pb) as [buf |].
  - destruct (PacketBuffer.build_loop _ _ _ _ _ _ _ _)
      as [[[[buf' stored'] q'] ev'] | |] eqn:El; try discriminate E.
    cbn [mbind outcome_bind mret outcome_ret] in E. injection E as <- <-.
    apply build_loop_appends in El.
    destruct El as [new [e [-> [-> [Hle Hc]]]]].
    exists new. cbn [PacketBuffer.mStoredPackets app] in *.
    split; [reflexivity |]. split; [exact Hle |].
    split; [apply List.Forall_forall; exact Hev |].
    split; [exact Hc |].
    intros Hm He. eapply List.Forall_impl; [| exact Hc].
    cbn. intros p [type [data [Ht ->]]].
    apply Packet_ctor_valid; assumption.
  - destruct (_ <? 2); [| discriminate E]. injection E as <- <-.
    exists []. cbn [PacketBuffer.mStoredPackets]. rewrite app_nil_r.
    split; [reflexivity |]. split; [reflexivity |].
    split; [constructor |]. split; [constructor |]. intros _ _. constructor.
Qed.

Lemma buildPackets_appends_witness :
  let pb :=
    PacketBuffer.mk
      (Some [x00; x05; x00; x07; x41; x00; x06; x00; x08; x00; x00; x00])
      12 0 [Packet.mk 1 4 []] in
  match PacketBuffer.buildPackets 16 65535 16 9 pb with
  | Done (pb', e) =>
      exists new,
        PacketBuffer.mStoredPackets pb' = PacketBuffer.mStoredPackets pb ++ new
        /\ (length e <= length new)%nat
        /\ Forall (fun x => x = EvCommonError ERROR_PACKET_TOO_BIG) e
        /\ Forall (Packet.valid 16 65535) new
  | _ => False
  end.
Proof.
  intros pb.
  pose proof (buildPackets_appends 16 65535 16 9 pb) as H.
  destruct (PacketBuffer.buildPackets 16 65535 16 9 pb) as [[pb' e] | |] eqn:E.
  - destruct H as [new [H1 [H2 [H3 [_ H5]]]]]. exists new.
    split; [exact H1 |]. split; [exact H2 |]. split; [exact H3 |].
    apply H5; lia.
  - vm_compute in E. discriminate E.
  - vm_compute in E. discriminate E.
Defined.

(** ** Batching *)

Lemma buildPackets_batch_witness :
  exists mem,
    PacketBuffer.buildPackets 16 65535 16
      (Z.of_nat (length (concat (map TcpSocket.wire
                                   [Packet.mk 7 5 [x41]; Packet.mk 65535 4 []])
                         ++ [x00; x06; x00])))
      (PacketBuffer.mk
         (Some ((concat (map TcpSocket.wire
                           [Packet.mk 7 5 [x41]; Packet.mk 65535 4 []])
                 ++ [x00; x06; x00]) ++ [xff; xff; xff; xff]))
         16 0 [Packet.mk 1 4 []])
    = Done (PacketBuffer.mk (Some mem) 16 (Z.of_nat (length [x00; x06; x00]))
              ([Packet.mk 1 4 []] ++ [Packet.mk 7 5 [x41]; Packet.mk 65535 4 []]),
            [])
    /\ length mem
       = length ((concat (map TcpSocket.wire
                            [Packet.mk 7 5 [x41]; Packet.mk 65535 4 []])
                  ++ [x00; x06; x00]) ++ [xff; xff; xff; xff])
    /\ take (length [x00; x06; x00]) mem = [x00; x06; x00].
Proof.
  apply (buildPackets_batch 16 65535 [Packet.mk 7 5 [x41]; Packet.mk 65535 4 []]
           [x00; x06; x00] [xff; xff; xff; xff] 16 [Packet.mk 1 4 []] 16).
  - lia.
  - repeat constructor; simpl; lia.
  - simpl. vm_compute. reflexivity.
  - simpl. lia.
  - simpl. lia.
  - simpl. lia.
Defined.

(** ** TcpSocket::receive: how a call can end *)

(** X6. A stream receive never hands [buildPackets] a count that is not
    positive, nor one above the [getSize() / 2] it asked for. It returns in
    one of two ways only: with at least one packet pending and no socket
    error reported, or right after reporting one socket error, a hang-up or
    a receive failure, which is then the last event of the call and the
    only socket error. *)
Theorem tcp_receive_outcomes maxSize EMPTY (fuel : nat) (sock : Socket.t)
    (os : list os_read) (buffer : PacketBuffer.t) :
  let no_socket_error :=
    Forall (fun e => match e with EvSocketError _ _ => False | _ => True end) in
  let '(ev, r) := TcpSocket.receive maxSize EMPTY fuel sock os buffer in
  (forall k, In (EvBuildPackets k) ev ->
             0 < k <= PacketBuffer.getSize buffer / 2)
  /\ (forall buffer',
        r = Done (Returned, buffer') ->
        (PacketBuffer.isPacketsStored buffer' = true /\ no_socket_error ev)
        \/ exists pre c,
             ev = pre ++ [EvSocketError (Socket.getSocket sock) c]
             /\ (c = ERROR_SOCKET_HANGUP \/ c = ERROR_SOCKET_RECEIVE)
             /\ no_socket_error pre).
Proof.
  intros nse. revert buffer.
  assert (Hce : forall e : list Event,
             (forall x, In x e -> x = EvCommonError ERROR_PACKET_TOO_BIG) ->
             nse e /\ forall k, ~ In (EvBuildPackets k) e).
  { intros e He. split.
    - apply List.Forall_forall. intros x Hx. rewrite (He x Hx). exact I.
    - intros k Hk. apply He in Hk. discriminate Hk. }
  induction os as [|o os IH]; intros buffer; cbn [TcpSocket.receive].
  - split.
    + intros k [H | []]. discriminate H.
    + intros buffer' H. discriminate H.
  - destruct o as [bs |].
    + set (got := take (Z.to_nat (PacketBuffer.getSize buffer / 2)) bs).
      assert (Hgot : Z.of_nat (length got) <> 0 ->
                     0 < Z.of_nat (length got) <= PacketBuffer.getSize buffer / 2).
      { intros Hnz. subst got. rewrite length_take in *. lia. }
      destruct (Z.eqb_spec (Z.of_nat (length got)) 0) as [Hz | Hnz].
      * split.
        -- intros k [H | [H | []]]; discriminate H.
        -- intros buffer' _. right.
           exists [EvRecv (Socket.getSocket sock)
                     (PacketBuffer.getCurrentSize buffer)
                     (PacketBuffer.getSize buffer / 2)], ERROR_SOCKET_HANGUP.
           split; [reflexivity |]. split; [left; reflexivity |].
           repeat constructor.
      * specialize (Hgot Hnz).
        destruct (PacketBuffer.received _ _ _ _ _) as [[buffer1 e] | |] eqn:E.
        -- apply received_done in E as [Hsz [_ He]].
           apply Hce in He as [Hnse Hnb].
           destruct (PacketBuffer.isPacketsStored buffer1) eqn:Hst.
           ++ split.
              ** cbn [app]. intros k [H | [H | H]]; [discriminate H | |].
                 --- injection H as <-. exact Hgot.
                 --- exfalso. exact (Hnb k H).
              ** intros buffer' H. injection H as <-. left.
                 split; [exact Hst |]. cbn [app].
                 repeat (constructor; [exact I |]). exact Hnse.
           ++ specialize (IH buffer1).
              destruct (TcpSocket.receive _ _ _ _ _ buffer1) as [ev' r'].
              destruct IH as [IHk IHr]. split.
              ** cbn [app]. intros k [H | [H | H]]; [discriminate H | |].
                 --- injection H as <-. exact Hgot.
                 --- apply in_app_or in H as [H | H]; [exfalso; exact (Hnb k H) |].
                     unfold PacketBuffer.getSize in *. rewrite <- Hsz.
                     apply IHk. exact H.
              ** intros buffer' H. apply IHr in H as [[H1 H2] | [pre [c [-> [Hc Hp]]]]].
                 --- left. split; [exact H1 |]. cbn [app].
                     repeat (constructor; [exact I |]).
                     apply Forall_app. split; assumption.
                 --- right.
                     exists ([EvRecv (Socket.getSocket sock)
                                (PacketBuffer.getCurrentSize buffer)
                                (PacketBuffer.getSize buffer / 2);
                              EvBuildPackets (Z.of_nat (length got))]
                             ++ e ++ pre), c.
                     split; [rewrite <- !app_assoc; reflexivity |].
                     split; [exact Hc |]. cbn [app].
                     repeat (constructor; [exact I |]).
                     apply Forall_app. split; assumption.
        -- split.
           ++ intros k [H | [H | []]]; [discriminate H |].
              injection H as <-. exact Hgot.
           ++ intros buffer' H. discriminate H.
        -- split.
           ++ intros k [H | [H | []]]; [discriminate H |].
              injection H as <-. exact Hgot.
           ++ intros buffer' H. discriminate H.
    + split.
      * intros k [H | [H | []]]; discriminate H.
      * intros buffer' _. right.
        exists [EvRecv (Socket.getSocket sock)
                  (PacketBuffer.getCurrentSize buffer)
                  (PacketBuffer.getSize buffer / 2)], ERROR_SOCKET_RECEIVE.
        split; [reflexivity |]. split; [right; reflexivity |].
        repeat constructor.
Qed.

(** X7. A buffer constructed below [Packet::maxSize] has capacity 0, so a
    stream receive on it asks the OS for 0 bytes: unless the read fails,
    the call reports a hang-up that did not happen and returns, the buffer
    untouched. *)
Theorem tcp_receive_on_undersized_buffer maxSize EMPTY (fuel : nat)
    (sock : Socket.t) (bs : list byte) (os : list os_read)
    (fresh : nat -> byte) (size : Z) :
  size < maxSize ->
  let buffer := fst (PacketBuffer.PacketBuffer maxSize fresh size) in
  TcpSocket.receive maxSize EMPTY fuel sock (ReadData bs :: os) buffer
  = ([EvRecv (Socket.getSocket sock) 0 0;
      EvSocketError (Socket.getSocket sock) ERROR_SOCKET_HANGUP],
     Done (Returned, buffer)).
Proof.
  intros Hs buffer. subst buffer. unfold PacketBuffer.PacketBuffer.
  destruct (Z.leb_spec maxSize size); [lia |]. reflexivity.
Qed.

Lemma tcp_receive_on_undersized_buffer_witness :
  let buffer := fst (PacketBuffer.PacketBuffer 65535 (fun _ => x00) 1024) in
  TcpSocket.receive 65535 65535 8 (Socket.mk 3 0 0 0)
    (ReadData [x00; x04; x00; x01] :: []) buffer
  = ([EvRecv (Socket.getSocket (Socket.mk 3 0 0 0)) 0 0;
      EvSocketError (Socket.getSocket (Socket.mk 3 0 0 0)) ERROR_SOCKET_HANGUP],
     Done (Returned, buffer)).
Proof.
  apply (tcp_receive_on_undersized_buffer 65535 65535 8 (Socket.mk 3 0 0 0)
           [x00; x04; x00; x01] [] (fun _ => x00) 1024).
  lia.
Defined.

(** ** Receiving one packet piece by piece *)

Lemma received_chunk maxSize EMPTY (m : Packet.t) (fuel : nat) size q
    (P c s buf : list byte) :
  4 <= maxSize <= 65535 -> Packet.valid maxSize EMPTY m ->
  (length (TcpSocket.wire m) < fuel)%nat ->
  P ++ c ++ s = TcpSocket.wire m ->
  take (length P) buf = P ->
  (length (TcpSocket.wire m) <= length buf)%nat ->
  exists mem,
    length mem = length buf
    /\ PacketBuffer.received maxSize EMPTY fuel c
         (PacketBuffer.mk (Some buf) size (Z.of_nat (length P)) q)
       = Done (match s with
               | [] => PacketBuffer.mk (Some mem) size 0 (q ++ [m])
               | _ => PacketBuffer.mk (Some mem) size
                        (Z.of_nat (length (P ++ c))) q
               end, [])
    /\ match s with
       | [] => True
       | _ => take (length (P ++ c)) mem = P ++ c
       end.
Proof.
  intros Hm Hv Hf HP Htake Hcap.
  pose proof (wire_length _ _ _ Hm Hv) as Hwl.
  destruct (valid_size _ _ _ Hm Hv) as [Hsz Hmax].
  assert (Hlen : (length P + length c + length s
                  = length (TcpSocket.wire m))%nat).
  { rewrite <- HP, !length_app. lia. }
  destruct (os_write_append buf P c Htake) as [buf1 [Ew [Hl1 Ht1]]]; [lia |].
  unfold PacketBuffer.received.
  cbn [PacketBuffer.mBuffer PacketBuffer.mCurrentlyStoredBytes
       PacketBuffer.mSize PacketBuffer.mStoredPackets].
  rewrite Ew. cbn [mbind outcome_bind].
  destruct s as [|x s]; cbn [length] in Hlen.
  - rewrite app_nil_r in HP.
    destruct (buildPackets_drain maxSize EMPTY [m] [] buf1 size
                (Z.of_nat (length P)) (Z.of_nat (length c)) q fuel)
      as [mem [E [Hlm _]]]; try assumption; cbn [length]; try lia.
    + constructor; [exact Hv | constructor].
    + exact I.
    + cbn [map concat]. rewrite !app_nil_r, <- HP.
      rewrite <- Ht1. f_equal. lia.
    + exists mem. split; [congruence |]. split; [exact E | exact I].
  - assert (Hinc : PacketBuffer.incomplete (P ++ c)).
    { apply (wire_prefix_incomplete maxSize EMPTY m (P ++ c) (x :: s));
        [assumption | assumption | rewrite <- app_assoc; exact HP |].
      rewrite length_app. lia. }
    destruct (buildPackets_drain maxSize EMPTY [] (P ++ c) buf1 size
                (Z.of_nat (length P)) (Z.of_nat (length c)) q fuel)
      as [mem [E [Hlm Htm]]]; try assumption; cbn [length]; try lia.
    + constructor.
    + cbn [map concat app]. rewrite <- Ht1. f_equal. lia.
    + exists mem. rewrite app_nil_r in E.
      split; [congruence |]. split; [exact E | exact Htm].
Qed.

Lemma tcp_receive_prefix maxSize EMPTY (m : Packet.t) (fuel : nat) size
    (sock : Socket.t) :
  4 <= maxSize <= 65535 -> Packet.valid maxSize EMPTY m ->
  (length (TcpSocket.wire m) < fuel)%nat ->
  forall (chunks : list (list byte)) (P buf : list byte),
    P ++ concat chunks = TcpSocket.wire m ->
    (length P < length (TcpSocket.wire m))%nat ->
    Forall (fun c => c <> [] /\ Z.of_nat (length c) <= size / 2) chunks ->
    take (length P) buf = P ->
    (length (TcpSocket.wire m) <= length buf)%nat ->
    exists ev mem,
      TcpSocket.receive maxSize EMPTY fuel sock (map ReadData chunks)
        (PacketBuffer.mk (Some buf) size (Z.of_nat (length P)) [])
      = (ev, Done (Returned, PacketBuffer.mk (Some mem) size 0 [m]))
      /\ Forall (fun e => is_error_report e = false) ev
      /\ length ev = (2 * length chunks)%nat.
Proof.
  intros Hm Hv Hf.
  induction chunks as [|c cs IH]; intros P buf HP Hlt Hch Htake Hcap.
  - cbn [concat] in HP. rewrite app_nil_r in HP. subst P. lia.
  - cbn [concat] in HP.
    pose proof (Forall_inv Hch) as [Hc Hcl]. apply Forall_inv_tail in Hch.
    cbn [map TcpSocket.receive].
    unfold PacketBuffer.getSize, PacketBuffer.getCurrentSize.
    cbn [PacketBuffer.mSize PacketBuffer.mCurrentlyStoredBytes].
    rewrite take_ge by lia.
    assert (Hcn : Z.of_nat (length c) <> 0).
    { destruct c; [contradiction | cbn [length]; lia]. }
    destruct (Z.eqb_spec (Z.of_nat (length c)) 0); [contradiction |].
    destruct (received_chunk maxSize EMPTY m fuel size [] P c (concat cs) buf)
      as [mem [Hlm [E Ht]]]; try assumption.
    rewrite E.
    destruct (concat cs) as [|x s] eqn:Ecs.
    + assert (cs = []) as ->.
      { destruct cs as [|c' cs']; [reflexivity |].
        cbn [concat] in Ecs. apply app_eq_nil in Ecs as [-> _].
        pose proof (Forall_inv Hch) as [Hc' _]. contradiction. }
      cbn [PacketBuffer.isPacketsStored PacketBuffer.mStoredPackets app].
      eexists _, mem. split; [reflexivity |]. split.
      * repeat constructor.
      * reflexivity.
    + cbn [PacketBuffer.isPacketsStored PacketBuffer.mStoredPackets].
      destruct (IH (P ++ c) mem) as [ev' [mem' [E' [Hev Hlen]]]].
      * rewrite <- app_assoc. exact HP.
      * rewrite <- HP, !length_app. cbn [length]. lia.
      * exact Hch.
      * exact Ht.
      * lia.
      * rewrite E'. eexists _, mem'. split; [reflexivity |]. split.
        -- cbn [app]. repeat (constructor; [reflexivity |]). exact Hev.
        -- cbn [app length]. rewrite Hlen. lia.
Qed.

(** X8. End to end on a stream. A well-formed packet, serialized as [send]
    does, reaches a freshly constructed buffer in non-empty reads of at
    most [getSize() / 2] bytes each: one call of [receive] takes them
    all, two events per read and no report, and returns with exactly that
    packet pending and nothing left stored. *)
Theorem tcp_receive_reassembles maxSize EMPTY (m : Packet.t)
    (fresh : nat -> byte) (size : Z) (chunks : list (list byte))
    (fuel : nat) (sock : Socket.t) :
  4 <= maxSize <= 65535 -> Packet.valid maxSize EMPTY m ->
  maxSize <= size ->
  concat chunks = TcpSocket.wire m ->
  Forall (fun c => c <> [] /\ Z.of_nat (length c) <= size / 2) chunks ->
  65535 < Z.of_nat fuel ->
  exists ev mem,
    TcpSocket.receive maxSize EMPTY fuel sock (map ReadData chunks)
      (fst (PacketBuffer.PacketBuffer maxSize fresh size))
    = (ev, Done (Returned, PacketBuffer.mk (Some mem) size 0 [m]))
    /\ Forall (fun e => is_error_report e = false) ev
    /\ length ev = (2 * length chunks)%nat.
Proof.
  intros Hm Hv Hsize Hchunks Hch Hfuel.
  pose proof (wire_length _ _ _ Hm Hv) as Hwl.
  destruct (valid_size _ _ _ Hm Hv) as [Hsz Hmax].
  unfold PacketBuffer.PacketBuffer.
  destruct (Z.leb_spec maxSize size); [| lia]. cbn [fst].
  apply (tcp_receive_prefix maxSize EMPTY m fuel size sock Hm Hv ltac:(lia)
           chunks [] (map fresh (seq 0 (Z.to_nat size)))).
  - exact Hchunks.
  - cbn [length]. lia.
  - exact Hch.
  - reflexivity.
  - rewrite length_map, length_seq. lia.
Qed.

Lemma tcp_receive_reassembles_witness :
  exists ev mem,
    TcpSocket.receive 16 65535 (Z.to_nat 65536) (Socket.mk 3 0 0 0)
      (map ReadData [[x00]; [x07; x00]; [x09; x41; x42]; [x43]])
      (fst (PacketBuffer.PacketBuffer 16 (fun _ => xff) 32))
    = (ev, Done (Returned,
                 PacketBuffer.mk (Some mem) 32 0 [Packet.mk 9 7 [x41; x42; x43]]))
    /\ Forall (fun e => is_error_report e = false) ev
    /\ length ev = (2 * length [[x00]; [x07; x00]; [x09; x41; x42]; [x43]])%nat.
Proof.
  apply (tcp_receive_reassembles 16 65535 (Packet.mk 9 7 [x41; x42; x43])
           (fun _ => xff) 32 [[x00]; [x07; x00]; [x09; x41; x42]; [x43]]
           (Z.to_nat 65536) (Socket.mk 3 0 0 0)).
  - lia.
  - split; [simpl; lia | reflexivity].
  - lia.
  - reflexivity.
  - repeat constructor; simpl; (discriminate || lia).
  - lia.
Defined.

(** ** Selector: the tracked sockets *)

Lemma getAll_tracked (s : Selector.t) : Selector.getAll s = Selector.mSockets s.
Proof.
  unfold Selector.getAll.
  assert (H : forall (l acc : list Socket.t),
             fold_left (fun temp i => temp ++ [i]) l acc = acc ++ l).
  { induction l as [|i l IH]; intros acc; cbn [fold_left].
    - rewrite app_nil_r. reflexivity.
    - rewrite IH, <- app_assoc. reflexivity. }
  apply (H _ []).
Qed.

Lemma erase_first_cases (sock : Socket.t) (l : list Socket.t) (socketsMax : Z) :
  (Forall (fun i => Socket.eqb i sock = false) l
   /\ Selector.erase_first sock l socketsMax = (l, socketsMax))
  \/ exists l1 i l2,
       l = l1 ++ i :: l2
       /\ Forall (fun j => Socket.eqb j sock = false) l1
       /\ Socket.eqb i sock = true
       /\ Selector.erase_first sock l socketsMax
          = (l1 ++ l2, if Socket.getSocket i =? socketsMax then 0 else socketsMax).
Proof.
  induction l as [|i l IH]; cbn [Selector.erase_first].
  - left. split; [constructor | reflexivity].
  - destruct (Socket.eqb i sock) eqn:Ei.
    + right. exists [], i, l. repeat split; [constructor | exact Ei].
    + destruct IH as [[Hn ->] | [l1 [j [l2 [-> [Hn [Ej ->]]]]]]].
      * left. split; [constructor; assumption | reflexivity].
      * right. exists (i :: l1), j, l2.
        repeat split; [constructor; assumption | exact Ej].
Qed.

(** X9. [getAll] hands out the tracked sockets in tracked order. [add] puts the
    new socket last. [remove] takes out the first tracked socket with the
    descriptor of its argument, whatever the rest of the two sockets may
    be, and leaves all others in their order; when no tracked socket has
    that descriptor the tracked sockets stay as they are. *)
Theorem getAll_add_remove (sock : Socket.t) (s : Selector.t) :
  Selector.getAll (Selector.add sock s) = Selector.getAll s ++ [sock]
  /\ ((Forall (fun i => Socket.getSocket i <> Socket.getSocket sock)
         (Selector.getAll s)
       /\ Selector.getAll (Selector.remove sock s) = Selector.getAll s)
      \/ exists l1 i l2,
           Selector.getAll s = l1 ++ i :: l2
           /\ Forall (fun j => Socket.getSocket j <> Socket.getSocket sock) l1
           /\ Socket.getSocket i = Socket.getSocket sock
           /\ Selector.getAll (Selector.remove sock s) = l1 ++ l2).
Proof.
  rewrite !getAll_tracked. split; [reflexivity |].
  assert (Hneq : forall l, Forall (fun i => Socket.eqb i sock = false) l ->
                 Forall (fun i => Socket.getSocket i <> Socket.getSocket sock) l).
  { intros l. apply List.Forall_impl. intros i Hi. unfold Socket.eqb in Hi.
    apply Z.eqb_neq in Hi. exact Hi. }
  unfold Selector.remove.
  destruct (erase_first_cases sock (Selector.mSockets s) (Selector.mSocketsMax s))
    as [[Hn E] | [l1 [i [l2 [El [Hn [Ei E]]]]]]]; rewrite E;
    cbn [Selector.mSockets].
  - left. split; [apply Hneq; exact Hn | reflexivity].
  - right. exists l1, i, l2. split; [exact El |]. split; [apply Hneq; exact Hn |].
    split; [| reflexivity]. unfold Socket.eqb in Ei. apply Z.eqb_eq in Ei. exact Ei.
Qed.

(** ** Selector: the descriptor set handed to select *)

Lemma remove_keeps_others (sock i : Socket.t) (s : Selector.t) :
  In i (Selector.mSockets s) ->
  Socket.getSocket i <> Socket.getSocket sock ->
  In i (Selector.mSockets (Selector.remove sock s)).
Proof.
  intros Hin Hne. unfold Selector.remove.
  destruct (erase_first_cases sock (Selector.mSockets s) (Selector.mSocketsMax s))
    as [[_ E] | [l1 [j [l2 [El [_ [Ej E]]]]]]]; rewrite E;
    cbn [Selector.mSockets]; [exact Hin |].
  rewrite El in Hin. apply in_app_or in Hin as [H | [H | H]].
  - apply in_or_app. left. exact H.
  - subst j. unfold Socket.eqb in Ej. apply Z.eqb_eq in Ej. contradiction.
  - apply in_or_app. right. exact H.
Qed.

Lemma step_bits_tracked (o : Selector.op) (s : Selector.t) :
  (forall fd, Selector.FD_ISSET fd (Selector.mFdSockets s) = true ->
              In fd (Selector.descriptors s)) ->
  forall fd, Selector.FD_ISSET fd (Selector.mFdSockets (Selector.step s o)) = true ->
             In fd (Selector.descriptors (Selector.step s o)).
Proof.
  intros Hs fd. unfold Selector.descriptors, Selector.FD_ISSET in *.
  destruct o as [sock | sock]; cbn [Selector.step].
  - unfold Selector.add, Selector.FD_SET. cbn [Selector.mFdSockets Selector.mSockets].
    rewrite map_app. intros H. apply in_or_app.
    destruct (Z.eqb_spec fd (Socket.getSocket sock)) as [E | Hne].
    + right. left. symmetry. exact E.
    + left. apply Hs. exact H.
  - intros H.
    assert (Hb : fd <> Socket.getSocket sock
                 /\ Selector.mFdSockets s fd = true).
    { unfold Selector.remove in H. destruct (Selector.erase_first _ _ _).
      cbn [Selector.mFdSockets] in H. unfold Selector.FD_CLR in H.
      destruct (Z.eqb_spec fd (Socket.getSocket sock)); [discriminate H |].
      split; assumption. }
    destruct Hb as [Hne Hset]. apply Hs in Hset.
    apply in_map_iff in Hset as [i [<- Hi]].
    apply in_map. apply remove_keeps_others; assumption.
Qed.

Lemma step_fresh_exact (o : Selector.op) (s : Selector.t) :
  match o with
  | Selector.Add sock => ~ In (Socket.getSocket sock) (Selector.descriptors s)
  | Selector.Remove _ => True
  end ->
  NoDup (Selector.descriptors s)
  /\ (forall fd, In fd (Selector.descriptors s) ->
                 Selector.FD_ISSET fd (Selector.mFdSockets s) = true) ->
  NoDup (Selector.descriptors (Selector.step s o))
  /\ (forall fd, In fd (Selector.descriptors (Selector.step s o)) ->
                 Selector.FD_ISSET fd (Selector.mFdSockets (Selector.step s o)) = true).
Proof.
  unfold Selector.descriptors, Selector.FD_ISSET.
  intros Ho [Hnd Hs]. destruct o as [sock | sock]; cbn [Selector.step].
  - unfold Selector.add, Selector.FD_SET.
    cbn [Selector.mFdSockets Selector.mSockets]. rewrite map_app. cbn [map].
    split.
    + apply NoDup_app. split; [exact Hnd |]. split.
      * intros x Hx Hx2. apply list_elem_of_In in Hx, Hx2.
        destruct Hx2 as [<- | []]. contradiction.
      * apply NoDup_singleton.
    + intros fd Hfd. destruct (Z.eqb_spec fd (Socket.getSocket sock)); [reflexivity |].
      apply in_app_or in Hfd as [H | [H | []]]; [apply Hs; exact H | congruence].
  - unfold Selector.remove.
    destruct (erase_first_cases sock (Selector.mSockets s) (Selector.mSocketsMax s))
      as [[Hn E] | [l1 [j [l2 [El [Hn [Ej E]]]]]]]; rewrite E;
      cbn [Selector.mSockets Selector.mFdSockets]; unfold Selector.FD_CLR.
    + split; [exact Hnd |]. intros fd Hfd.
      destruct (Z.eqb_spec fd (Socket.getSocket sock)) as [Efd | _];
        [| apply Hs; exact Hfd].
      exfalso. rewrite Efd in Hfd. apply in_map_iff in Hfd as [i [Hi Hin]].
      rewrite List.Forall_forall in Hn. specialize (Hn i Hin).
      unfold Socket.eqb in Hn. apply Z.eqb_neq in Hn. contradiction.
    + unfold Socket.eqb in Ej. apply Z.eqb_eq in Ej.
      change (Socket.getSocket j = Socket.getSocket sock) in Ej.
      rewrite El, map_app in Hnd, Hs. cbn [map] in Hnd, Hs.
      rewrite map_app.
      apply NoDup_app in Hnd as [Hn1 [Hd Hn2]].
      apply NoDup_cons in Hn2 as [Hj Hn2].
      split.
      * apply NoDup_app. split; [exact Hn1 |]. split; [| exact Hn2].
        intros x Hx Hx2. apply (Hd x Hx). apply list_elem_of_In. right.
        apply list_elem_of_In. exact Hx2.
      * intros fd Hfd.
        destruct (Z.eqb_spec fd (Socket.getSocket sock)) as [Efd | _].
        -- exfalso. rewrite Efd, <- Ej in Hfd.
           apply in_app_or in Hfd as [H | H].
           ++ apply list_elem_of_In in H. apply (Hd _ H).
              apply list_elem_of_In. left. reflexivity.
           ++ apply Hj. apply list_elem_of_In. exact H.
        -- apply Hs. apply in_app_or in Hfd as [H | H]; apply in_or_app;
             [left; exact H | right; right; exact H].
Qed.

(** X10. The descriptor set the selector hands to [::select] never holds a
    descriptor that is not tracked. It holds every tracked descriptor as
    long as no descriptor is added while a socket with that descriptor is
    tracked. *)
Theorem selector_descriptor_set (readable writable faulty : option nat)
    (ops : list Selector.op) :
  let s0 := Selector.Selector readable writable faulty in
  let s := Selector.run ops s0 in
  (forall fd, Selector.FD_ISSET fd (Selector.mFdSockets s) = true ->
              In fd (Selector.descriptors s))
  /\ (Selector.fresh_adds ops s0 ->
      forall fd, In fd (Selector.descriptors s) ->
                 Selector.FD_ISSET fd (Selector.mFdSockets s) = true).
Proof.
  intros s0 s. split.
  - subst s. unfold Selector.run.
    assert (H0 : forall fd, Selector.FD_ISSET fd (Selector.mFdSockets s0) = true ->
                            In fd (Selector.descriptors s0))
      by (intros fd H; discriminate H).
    revert H0. generalize s0. clear s0.
    induction ops as [|o ops IH]; intros s0 H0; cbn [fold_left]; [exact H0 |].
    apply IH. apply step_bits_tracked. exact H0.
  - intros Hfresh. subst s. unfold Selector.run.
    assert (H0 : NoDup (Selector.descriptors s0)
                 /\ (forall fd, In fd (Selector.descriptors s0) ->
                       Selector.FD_ISSET fd (Selector.mFdSockets s0) = true)).
    { split; [apply NoDup_nil_2 | intros fd []]. }
    revert Hfresh H0. generalize s0. clear s0.
    induction ops as [|o ops IH]; intros s0 Hfresh H0; cbn [fold_left];
      [exact (proj2 H0) |].
    apply IH.
    + destruct o; cbn [Selector.fresh_adds Selector.step] in *; tauto.
    + apply step_fresh_exact; [| exact H0].
      destruct o; cbn [Selector.fresh_adds] in Hfresh; tauto.
Qed.

Lemma selector_descriptor_set_witness :
  let s0 := Selector.Selector (Some 0%nat) None None in
  let s := Selector.run
             [Selector.Add (Socket.mk 3 0 0 0); Selector.Add (Socket.mk 7 0 0 0);
              Selector.Remove (Socket.mk 3 1 0 0)] s0 in
  (forall fd, Selector.FD_ISSET fd (Selector.mFdSockets s) = true ->
              In fd (Selector.descriptors s))
  /\ forall fd, In fd (Selector.descriptors s) ->
                Selector.FD_ISSET fd (Selector.mFdSockets s) = true.
Proof.
  intros s0 s.
  destruct (selector_descriptor_set (Some 0%nat) None None
              [Selector.Add (Socket.mk 3 0 0 0); Selector.Add (Socket.mk 7 0 0 0);
               Selector.Remove (Socket.mk 3 1 0 0)]) as [H1 H2].
  split; [exact H1 |]. apply H2. simpl. intuition lia.
Defined.

(** X11. A descriptor added twice and removed once: one socket with that
    descriptor is still tracked, but the descriptor is no longer in the
    set handed to [::select]. *)
Theorem selector_double_add_remove (sock : Socket.t) (s : Selector.t) :
  let s' := Selector.remove sock (Selector.add sock (Selector.add sock s)) in
  In sock (Selector.getAll s')
  /\ Selector.FD_ISSET (Socket.getSocket sock) (Selector.mFdSockets s') = false.
Proof.
  intros s'. subst s'. rewrite getAll_tracked. unfold Selector.remove.
  destruct (erase_first_cases sock
              (Selector.mSockets (Selector.add sock (Selector.add sock s)))
              (Selector.mSocketsMax (Selector.add sock (Selector.add sock s))))
    as [[Hn E] | [l1 [j [l2 [El [Hn [Ej E]]]]]]]; rewrite E;
    cbn [Selector.mSockets Selector.mFdSockets Selector.add];
    unfold Selector.FD_ISSET, Selector.FD_CLR; rewrite Z.eqb_refl;
    (split; [| reflexivity]).
  - apply in_or_app. right. left. reflexivity.
  - cbn [Selector.add Selector.mSockets] in El, Hn.
    rewrite <- app_assoc in El. cbn [app] in El.
    assert (Hself : Socket.eqb sock sock = true) by apply Z.eqb_refl.
    (* the erased socket is not the last one *)
    destruct l2 as [|x l2' _] using rev_ind.
    + exfalso.
      assert (Hl : l1 = Selector.mSockets s ++ [sock]).
      { change (Selector.mSockets s ++ [sock; sock])
          with (Selector.mSockets s ++ [sock] ++ [sock]) in El.
        rewrite app_assoc in El.
        apply app_inj_tail in El as [El _]. symmetry. exact El. }
      rewrite Hl in Hn. apply Forall_app in Hn as [_ Hn].
      apply Forall_inv in Hn. congruence.
    + assert (x = sock) as ->.
      { change (Selector.mSockets s ++ [sock; sock])
          with (Selector.mSockets s ++ [sock] ++ [sock]) in El.
        rewrite app_assoc in El.
        change (l1 ++ j :: l2' ++ [x]) with (l1 ++ (j :: l2') ++ [x]) in El.
        rewrite app_assoc in El.
        apply app_inj_tail in El as [_ El]. symmetry. exact El. }
      apply in_or_app. right. apply in_or_app. right. left. reflexivity.
Qed.

(** ** Selector::update when descriptors are ready *)

Lemma refill_spec (a : nat) (set : Selector.fd_set) (socks : list Socket.t)
    (vs : Selector.vectors) :
  exists vs',
    Selector.refill (Some a) set socks vs = Done vs'
    /\ forall x, vs' x = if decide (x = a) then Selector.flagged set socks else vs x.
Proof.
  unfold Selector.refill. eexists. split; [reflexivity |].
  assert (H : forall l (v : Selector.vectors) x,
             fold_left
               (fun v i => if Selector.FD_ISSET (Socket.getSocket i) set
                           then Selector.vec_push_back a i v else v) l v x
             = if decide (x = a) then v x ++ Selector.flagged set l else v x).
  { induction l as [|i l IH]; intros v x; cbn [fold_left Selector.flagged List.filter].
    - destruct (decide (x = a)); [rewrite app_nil_r |]; reflexivity.
    - rewrite IH. fold (Selector.flagged set l).
      destruct (Selector.FD_ISSET (Socket.getSocket i) set); [| reflexivity].
      unfold Selector.vec_push_back.
      destruct (decide (x = a)) as [-> | Hne].
      + rewrite Nat.eqb_refl, <- app_assoc. reflexivity.
      + apply Nat.eqb_neq in Hne. rewrite Hne. reflexivity. }
  intros x. rewrite H. unfold Selector.vec_clear.
  destruct (decide (x = a)) as [-> | Hne].
  - rewrite Nat.eqb_refl. reflexivity.
  - apply Nat.eqb_neq in Hne. rewrite Hne. reflexivity.
Qed.

(** X12. When [::select] answers a positive count, [update] has called it once
    with [mSocketsMax + 1], returns its answer and leaves the tracked
    sockets alone. Every collection the selector was given then holds
    exactly the tracked sockets flagged in the matching answered set, in
    tracked order; a vector given for several classes ends up with the
    class refilled last (faulty after readable after writable); all other
    vectors of the caller are untouched. *)
Theorem update_ready
    (select : Z -> option Selector.fd_set -> option Selector.fd_set ->
              option Selector.fd_set -> Z * Z -> Selector.select_answer)
    (s : Selector.t) (vs : Selector.vectors) :
  Selector.consistent s ->
  (exists a, Selector.enabled s a) ->
  let ans := Selector.query select s in
  0 < Selector.ans_ret ans ->
  exists s' vs',
    Selector.update select s vs
    = (Done (Selector.ans_ret ans, s', vs'), [EvSelect (Selector.mSocketsMax s + 1)])
    /\ Selector.getAll s' = Selector.getAll s
    /\ Selector.mSocketsMax s' = Selector.mSocketsMax s
    /\ forall x,
         vs' x =
         if decide (Selector.mFaulty s = Some x)
         then Selector.flagged (Selector.ans_faulty ans) (Selector.getAll s)
         else if decide (Selector.mReadable s = Some x)
         then Selector.flagged (Selector.ans_readable ans) (Selector.getAll s)
         else if decide (Selector.mWritable s = Some x)
         then Selector.flagged (Selector.ans_writable ans) (Selector.getAll s)
         else vs x.
Proof.
  intros Hc He ans Hpos. rewrite !getAll_tracked.
  unfold Selector.update. rewrite (enabled_pointer s Hc He).
  fold (Selector.query select s). fold ans.
  destruct (Z.leb_spec (Selector.ans_ret ans) 0); [lia |].
  destruct Hc as [Hw [Hr Hf]].
  cbn [Selector.mWritable Selector.mReadable Selector.mFaulty
       Selector.mFdWritablePointer Selector.mFdReadablePointer
       Selector.mFdFaultyPointer Selector.mFdWritable Selector.mFdReadable
       Selector.mFdFaulty Selector.mSockets].
  rewrite Hw, Hr, Hf.
  destruct (Selector.mWritable s) as [w |], (Selector.mReadable s) as [r |],
    (Selector.mFaulty s) as [f |];
    cbn [Selector.non_null mbind outcome_bind mret outcome_ret];
    repeat match goal with
    | |- context [Selector.refill (Some ?a) ?set ?l ?v] =>
        let vs' := fresh "vs" in let E := fresh "E" in let H := fresh "H" in
        destruct (refill_spec a set l v) as [vs' [E H]]; rewrite E;
        cbn [mbind outcome_bind mret outcome_ret]
    end;
    cbn [mbind outcome_bind mret outcome_ret];
    eexists _, _; (split; [reflexivity |]); (split; [rewrite getAll_tracked; reflexivity |]);
    (split; [reflexivity |]); intros x;
    repeat match goal with H : forall x, _ = _ |- _ => rewrite H; clear H end;
    repeat (destruct (decide _) as [? | ?]; try congruence).
Qed.

Lemma update_ready_witness :
  let select := fun (_ : Z) (_ _ _ : option Selector.fd_set) (_ : Z * Z) =>
                  Selector.mkAnswer 1 (Selector.FD_SET 3 Selector.FD_ZERO)
                    Selector.FD_ZERO Selector.FD_ZERO (0, 0) in
  let s := Selector.add (Socket.mk 5 0 0 0)
             (Selector.add (Socket.mk 3 0 0 0)
                (Selector.Selector (Some 0%nat) (Some 1%nat) None)) in
  let vs := fun _ : nat => [Socket.mk 9 0 0 0] in
  let ans := Selector.query select s in
  exists s' vs',
    Selector.update select s vs
    = (Done (Selector.ans_ret ans, s', vs'), [EvSelect (Selector.mSocketsMax s + 1)])
    /\ Selector.getAll s' = Selector.getAll s
    /\ Selector.mSocketsMax s' = Selector.mSocketsMax s
    /\ forall x,
         vs' x =
         if decide (Selector.mFaulty s = Some x)
         then Selector.flagged (Selector.ans_faulty ans) (Selector.getAll s)
         else if decide (Selector.mReadable s = Some x)
         then Selector.flagged (Selector.ans_readable ans) (Selector.getAll s)
         else if decide (Selector.mWritable s = Some x)
         then Selector.flagged (Selector.ans_writable ans) (Selector.getAll s)
         else vs x.
Proof.
  intros select s vs.
  apply (update_ready select s vs).
  - repeat split.
  - exists 0%nat. left. reflexivity.
  - simpl. lia.
Defined.

(** ** Selector: adding and removing *)

Lemma erase_first_last (sock : Socket.t) (l : list Socket.t) (socketsMax : Z) :
  Forall (fun i => Socket.getSocket i <> Socket.getSocket sock) l ->
  Selector.erase_first sock (l ++ [sock]) socketsMax
  = (l, if Socket.getSocket sock =? socketsMax then 0 else socketsMax).
Proof.
  induction l as [|i l IH]; intros H; cbn [app Selector.erase_first].
  - unfold Socket.eqb. rewrite Z.eqb_refl. reflexivity.
  - pose proof (Forall_inv H) as Hi. apply Forall_inv_tail in H.
    unfold Socket.eqb at 1. apply Z.eqb_neq in Hi.
    change (Socket.mSocket i =? Socket.mSocket sock)
      with (Socket.getSocket i =? Socket.getSocket sock).
    rewrite Hi, IH by exact H. reflexivity.
Qed.

(** X13. Adding a socket whose descriptor is not tracked and removing it again
    brings a selector, reached by adds and removes, back to where it was:
    the same tracked sockets, the same cached maximum, the same descriptor
    set. *)
Theorem add_then_remove (readable writable faulty : option nat)
    (ops : list Selector.op) (sock : Socket.t) :
  Forall Selector.adds_descriptor ops ->
  let s := Selector.run ops (Selector.Selector readable writable faulty) in
  0 <= Socket.getSocket sock ->
  ~ In (Socket.getSocket sock) (Selector.descriptors s) ->
  let s' := Selector.remove sock (Selector.add sock s) in
  Selector.getAll s' = Selector.getAll s
  /\ Selector.mSocketsMax s' = Selector.mSocketsMax s
  /\ forall fd, Selector.FD_ISSET fd (Selector.mFdSockets s')
                = Selector.FD_ISSET fd (Selector.mFdSockets s).
Proof.
  intros Hops s Hfd Hnew s'.
  assert (Hinv : Selector.tracks_maximum s).
  { apply run_tracks_maximum; [exact Hops |]. split; [reflexivity | constructor]. }
  assert (Hbit : Selector.FD_ISSET (Socket.getSocket sock) (Selector.mFdSockets s)
                 = false).
  { destruct (Selector.FD_ISSET _ _) eqn:E; [| reflexivity]. exfalso. apply Hnew.
    subst s. unfold Selector.run in *.
    assert (H0 : forall fd,
               Selector.FD_ISSET fd
                 (Selector.mFdSockets (Selector.Selector readable writable faulty))
               = true ->
               In fd (Selector.descriptors (Selector.Selector readable writable faulty)))
      by (intros fd H; discriminate H).
    revert H0 E. generalize (Selector.Selector readable writable faulty).
    clear. induction ops as [|o ops IH]; intros s0 H0 E; cbn [fold_left] in *.
    - apply H0. exact E.
    - apply (IH (Selector.step s0 o)); [| exact E].
      apply step_bits_tracked. exact H0. }
  assert (Hl : Forall (fun i => Socket.getSocket i <> Socket.getSocket sock)
                 (Selector.mSockets s)).
  { apply List.Forall_forall. intros i Hi E. apply Hnew.
    unfold Selector.descriptors. rewrite <- E. apply in_map. exact Hi. }
  destruct Hinv as [Hm Hp].
  pose proof (max_descriptor_nonneg (Selector.mSockets s)) as Hn.
  subst s'. rewrite !getAll_tracked. unfold Selector.remove.
  cbn [Selector.add Selector.mSockets Selector.mSocketsMax Selector.mFdSockets].
  rewrite (erase_first_last sock (Selector.mSockets s) _ Hl).
  cbn [Selector.mSockets Selector.mSocketsMax Selector.mFdSockets].
  split; [reflexivity |]. split.
  - destruct (Z.ltb_spec (Selector.mSocketsMax s) (Socket.getSocket sock)).
    + rewrite Z.eqb_refl. change (0 =? 0) with true. cbn iota.
      rewrite rescan_spec by lia. lia.
    + destruct (Z.eqb_spec (Socket.getSocket sock) (Selector.mSocketsMax s)) as [E | E].
      * change (0 =? 0) with true. cbn iota. rewrite rescan_spec by lia. lia.
      * destruct (Z.eqb_spec (Selector.mSocketsMax s) 0); [lia | reflexivity].
  - intros fd. unfold Selector.FD_ISSET, Selector.FD_CLR, Selector.FD_SET in *.
    destruct (Z.eqb_spec fd (Socket.getSocket sock)) as [-> | _];
      [symmetry; exact Hbit | reflexivity].
Qed.

Lemma add_then_remove_witness :
  let s := Selector.run
             [Selector.Add (Socket.mk 3 0 0 0); Selector.Add (Socket.mk 7 0 0 0)]
             (Selector.Selector (Some 0%nat) None None) in
  let s' := Selector.remove (Socket.mk 9 0 0 0) (Selector.add (Socket.mk 9 0 0 0) s) in
  Selector.getAll s' = Selector.getAll s
  /\ Selector.mSocketsMax s' = Selector.mSocketsMax s
  /\ forall fd, Selector.FD_ISSET fd (Selector.mFdSockets s')
                = Selector.FD_ISSET fd (Selector.mFdSockets s).
Proof.
  apply (add_then_remove (Some 0%nat) None None
           [Selector.Add (Socket.mk 3 0 0 0); Selector.Add (Socket.mk 7 0 0 0)]
           (Socket.mk 9 0 0 0)).
  - repeat constructor; simpl; lia.
  - simpl. lia.
  - simpl. intuition lia.
Defined.

(** X14. [removeAll] empties the tracked sockets and the descriptor set and
    clears every collection the selector was given, but it does not touch
    the cached maximum: a selector that held a positive descriptor keeps
    that value cached although nothing is tracked, and a socket added next
    does not lower it. *)
Theorem removeAll_keeps_maximum (s : Selector.t) (vs : Selector.vectors)
    (sock : Socket.t) :
  let s' := fst (Selector.removeAll s vs) in
  let vs' := snd (Selector.removeAll s vs) in
  Selector.getAll s' = []
  /\ (forall fd, Selector.FD_ISSET fd (Selector.mFdSockets s') = false)
  /\ (forall a, Selector.enabled s a -> vs' a = [])
  /\ Selector.mSocketsMax s' = Selector.mSocketsMax s
  /\ (Selector.tracks_maximum s' <-> Selector.mSocketsMax s = 0)
  /\ Selector.mSocketsMax (Selector.add sock s')
     = Z.max (Selector.mSocketsMax s) (Socket.getSocket sock).
Proof.
  intros s' vs'. subst s' vs'. rewrite getAll_tracked.
  unfold Selector.removeAll. cbn [fst snd Selector.mSockets Selector.mFdSockets
                                  Selector.mSocketsMax Selector.add].
  split; [reflexivity |]. split; [reflexivity |].
  split; [intros a Ha; apply clearTemp_clears; exact Ha |].
  split; [reflexivity |]. split.
  - unfold Selector.tracks_maximum.
    cbn [Selector.mSockets Selector.mSocketsMax]. split.
    + intros [H _]. exact H.
    + intros H. split; [exact H | constructor].
  - destruct (Z.ltb_spec (Selector.mSocketsMax s) (Socket.getSocket sock)); lia.
Qed.

(** ** PacketBuffer: the copy constructor *)

Lemma copy_loop_spec (src : list byte) (n : nat) :
  forall (dst : list byte) (i : Z),
    0 <= i ->
    i + Z.of_nat n <= Z.of_nat (length src) ->
    i + Z.of_nat n <= Z.of_nat (length dst) ->
    exists mem,
      PacketBuffer.copy_loop n (Some src) dst i = Done mem
      /\ length mem = length dst
      /\ forall k : nat,
           mem !! k =
           if decide (i <= Z.of_nat k < i + Z.of_nat n) then src !! k else dst !! k.
Proof.
  induction n as [|n IH]; intros dst i Hi Hs Hd; cbn [PacketBuffer.copy_loop].
  - exists dst. split; [reflexivity |]. split; [reflexivity |].
    intros k. destruct (decide _); [lia | reflexivity].
  - destruct (peek_in_range src i) as [b [Hp Hl]]; [lia |].
    rewrite Hp. cbn [mbind outcome_bind].
    rewrite poke_in_range by lia. cbn [mbind outcome_bind].
    destruct (IH (<[Z.to_nat i := b]> dst) (i + 1)) as [mem [E [Hlen Hk]]];
      try lia.
    { rewrite length_insert. lia. }
    exists mem. split; [exact E |]. split; [rewrite Hlen; apply length_insert |].
    intros k. rewrite Hk.
    destruct (decide (i + 1 <= Z.of_nat k < i + 1 + Z.of_nat n)).
    + destruct (decide _); [reflexivity | lia].
    + destruct (decide (i <= Z.of_nat k < i + Z.of_nat (S n))).
      * assert (k = Z.to_nat i) as -> by lia.
        rewrite list_lookup_insert_eq by lia. symmetry. exact Hl.
      * apply list_lookup_insert_ne. lia.
Qed.

(** X15. The copy of a working buffer has a block of the same capacity whose
    first [getCurrentSize()] bytes are those of the original; capacity,
    stored count and pending packets are the same. The copy of a buffer
    whose construction failed ([nullptr], capacity 0) has a block of length
    0, not [nullptr]: [getBuffer()] no longer tells the failure. *)
Theorem PacketBuffer_copy maxSize (fresh fresh' : nat -> byte) (size : Z)
    (other : PacketBuffer.t) (buf : list byte) :
  (PacketBuffer.getBuffer other = Some buf ->
   0 <= PacketBuffer.getCurrentSize other <= PacketBuffer.getSize other ->
   PacketBuffer.getCurrentSize other <= Z.of_nat (length buf) ->
   exists mem,
     PacketBuffer.copy fresh other
     = Done (PacketBuffer.mk (Some mem) (PacketBuffer.getSize other)
               (PacketBuffer.getCurrentSize other)
               (PacketBuffer.mStoredPackets other))
     /\ length mem = Z.to_nat (PacketBuffer.getSize other)
     /\ take (Z.to_nat (PacketBuffer.getCurrentSize other)) mem
        = take (Z.to_nat (PacketBuffer.getCurrentSize other)) buf)
  /\ (size < maxSize ->
      PacketBuffer.copy fresh
        (fst (PacketBuffer.PacketBuffer maxSize fresh' size))
      = Done (PacketBuffer.mk (Some []) 0 0 [])).
Proof.
  unfold PacketBuffer.getBuffer, PacketBuffer.getSize, PacketBuffer.getCurrentSize.
  split.
  - intros Hb Hs Hl. unfold PacketBuffer.copy. rewrite Hb.
    destruct (copy_loop_spec buf (Z.to_nat (PacketBuffer.mCurrentlyStoredBytes other))
                (map fresh (seq 0 (Z.to_nat (PacketBuffer.mSize other)))) 0)
      as [mem [E [Hlen Hk]]]; try lia.
    { rewrite length_map, length_seq. lia. }
    rewrite E. cbn [mbind outcome_bind mret outcome_ret].
    exists mem. split; [reflexivity |].
    rewrite length_map, length_seq in Hlen. split; [exact Hlen |].
    apply list_eq. intros k.
    destruct (decide (k < Z.to_nat (PacketBuffer.mCurrentlyStoredBytes other))%nat).
    + rewrite !lookup_take_lt by assumption. rewrite Hk.
      destruct (decide _); [reflexivity | lia].
    + rewrite !lookup_take_ge by lia. reflexivity.
  - intros Hs. unfold PacketBuffer.PacketBuffer.
    destruct (Z.leb_spec maxSize size); [lia |]. reflexivity.
Qed.

Lemma PacketBuffer_copy_witness :
  (exists mem,
     PacketBuffer.copy (fun _ => xff)
       (PacketBuffer.mk (Some [x00; x08; x41; x42; x43]) 5 3 [Packet.mk 1 4 []])
     = Done (PacketBuffer.mk (Some mem) 5 3 [Packet.mk 1 4 []])
     /\ length mem = Z.to_nat 5
     /\ take (Z.to_nat 3) mem = take (Z.to_nat 3) [x00; x08; x41; x42; x43])
  /\ PacketBuffer.copy (fun _ => xff)
       (fst (PacketBuffer.PacketBuffer 65535 (fun _ => x00) 100))
     = Done (PacketBuffer.mk (Some []) 0 0 []).
Proof.
  destruct (PacketBuffer_copy 65535 (fun _ => xff) (fun _ => x00) 100
              (PacketBuffer.mk (Some [x00; x08; x41; x42; x43]) 5 3 [Packet.mk 1 4 []])
              [x00; x08; x41; x42; x43]) as [H1 H2].
  split.
  - apply H1; [reflexivity | simpl; lia | simpl; lia].
  - apply H2. lia.
Defined.

(** ** Address and UdpSocket::bind *)

Lemma getPort_htons (family : Z) (port : Z) (addr : list byte) :
  0 <= port < 65536 ->
  Address.getPort (Address.mk family (htons port) addr) = port.
Proof.
  intros H. unfold Address.getPort. cbn [Address.sin_port htons].
  apply ntohs_htons. exact H.
Qed.

(** X16. An address built from a text and a port gives the port back, whatever
    the family; built from a text alone its port is 0. It is an IPv6
    address exactly when the text contains a colon. *)
Theorem Address_port_and_family (inet_pton : Z -> list byte -> list byte)
    (address : list byte) (port : Z) :
  0 <= port < 65536 ->
  Address.getPort (Address.Address_port inet_pton address port) = port
  /\ Address.getPort (Address.Address inet_pton address) = 0
  /\ (Address.isIPv6 (Address.Address_port inet_pton address port) = true
      <-> In x3a address)
  /\ (Address.isIPv6 (Address.Address inet_pton address) = true
      <-> In x3a address).
Proof.
  intros Hp.
  assert (Hc : Address.has_colon address = true <-> In x3a address).
  { unfold Address.has_colon. rewrite existsb_exists. split.
    - intros [x [Hx Hb]]. apply Byte.byte_dec_bl in Hb. subst x. exact Hx.
    - intros H. exists x3a. split; [exact H | reflexivity]. }
  unfold Address.Address_port, Address.Address.
  destruct (Address.has_colon address);
    rewrite !getPort_htons by lia;
    (split; [reflexivity |]); (split; [reflexivity |]);
    unfold Address.isIPv6; cbn [Address.ss_family];
    change (Address.AF_INET6 =? Address.AF_INET) with false;
    change (Address.AF_INET =? Address.AF_INET) with true;
    rewrite <- Hc; split; split; congruence.
Qed.

Lemma Address_port_and_family_witness :
  let inet_pton := fun (_ : Z) (_ : list byte) => [x7f; x00; x00; x01] in
  Address.getPort (Address.Address_port inet_pton [x3a; x3a; x31] 8080) = 8080
  /\ Address.getPort (Address.Address inet_pton [x3a; x3a; x31]) = 0
  /\ (Address.isIPv6 (Address.Address_port inet_pton [x3a; x3a; x31] 8080) = true
      <-> In x3a [x3a; x3a; x31])
  /\ (Address.isIPv6 (Address.Address inet_pton [x3a; x3a; x31]) = true
      <-> In x3a [x3a; x3a; x31]).
Proof.
  intros inet_pton.
  apply (Address_port_and_family inet_pton [x3a; x3a; x31] 8080). lia.
Defined.

(** X17. Binding a datagram socket whose stored address was built without a
    port, or with port 0, reports [ERROR_SOCKET_BIND] and never calls
    [::bind]. With a port from 1 to 65535 [::bind] is called, and the
    error is reported exactly when that call returns -1. *)
Theorem udp_bind_needs_port (inet_pton : Z -> list byte -> list byte)
    (sock : Socket.t) (address : list byte) (port os_bind : Z) :
  0 < port < 65536 ->
  let report := [EvSocketError (Socket.getSocket sock) ERROR_SOCKET_BIND] in
  UdpSocket.bind sock (Address.Address inet_pton address) os_bind = (false, report)
  /\ UdpSocket.bind sock (Address.Address_port inet_pton address 0) os_bind
     = (false, report)
  /\ UdpSocket.bind sock (Address.Address_port inet_pton address port) os_bind
     = (true, if os_bind =? -1 then report else []).
Proof.
  intros Hp report. unfold UdpSocket.bind, Address.Address, Address.Address_port.
  destruct (Address.has_colon address);
    rewrite !getPort_htons by lia;
    change (0 =? 0) with true; cbn iota;
    (destruct (Z.eqb_spec port 0); [lia |]);
    (split; [reflexivity |]); (split; [reflexivity |]);
    destruct (os_bind =? -1); reflexivity.
Qed.

Lemma udp_bind_needs_port_witness :
  let inet_pton := fun (_ : Z) (_ : list byte) => [x7f; x00; x00; x01] in
  let sock := Socket.mk 3 0 0 0 in
  let report := [EvSocketError (Socket.getSocket sock) ERROR_SOCKET_BIND] in
  UdpSocket.bind sock (Address.Address inet_pton [x31]) 0 = (false, report)
  /\ UdpSocket.bind sock (Address.Address_port inet_pton [x31] 0) 0
     = (false, report)
  /\ UdpSocket.bind sock (Address.Address_port inet_pton [x31] 8080) 0
     = (true, if 0 =? -1 then report else []).
Proof.
  intros inet_pton sock.
  apply (udp_bind_needs_port inet_pton sock [x31] 8080 0). lia.
Defined.

(** ** UdpSocket::send *)

Lemma sendto_loop_spec (fd : Z) (data : list byte) (os : list os_send) :
  forall bytesSent out ev r,
    0 <= bytesSent <= Z.of_nat (length data) ->
    UdpSocket.sendto_loop fd data bytesSent (Z.of_nat (length data) - bytesSent) os
    = (out, ev, r) ->
    exists rest,
      drop (Z.to_nat bytesSent) data = concat out ++ rest
      /\ match r with
         | SendDone _ =>
             rest = [] /\ ev = []
             /\ (bytesSent < Z.of_nat (length data) -> out <> [])
         | SendFailed => rest <> [] /\ ev = [EvSocketError fd ERROR_SOCKET_SEND]
         | SendBlocked => rest <> [] /\ ev = []
         end.
Proof.
  assert (Hne : forall b, 0 <= b < Z.of_nat (length data) ->
                          drop (Z.to_nat b) data <> []).
  { intros b Hb E. apply (f_equal length) in E.
    rewrite length_drop in E. cbn [length] in E. lia. }
  induction os as [|o os IH]; intros bytesSent out ev r Hb E;
    cbn [UdpSocket.sendto_loop] in E;
    destruct (Z.ltb_spec bytesSent (Z.of_nat (length data))) as [Hlt | Hge].
  - injection E as <- <- <-. eexists. split; [reflexivity |].
    split; [apply Hne; lia | reflexivity].
  - injection E as <- <- <-. exists []. split.
    + rewrite drop_ge by lia. reflexivity.
    + split; [reflexivity |]. split; [reflexivity | lia].
  - destruct o as [n |].
    + set (c := Z.min (Z.of_nat n) (Z.of_nat (length data) - bytesSent)) in *.
      replace (Z.of_nat (length data) - bytesSent - c)
        with (Z.of_nat (length data) - (bytesSent + c)) in E by lia.
      destruct (UdpSocket.sendto_loop fd data (bytesSent + c) _ os)
        as [[out' ev'] r'] eqn:E'.
      injection E as <- <- <-.
      apply IH in E' as [rest [Hd Hr]]; [| lia].
      exists rest. split.
      * cbn [concat]. rewrite <- app_assoc, <- Hd.
        replace (Z.to_nat (bytesSent + c))
          with (Z.to_nat bytesSent + Z.to_nat c)%nat by lia.
        rewrite <- drop_drop. symmetry. apply take_drop.
      * destruct r'; [| exact Hr | exact Hr].
        destruct Hr as [Hr [He _]]. split; [exact Hr |].
        split; [exact He |]. intros _. discriminate.
    + injection E as <- <- <-. eexists. split; [reflexivity |].
      split; [apply Hne; lia | reflexivity].
  - injection E as <- <- <-. exists []. split.
    + rewrite drop_ge by lia. reflexivity.
    + split; [reflexivity |]. split; [reflexivity | lia].
Qed.

(** X18. Whatever the OS does, the datagrams [UdpSocket::send] has sent make up,
    end to end, a prefix of the serialized packet (length, type, data).
    When [send] runs to its end they are the whole of it, nothing is
    reported, and they fall into three groups, one per field: the length
    and the type each fill at least one datagram of their own, so a packet
    never travels in fewer than two datagrams and no datagram holds bytes
    of two fields. When a [::sendto] fails, exactly one
    [ERROR_SOCKET_SEND] is reported and the rest is not sent. *)
Theorem udp_send_datagrams (sock : Socket.t) (packet : Packet.t)
    (os : list os_send) :
  let '(out, ev, r) := UdpSocket.send sock packet os in
  exists rest,
    TcpSocket.wire packet = concat out ++ rest
    /\ match r with
       | SendDone _ =>
           rest = [] /\ ev = []
           /\ exists d1 d2 d3,
                out = d1 ++ d2 ++ d3
                /\ d1 <> [] /\ d2 <> []
                /\ concat d1 = htons (Packet.getSize packet)
                /\ concat d2 = htons (Packet.getType packet)
                /\ concat d3 = Packet.getData packet
       | SendFailed =>
           rest <> []
           /\ ev = [EvSocketError (Socket.getSocket sock) ERROR_SOCKET_SEND]
       | SendBlocked => rest <> [] /\ ev = []
       end.
Proof.
  unfold UdpSocket.send, TcpSocket.wire.
  set (fd := Socket.getSocket sock).
  set (h1 := htons (Packet.getSize packet)).
  set (h2 := htons (Packet.getType packet)).
  set (d := Packet.getData packet).
  assert (L1 : length h1 = 2%nat) by reflexivity.
  assert (L2 : length h2 = 2%nat) by reflexivity.
  assert (Hnil : forall (a b : list byte), a <> [] -> a ++ b <> []).
  { intros a b Ha E. apply app_eq_nil in E as [E _]. contradiction. }
  destruct (UdpSocket.sendto_loop fd h1 0 2 os) as [[out1 ev1] r1] eqn:E1.
  change 2 with (Z.of_nat (length h1) - 0) in E1.
  apply sendto_loop_spec in E1 as [rest1 [H1 R1]]; [| cbn [length]; lia].
  change (Z.to_nat 0) with 0%nat in H1. rewrite drop_0 in H1.
  destruct r1 as [os1 | |].
  - destruct R1 as [-> [-> N1]]. rewrite app_nil_r in H1.
    destruct (UdpSocket.sendto_loop fd h2 0 2 os1) as [[out2 ev2] r2] eqn:E2.
    change 2 with (Z.of_nat (length h2) - 0) in E2.
    apply sendto_loop_spec in E2 as [rest2 [H2 R2]]; [| cbn [length]; lia].
    change (Z.to_nat 0) with 0%nat in H2. rewrite drop_0 in H2.
    destruct r2 as [os2 | |].
    + destruct R2 as [-> [-> N2]]. rewrite app_nil_r in H2.
      destruct (UdpSocket.sendto_loop fd d 0 _ os2) as [[out3 ev3] r3] eqn:E3.
      rewrite <- (Z.sub_0_r (Z.of_nat (length d))) in E3.
      apply sendto_loop_spec in E3 as [rest3 [H3 R3]]; [| lia].
      change (Z.to_nat 0) with 0%nat in H3. rewrite drop_0 in H3.
      exists rest3. split.
      { rewrite !concat_app, H1, H2, H3, <- !app_assoc. reflexivity. }
      cbn [app]. destruct r3 as [os3 | |]; [| exact R3 | exact R3].
      destruct R3 as [-> [-> _]]. rewrite app_nil_r in H3.
      split; [reflexivity |]. split; [reflexivity |].
      exists out1, out2, out3. split; [reflexivity |].
      split; [apply N1; rewrite L1; lia |].
      split; [apply N2; rewrite L2; lia |].
      split; [symmetry; exact H1 |]. split; symmetry; assumption.
    + destruct R2 as [Hr ->]. exists (rest2 ++ d).
      split; [rewrite concat_app, H1, H2, <- !app_assoc; reflexivity |].
      split; [apply Hnil; exact Hr | reflexivity].
    + destruct R2 as [Hr ->]. exists (rest2 ++ d).
      split; [rewrite concat_app, H1, H2, <- !app_assoc; reflexivity |].
      split; [apply Hnil; exact Hr | reflexivity].
  - destruct R1 as [Hr ->]. exists (rest1 ++ h2 ++ d).
    split; [rewrite H1, <- !app_assoc; reflexivity |].
    split; [apply Hnil; exact Hr | reflexivity].
  - destruct R1 as [Hr ->]. exists (rest1 ++ h2 ++ d).
    split; [rewrite H1, <- !app_assoc; reflexivity |].
    split; [apply Hnil; exact Hr | reflexivity].
Qed.

(** ** Datagrams: from [send] to [receive] *)

Lemma udp_send_done (sock : Socket.t) (packet : Packet.t) (os rest : list os_send)
    (out : list (list byte)) (ev : list Event) :
  UdpSocket.send sock packet os = (out, ev, SendDone rest) ->
  concat out = TcpSocket.wire packet.
Proof.
  unfold UdpSocket.send, TcpSocket.wire.
  set (fd := Socket.getSocket sock).
  set (h1 := htons (Packet.getSize packet)).
  set (h2 := htons (Packet.getType packet)).
  set (d := Packet.getData packet).
  destruct (UdpSocket.sendto_loop fd h1 0 2 os) as [[out1 ev1] r1] eqn:E1.
  change 2 with (Z.of_nat (length h1) - 0) in E1.
  apply sendto_loop_spec in E1 as [rest1 [H1 R1]]; [| cbn [length]; lia].
  change (Z.to_nat 0) with 0%nat in H1. rewrite drop_0 in H1.
  destruct r1 as [os1 | |]; [| discriminate | discriminate].
  destruct R1 as [-> _]. rewrite app_nil_r in H1.
  destruct (UdpSocket.sendto_loop fd h2 0 2 os1) as [[out2 ev2] r2] eqn:E2.
  change 2 with (Z.of_nat (length h2) - 0) in E2.
  apply sendto_loop_spec in E2 as [rest2 [H2 R2]]; [| cbn [length]; lia].
  change (Z.to_nat 0) with 0%nat in H2. rewrite drop_0 in H2.
  destruct r2 as [os2 | |]; [| discriminate | discriminate].
  destruct R2 as [-> _]. rewrite app_nil_r in H2.
  destruct (UdpSocket.sendto_loop fd d 0 _ os2) as [[out3 ev3] r3] eqn:E3.
  rewrite <- (Z.sub_0_r (Z.of_nat (length d))) in E3.
  apply sendto_loop_spec in E3 as [rest3 [H3 R3]]; [| lia].
  change (Z.to_nat 0) with 0%nat in H3. rewrite drop_0 in H3.
  intros E. inversion E; subst.
  destruct R3 as [-> _]. rewrite app_nil_r in H3.
  rewrite !concat_app, H1, H2, H3. reflexivity.
Qed.

Lemma udp_receive_from_prefix maxSize EMPTY (m : Packet.t) (fuel : nat) size
    (sock : Socket.t) :
  4 <= maxSize <= 65535 -> Packet.valid maxSize EMPTY m ->
  (length (TcpSocket.wire m) < fuel)%nat ->
  Z.of_nat (length (TcpSocket.wire m)) <= size ->
  forall (chunks : list (list byte)) (P buf : list byte),
    P ++ concat chunks = TcpSocket.wire m ->
    (length P < length (TcpSocket.wire m))%nat ->
    Forall (fun c => c <> []) chunks ->
    take (length P) buf = P ->
    (length (TcpSocket.wire m) <= length buf)%nat ->
    exists ev mem,
      UdpSocket.receive_from maxSize EMPTY fuel sock (map ReadData chunks)
        (PacketBuffer.mk (Some buf) size (Z.of_nat (length P)) [])
      = (ev, Done (Returned, PacketBuffer.mk (Some mem) size 0 [m]))
      /\ Forall (fun e => is_error_report e = false) ev
      /\ length ev = (2 * length chunks)%nat.
Proof.
  intros Hm Hv Hf Hsz.
  induction chunks as [|c cs IH]; intros P buf HP Hlt Hch Htake Hcap.
  - cbn [concat] in HP. rewrite app_nil_r in HP. subst P. lia.
  - cbn [concat] in HP.
    pose proof (Forall_inv Hch) as Hc. apply Forall_inv_tail in Hch.
    assert (Hcl : (length c <= length (TcpSocket.wire m))%nat).
    { rewrite <- HP, !length_app. lia. }
    cbn [map UdpSocket.receive_from].
    unfold PacketBuffer.getSize, PacketBuffer.getCurrentSize.
    cbn [PacketBuffer.mSize PacketBuffer.mCurrentlyStoredBytes].
    rewrite take_ge by lia.
    assert (Hcn : Z.of_nat (length c) <> 0).
    { destruct c; [contradiction | cbn [length]; lia]. }
    destruct (Z.eqb_spec (Z.of_nat (length c)) 0); [contradiction |].
    destruct (received_chunk maxSize EMPTY m fuel size [] P c (concat cs) buf)
      as [mem [Hlm [E Ht]]]; try assumption.
    rewrite E.
    destruct (concat cs) as [|x s] eqn:Ecs.
    + assert (cs = []) as ->.
      { destruct cs as [|c' cs']; [reflexivity |].
        cbn [concat] in Ecs. apply app_eq_nil in Ecs as [-> _].
        pose proof (Forall_inv Hch) as Hc'. contradiction. }
      cbn [PacketBuffer.isPacketsStored PacketBuffer.mStoredPackets app].
      eexists _, mem. split; [reflexivity |]. split.
      * repeat constructor.
      * reflexivity.
    + cbn [PacketBuffer.isPacketsStored PacketBuffer.mStoredPackets].
      destruct (IH (P ++ c) mem) as [ev' [mem' [E' [Hev Hlen]]]].
      * rewrite <- app_assoc. exact HP.
      * rewrite <- HP, !length_app. cbn [length]. lia.
      * exact Hch.
      * exact Ht.
      * lia.
      * rewrite E'. eexists _, mem'. split; [reflexivity |]. split.
        -- cbn [app]. repeat (constructor; [reflexivity |]). exact Hev.
        -- cbn [app length]. rewrite Hlen. lia.
Qed.

(** X19. End to end over datagrams. A well-formed packet that
    [UdpSocket::send] has sent completely, in datagrams none of which is
    empty, and whose datagrams arrive in order at a freshly constructed
    buffer, is rebuilt by one call of [receive(buffer, address, flags)]:
    it makes one [::recvfrom] per datagram, reports nothing and returns
    with exactly that packet pending and no byte left stored. *)
Theorem udp_send_receive_round_trip maxSize EMPTY (m : Packet.t)
    (fresh : nat -> byte) (size : Z) (os rest : list os_send)
    (out : list (list byte)) (sev : list Event)
    (fuel : nat) (sender receiver : Socket.t) :
  4 <= maxSize <= 65535 -> Packet.valid maxSize EMPTY m ->
  maxSize <= size ->
  65535 < Z.of_nat fuel ->
  UdpSocket.send sender m os = (out, sev, SendDone rest) ->
  Forall (fun d => d <> []) out ->
  exists ev mem,
    UdpSocket.receive_from maxSize EMPTY fuel receiver (map ReadData out)
      (fst (PacketBuffer.PacketBuffer maxSize fresh size))
    = (ev, Done (Returned, PacketBuffer.mk (Some mem) size 0 [m]))
    /\ Forall (fun e => is_error_report e = false) ev
    /\ length ev = (2 * length out)%nat.
Proof.
  intros Hm Hv Hsize Hfuel Hsend Hne.
  pose proof (wire_length _ _ _ Hm Hv) as Hwl.
  destruct (valid_size _ _ _ Hm Hv) as [Hsz Hmax].
  apply udp_send_done in Hsend.
  unfold PacketBuffer.PacketBuffer.
  destruct (Z.leb_spec maxSize size); [| lia]. cbn [fst].
  apply (udp_receive_from_prefix maxSize EMPTY m fuel size receiver Hm Hv
           ltac:(lia) ltac:(lia) out [] (map fresh (seq 0 (Z.to_nat size)))).
  - exact Hsend.
  - cbn [length]. lia.
  - exact Hne.
  - reflexivity.
  - rewrite length_map, length_seq. lia.
Qed.

Lemma udp_send_receive_round_trip_witness :
  exists ev mem,
    UdpSocket.receive_from 16 65535 (Z.to_nat 65536) (Socket.mk 4 0 0 0)
      (map ReadData [[x00]; [x07]; [x00; x09]; [x41; x42]; [x43]])
      (fst (PacketBuffer.PacketBuffer 16 (fun _ => xff) 32))
    = (ev, Done (Returned,
                 PacketBuffer.mk (Some mem) 32 0 [Packet.mk 9 7 [x41; x42; x43]]))
    /\ Forall (fun e => is_error_report e = false) ev
    /\ length ev = (2 * length [[x00]; [x07]; [x00; x09]; [x41; x42]; [x43]])%nat.
Proof.
  apply (udp_send_receive_round_trip 16 65535 (Packet.mk 9 7 [x41; x42; x43])
           (fun _ => xff) 32
           [SendTakes 1; SendTakes 1; SendTakes 2; SendTakes 2; SendTakes 5;
            SendTakes 9]
           [SendTakes 9]
           [[x00]; [x07]; [x00; x09]; [x41; x42]; [x43]] []
           (Z.to_nat 65536) (Socket.mk 3 0 0 0) (Socket.mk 4 0 0 0)).
  - lia.
  - split; [simpl; lia | reflexivity].
  - lia.
  - lia.
  - reflexivity.
  - repeat constructor; discriminate.
Defined.

(** ** From the stream to the application *)

Lemma take_packets_all (fuel : nat) :
  forall (buf : option (list byte)) (size stored : Z) (q : list Packet.t),
    (length q < fuel)%nat ->
    Examples.take_packets fuel (PacketBuffer.mk buf size stored q)
    = Done (q, PacketBuffer.mk buf size stored []).
Proof.
  induction fuel as [|fuel IH]; intros buf size stored q Hf; [lia |].
  destruct q as [|p q]; cbn [Examples.take_packets PacketBuffer.isPacketsStored
                              PacketBuffer.mStoredPackets]; [reflexivity |].
  unfold PacketBuffer.getPacket.
  cbn [PacketBuffer.mStoredPackets PacketBuffer.mBuffer PacketBuffer.mSize
       PacketBuffer.mCurrentlyStoredBytes mbind outcome_bind snd fst].
  rewrite IH by (cbn [length] in Hf; lia).
  reflexivity.
Qed.

(** X20. Any number of well-formed packets that arrive back to back, in one
    read of at most 65535 bytes that fits the buffer, are handed to the
    application by the examples' loop
    [while(isPacketsStored()) getPacket()] one by one in the order they were
    sent: [getPacket] is never called on an empty queue, nothing is
    reported, and afterwards no packet is pending and no byte stored. *)
Theorem stream_delivered_in_order maxSize EMPTY (ms : list Packet.t)
    (fresh : nat -> byte) (size : Z) (fuel : nat) :
  4 <= maxSize <= 65535 ->
  Forall (Packet.valid maxSize EMPTY) ms ->
  maxSize <= size ->
  let stream := concat (map TcpSocket.wire ms) in
  Z.of_nat (length stream) <= Z.min size 65535 ->
  65535 < Z.of_nat fuel ->
  exists mem,
    PacketBuffer.received maxSize EMPTY fuel stream
      (fst (PacketBuffer.PacketBuffer maxSize fresh size))
    = Done (PacketBuffer.mk (Some mem) size 0 ms, [])
    /\ Examples.take_packets fuel (PacketBuffer.mk (Some mem) size 0 ms)
       = Done (ms, PacketBuffer.mk (Some mem) size 0 []).
Proof.
  intros Hm Hv Hsize stream Hlen Hfuel.
  assert (Hms : (4 * length ms <= length stream)%nat).
  { subst stream. clear Hlen. induction Hv as [|m ms Hvm _ IH]; [cbn; lia |].
    cbn [map concat length]. rewrite length_app.
    pose proof (wire_length _ _ _ Hm Hvm) as Hwl.
    destruct (valid_size _ _ _ Hm Hvm) as [Hsz _]. lia. }
  unfold PacketBuffer.PacketBuffer.
  destruct (Z.leb_spec maxSize size); [| lia]. cbn [fst].
  set (buf := map fresh (seq 0 (Z.to_nat size))).
  assert (Hbuf : length buf = Z.to_nat size).
  { subst buf. rewrite length_map, length_seq. reflexivity. }
  destruct (os_write_append buf [] stream) as [buf1 [Ew [Hl1 Ht1]]];
    [reflexivity | cbn [length]; lia |].
  unfold PacketBuffer.received.
  cbn [PacketBuffer.mBuffer PacketBuffer.mCurrentlyStoredBytes
       PacketBuffer.mSize PacketBuffer.mStoredPackets].
  cbn [length] in Ew. change (Z.of_nat 0) with 0 in Ew.
  fold buf. rewrite Ew. cbn [mbind outcome_bind length].
  destruct (buildPackets_drain maxSize EMPTY ms [] buf1 size 0
              (Z.of_nat (length stream)) [] fuel)
    as [mem [E _]]; try assumption; try lia.
  - exact I.
  - rewrite Z.add_0_l, Nat2Z.id, app_nil_r. exact Ht1.
  - exists mem. split; [exact E |].
    apply take_packets_all. lia.
Qed.

Lemma stream_delivered_in_order_witness :
  let ms := [Packet.mk 0 6 [x48; x69]; Packet.mk 1 6 [x32; x31]] in
  exists mem,
    PacketBuffer.received 16 65535 (Z.to_nat 65536)
      (concat (map TcpSocket.wire ms))
      (fst (PacketBuffer.PacketBuffer 16 (fun _ => xff) 32))
    = Done (PacketBuffer.mk (Some mem) 32 0 ms, [])
    /\ Examples.take_packets (Z.to_nat 65536) (PacketBuffer.mk (Some mem) 32 0 ms)
       = Done (ms, PacketBuffer.mk (Some mem) 32 0 []).
Proof.
  intros ms.
  apply (stream_delivered_in_order 16 65535 ms (fun _ => xff) 32 (Z.to_nat 65536)).
  - lia.
  - repeat constructor; simpl; lia.
  - lia.
  - simpl. lia.
  - lia.
Defined.

(** ** UdpSocket::receive with an address: the request ignores the offset *)

(** X21. A datagram receive asks for [getSize()] bytes at offset
    [getCurrentSize()]. Whenever bytes are already stored, a datagram
    longer than the space left behind them is written past the end of the
    block: the call does not return. *)
Theorem udp_receive_from_overruns maxSize EMPTY (fuel : nat) (sock : Socket.t)
    (bs buf : list byte) (os : list os_read) (size stored : Z)
    (q : list Packet.t) :
  Z.of_nat (length buf) = size ->
  0 < stored <= size ->
  size - stored < Z.of_nat (length bs) ->
  UdpSocket.receive_from maxSize EMPTY fuel sock (ReadData bs :: os)
    (PacketBuffer.mk (Some buf) size stored q)
  = ([EvRecv (Socket.getSocket sock) stored size;
      EvBuildPackets (Z.min size (Z.of_nat (length bs)))],
     Fault).
Proof.
  intros Hbuf Hst Hbs.
  cbn [UdpSocket.receive_from].
  unfold PacketBuffer.getSize, PacketBuffer.getCurrentSize.
  cbn [PacketBuffer.mSize PacketBuffer.mCurrentlyStoredBytes].
  set (got := take (Z.to_nat size) bs).
  assert (Hgot : Z.of_nat (length got) = Z.min size (Z.of_nat (length bs))).
  { subst got. rewrite length_take. lia. }
  rewrite Hgot.
  destruct (Z.eqb_spec (Z.min size (Z.of_nat (length bs))) 0); [lia |].
  unfold PacketBuffer.received, PacketBuffer.os_write.
  cbn [PacketBuffer.mBuffer PacketBuffer.mCurrentlyStoredBytes].
  rewrite Hgot.
  destruct (Z.leb_spec 0 stored); [| lia].
  destruct (Z.leb_spec (stored + Z.min size (Z.of_nat (length bs)))
              (Z.of_nat (length buf))); [lia |].
  reflexivity.
Qed.

Lemma udp_receive_from_overruns_witness :
  UdpSocket.receive_from 4 65535 8 (Socket.mk 3 0 0 0)
    (ReadData [x00; x01; x41; x42] :: [])
    (PacketBuffer.mk (Some [x00; x06; xff; xff]) 4 2 [])
  = ([EvRecv (Socket.getSocket (Socket.mk 3 0 0 0)) 2 4;
      EvBuildPackets (Z.min 4 (Z.of_nat (length [x00; x01; x41; x42])))],
     Fault).
Proof.
  apply (udp_receive_from_overruns 4 65535 8 (Socket.mk 3 0 0 0)
           [x00; x01; x41; x42] [x00; x06; xff; xff] [] 4 2 []).
  - reflexivity.
  - lia.
  - simpl. lia.
Defined.
